(** * clean_data.py: organise, convert and sweep an imaging data tree

    A shallow embedding of [src/clean_data.py] and the properties of its
    unit locator ([filter_series]), per-series pipeline ([process_series]),
    dispatcher (the [map] / [imap_unordered] loop of [main]) and sweep
    ([remove_invalid_files_and_empty_dirs]).

    Modelling conventions.
    - Python [str] is [string]; [str.lower] is taken on the ASCII letters.
    - A path is the list of its components; [os.path.join dir name] is
      [dir ++ [name]].  Every name joined by the script comes from a
      directory listing, hence is a single component.
    - The file system is a tree whose directories are finite maps from
      names to nodes; the tree's root is the directory [/].
    - The script's calls into [os], [shutil], [zipfile] and SimpleITK are
      the primitive operations of a small command language.  Each call
      either returns or raises; an environment decides which calls the
      operating system refuses and what an archive or a frame set
      decodes to. *)

From Stdlib Require Import ZArith Ascii.
From stdpp Require Import gmap strings list fin_maps.

(* ================================================================== *)
(** * Python string functions used by the script *)

Module PyStr.

Definition lower_ascii (c : ascii) : ascii :=
  let n := nat_of_ascii c in
  if (65 <=? n)%nat && (n <=? 90)%nat then ascii_of_nat (n + 32) else c.

(** [s.lower()] *)
Fixpoint lower (s : string) : string :=
  match s with
  | EmptyString => EmptyString
  | String c t => String (lower_ascii c) (lower t)
  end.

(** [s.endswith(suffix)]: some tail of [s] is [suffix]. *)
Fixpoint endswith (s suffix : string) : bool :=
  if String.eqb s suffix then true
  else match s with
       | EmptyString => false
       | String _ t => endswith t suffix
       end.

(** [s.startswith(prefix)] *)
Definition startswith (s pre : string) : bool := String.prefix pre s.

(** [s.rfind(c)] for a one-character [c]: the last index of [c], or [-1]. *)
Fixpoint rfind (c : ascii) (s : string) : Z :=
  match s with
  | EmptyString => (-1)%Z
  | String a t =>
      let r := rfind c t in
      if (0 <=? r)%Z then (r + 1)%Z
      else if Ascii.eqb a c then 0%Z else (-1)%Z
  end.

(** [s[i:j]] for [0 <= i]. *)
Definition slice (i j : Z) (s : string) : string :=
  String.substring (Z.to_nat i) (Z.to_nat (j - i)) s.

Fixpoint has_non_dot (s : string) : bool :=
  match s with
  | EmptyString => false
  | String a t => negb (Ascii.eqb a "."%char) || has_non_dot t
  end.

(** [os.path.splitext] of [posixpath]: the extension starts at the last
    dot of the last component, unless only dots precede it. *)
Definition splitext (p : string) : string * string :=
  let sepIndex := rfind "/"%char p in
  let dotIndex := rfind "."%char p in
  if (sepIndex <? dotIndex)%Z && has_non_dot (slice (sepIndex + 1) dotIndex p)
  then (slice 0 dotIndex p, slice dotIndex (Z.of_nat (String.length p)) p)
  else (p, "").

End PyStr.

Import PyStr.

(* ================================================================== *)
(** * The file system *)

Definition path := list string.

#[warnings="-register-all"]
Inductive node :=
| File (data : string)
| Dir (entries : gmap string node).

Definition is_dir (n : node) : bool :=
  match n with Dir _ => true | File _ => false end.

Definition is_file (n : node) : bool :=
  match n with File _ => true | Dir _ => false end.

(** The node a path leads to, from the root [n]. *)
Fixpoint node_at (p : path) (n : node) : option node :=
  match p with
  | [] => Some n
  | x :: q =>
      match n with
      | Dir es => match es !! x with Some c => node_at q c | None => None end
      | File _ => None
      end
  end.

(** Replace ([Some]) or unlink ([None]) the entry at the end of a non-empty
    path whose parent directories exist. *)
Fixpoint put (p : path) (v : option node) (n : node) : node :=
  match n with
  | File _ => n
  | Dir es =>
      match p with
      | [] => n
      | x :: q =>
          match q with
          | [] => Dir (partial_alter (λ _, v) x es)
          | _ :: _ => Dir (alter (put q v) x es)
          end
      end
  end.

(** [os.makedirs(p, exist_ok=True)]: [None] when a component is a file. *)
Fixpoint mkdirs (p : path) (n : node) : option node :=
  match n with
  | File _ => None
  | Dir es =>
      match p with
      | [] => Some n
      | x :: q =>
          match mkdirs q (default (Dir ∅) (es !! x)) with
          | Some c => Some (Dir (<[x := c]> es))
          | None => None
          end
      end
  end.

Definition parent (p : path) : path := take (length p - 1) p.
Definition basename (p : path) : string := default "" (last p).

(** Create or overwrite a regular file: the parent must be a directory and
    the target must not be one. *)
Definition write_file (p : path) (d : string) (fs : node) : option node :=
  match p with
  | [] => None
  | _ :: _ =>
      match node_at (parent p) fs, node_at p fs with
      | Some (Dir _), Some (Dir _) => None
      | Some (Dir _), _ => Some (put p (Some (File d)) fs)
      | _, _ => None
      end
  end.

Definition names_where (f : node → bool) (es : gmap string node) : list string :=
  (filter (λ xc, f xc.2 = true) (map_to_list es)).*1.

Definition dirnames := names_where is_dir.
Definition filenames := names_where is_file.

(** [os.walk(top, topdown)] over the directory [n] found at [top]: one
    triple [(dirpath, dirnames, filenames)] per directory, a directory
    before ([topdown]) or after its sub-directories. *)
Fixpoint walk (topdown : bool) (top : path) (n : node)
  : list (path * list string * list string) :=
  match n with
  | File _ => []
  | Dir es =>
      let here := (top, dirnames es, filenames es) in
      let below := map_fold (λ x c acc, walk topdown (top ++ [x]) c ++ acc) [] es in
      if topdown then here :: below else below ++ [here]
  end.

(** One archive member: its relative path and its bytes ([None] for a
    directory entry). *)
Definition member := (path * option string)%type.

Definition extract_member (dest : path) (m : member) (fs : node) : option node :=
  let target := dest ++ m.1 in
  match m.2 with
  | None => mkdirs target fs
  | Some d =>
      match mkdirs (parent target) fs with
      | Some fs1 => write_file target d fs1
      | None => None
      end
  end.

(** Members are written in archive order; the first one that cannot be
    written stops the extraction and leaves the earlier ones on disk. *)
Fixpoint extract_members (dest : path) (ms : list member) (fs : node) : node * bool :=
  match ms with
  | [] => (fs, true)
  | m :: ms' =>
      match extract_member dest m fs with
      | Some fs1 => extract_members dest ms' fs1
      | None => (fs, false)
      end
  end.

(* ================================================================== *)
(** * Calls, exceptions and printed lines *)

Inductive exn :=
| BadZipFile
| FileNotFoundError
| FileExistsError
| IsADirectoryError
| NotADirectoryError
| PermissionError
| SameFileError
| OSError
| RuntimeError.

(** The lines the script prints, one constructor per [print] statement. *)
Inductive event :=
| WarnCopyZip (zip_file_path : path)
| WarnBadZip (series_id : string)
| WarnUnzip (local_zip_path : path)
| WarnNoDicom (series_id : string)
| WarnSitkRead (series_id : string)
| WarnWriteNifti (series_id : string)
| WarnRemoveDicom (dcm_file : path)
| WarnCopyJson (series_id : string)
| Finished (series_id patient_folder date_folder : string)
| InfoRemovedFile (fpath : path)
| WarnCouldNotRemove (fpath : path)
| InfoRemovedDir (dirpath : path)
| WarnFailedRemoveDir (dirpath : path)
| InfoOrganizationComplete
| InfoAllDone (output_dir : path).

(** A decoded volume ([SimpleITK.Image]), by its pixel buffer. *)
Definition image := string.

Inductive op :=
| Makedirs (p : path)                 (* os.makedirs(p, exist_ok=True) *)
| Copy2 (src dst : path)              (* shutil.copy2(src, dst) *)
| ExtractAll (zip dest : path)        (* zipfile.ZipFile(zip).extractall(dest) *)
| Remove (p : path)                   (* os.remove(p) *)
| Rmtree (p : path)                   (* shutil.rmtree(p, ignore_errors=True) *)
| Rmdir (p : path)                    (* os.rmdir(p) *)
| Listdir (p : path)                  (* os.listdir(p) *)
| Isfile (p : path)                   (* os.path.isfile(p) *)
| Walk (topdown : bool) (top : path)  (* os.walk(top, topdown) *)
| ReadSeries (files : list path)      (* ImageSeriesReader: SetFileNames, Execute *)
| WriteImage (img : image) (p : path) (* sitk.WriteImage(img, p) *)
| Print (e : event).

(** What a call returns when it does not raise. *)
Definition res (o : op) : Type :=
  match o with
  | Listdir _ => list string
  | Isfile _ => bool
  | Walk _ _ => list (path * list string * list string)
  | ReadSeries _ => image
  | _ => unit
  end.

(** The world outside the script: which calls the operating system
    refuses, what an archive's bytes expand to (the members that can be
    read, and the error that ends the reading, if any), what a frame set
    decodes to, and the bytes of an encoded volume. *)
Record env := Env {
  denied : op → bool;
  unzip : string → list member * option exn;
  decode : list string → option image;
  encode : image → string
}.

(** A refused call raises, except where the script's call ignores errors:
    [rmtree(ignore_errors=True)] does nothing, [os.walk] yields nothing,
    [os.path.isfile] answers [False].  [print] is taken to succeed, and
    the two traversals to stay within the recursion limit; [exec_strict]
    further down lets the three raise. *)
Definition refused (o : op) : exn + res o :=
  match o return exn + res o with
  | Rmtree _ => inr tt
  | Walk _ _ => inr []
  | Isfile _ => inr false
  | Print _ => inr tt
  | _ => inl PermissionError
  end.

Definition file_data (fs : node) (p : path) : option string :=
  match node_at p fs with Some (File d) => Some d | _ => None end.

Definition exec_ok (E : env) (o : op) (fs : node) : (exn + res o) * node :=
  match o return (exn + res o) * node with
  | Makedirs p =>
      match mkdirs p fs with
      | Some fs' => (inr tt, fs')
      | None =>
          (* a regular file in the way: at [p] itself, or above it *)
          (inl (match node_at p fs with
                | Some (File _) => FileExistsError
                | _ => NotADirectoryError
                end), fs)
      end
  | Copy2 src dst =>
      match node_at src fs with
      | Some (File d) =>
          let target :=
            match node_at dst fs with
            | Some (Dir _) => dst ++ [basename src]
            | _ => dst
            end in
          if decide (target = src) then (inl SameFileError, fs)
          else match write_file target d fs with
               | Some fs' => (inr tt, fs')
               | None => (inl OSError, fs)
               end
      | Some (Dir _) => (inl IsADirectoryError, fs)
      | None => (inl FileNotFoundError, fs)
      end
  | ExtractAll zip dest =>
      match node_at zip fs with
      | Some (File d) =>
          let '(ms, status) := unzip E d in
          let '(fs', written) := extract_members dest ms fs in
          if written
          then match status with
               | None => (inr tt, fs')
               | Some e => (inl e, fs')
               end
          else (inl OSError, fs')
      | Some (Dir _) => (inl IsADirectoryError, fs)
      | None => (inl FileNotFoundError, fs)
      end
  | Remove p =>
      match p, node_at p fs with
      | _ :: _, Some (File _) => (inr tt, put p None fs)
      | _, Some _ => (inl IsADirectoryError, fs)
      | _, None => (inl FileNotFoundError, fs)
      end
  | Rmtree p =>
      match p, node_at p fs with
      | _ :: _, Some (Dir _) => (inr tt, put p None fs)
      | _, _ => (inr tt, fs)
      end
  | Rmdir p =>
      match p, node_at p fs with
      | _ :: _, Some (Dir es) =>
          if decide (es = ∅) then (inr tt, put p None fs) else (inl OSError, fs)
      | [], Some (Dir _) => (inl OSError, fs)
      | _, Some (File _) => (inl NotADirectoryError, fs)
      | _, None => (inl FileNotFoundError, fs)
      end
  | Listdir p =>
      match node_at p fs with
      | Some (Dir es) => (inr (map_to_list es).*1, fs)
      | Some (File _) => (inl NotADirectoryError, fs)
      | None => (inl FileNotFoundError, fs)
      end
  | Isfile p =>
      (inr (match node_at p fs with Some (File _) => true | _ => false end), fs)
  | Walk topdown top =>
      (inr (match node_at top fs with Some n => walk topdown top n | None => [] end), fs)
  | ReadSeries files =>
      match mapM (file_data fs) files with
      | Some ds =>
          match decode E ds with
          | Some img => (inr img, fs)
          | None => (inl RuntimeError, fs)
          end
      | None => (inl RuntimeError, fs)
      end
  | WriteImage img p =>
      match write_file p (encode E img) fs with
      | Some fs' => (inr tt, fs')
      | None => (inl RuntimeError, fs)
      end
  | Print _ => (inr tt, fs)
  end.

Definition exec (E : env) (o : op) (fs : node) : (exn + res o) * node :=
  if denied E o then (refused o, fs) else exec_ok E o fs.

Definition printed (o : op) : list event :=
  match o with Print e => [e] | _ => [] end.

(* ================================================================== *)
(** * Programs *)

(** What unwinds the control flow: a raised exception or a [return]
    without value (every early [return] of the script is a bare one). *)
Inductive signal :=
| Exc (e : exn)
| Return.

Inductive prog (A : Type) : Type :=
| Ret (a : A)
| Throw (s : signal)
| Do (o : op) (k : exn + res o → prog A).

Arguments Ret {A} a.
Arguments Throw {A} s.
Arguments Do {A} o k.

Fixpoint bind {A B} (c : prog A) (f : A → prog B) : prog B :=
  match c with
  | Ret a => f a
  | Throw s => Throw s
  | Do o k => Do o (λ r, bind (k r) f)
  end.

#[global] Instance prog_ret : MRet prog := @Ret.
#[global] Instance prog_bind : MBind prog := λ A B f c, bind c f.

(** A call outside any [try]: its exception unwinds. *)
Definition call (o : op) : prog (res o) :=
  Do o (λ r, match r with inl e => Throw (Exc e) | inr v => Ret v end).

(** [try: c  except Exception as e: h e] *)
Fixpoint try_ {A} (c : prog A) (h : exn → prog A) : prog A :=
  match c with
  | Ret a => Ret a
  | Throw (Exc e) => h e
  | Throw Return => Throw Return
  | Do o k => Do o (λ r, try_ (k r) h)
  end.

(** The body of a [def]: a bare [return] makes the call return [None]. *)
Fixpoint def_ {A} (c : prog (option A)) : prog (option A) :=
  match c with
  | Ret a => Ret a
  | Throw Return => Ret None
  | Throw (Exc e) => Throw (Exc e)
  | Do o k => Do o (λ r, def_ (k r))
  end.

Definition return_ {A} : prog A := Throw Return.

(** [for x in l: body x] *)
Fixpoint for_ {X} (l : list X) (body : X → prog unit) : prog unit :=
  match l with
  | [] => Ret tt
  | x :: l' => body x ;; for_ l' body
  end.

(** A loop that updates local variables [s]. *)
Fixpoint fold_ {X S} (l : list X) (s : S) (body : S → X → prog S) : prog S :=
  match l with
  | [] => Ret s
  | x :: l' => s' ← body s x; fold_ l' s' body
  end.

(** Running a program: the value or the signal it ends with, the file
    system it leaves and the lines it printed. *)
Fixpoint run {A} (E : env) (c : prog A) (fs : node)
  : (signal + A) * node * list event :=
  match c with
  | Ret a => (inr a, fs, [])
  | Throw s => (inl s, fs, [])
  | Do o k =>
      let '(r, fs1) := exec E o fs in
      let '(v, fs2, l) := run E (k r) fs1 in
      (v, fs2, printed o ++ l)
  end.

Definition os_makedirs p := call (Makedirs p).
Definition shutil_copy2 src dst := call (Copy2 src dst).
Definition zipfile_extractall zip dest := call (ExtractAll zip dest).
Definition os_remove p := call (Remove p).
Definition shutil_rmtree p := call (Rmtree p).
Definition os_rmdir p := call (Rmdir p).
Definition os_listdir p := call (Listdir p).
Definition os_path_isfile p := call (Isfile p).
Definition os_walk topdown top := call (Walk topdown top).
Definition sitk_read files := call (ReadSeries files).
Definition sitk_write img p := call (WriteImage img p).
Definition print e := call (Print e).

(* ================================================================== *)
(** * The script *)

Definition VALID_EXTENSIONS : gset string := {[ ".dcm"; ".json"; ".nii.gz" ]}.
Definition VALID_FILENAMES : gset string := {[ "LICENSE" ]}.

(** [filter_series(date_path)] *)
Definition filter_series (date_path : path) : prog (gset string) :=
  listing ← os_listdir date_path;
  ids ← fold_ listing (∅, ∅) (λ '(zip_ids, json_ids) f,
    let fpath := date_path ++ [f] in
    is_zip ← (if endswith f ".zip" then os_path_isfile fpath else mret false);
    if is_zip : bool then mret (zip_ids ∪ {[ (splitext f).1 ]}, json_ids)
    else
      is_json ← (if endswith f ".json" then os_path_isfile fpath else mret false);
      if is_json : bool then mret (zip_ids, json_ids ∪ {[ (splitext f).1 ]})
      else mret (zip_ids, json_ids));
  mret (ids.1 ∩ ids.2).

(** A task tuple: [(patient_folder, date_folder, series_id, input_dir,
    output_dir)]. *)
Definition task := (string * string * string * path * path)%type.

(** The frame files of a walk: [os.path.join(root, fname)] for every
    [fname] of [files] with [fname.lower().endswith(".dcm")]. *)
Definition collect_dcm (w : list (path * list string * list string)) : list path :=
  w ≫= (λ '(root, dirs, files),
    (λ fname, root ++ [fname])
      <$> filter (λ fname, endswith (lower fname) ".dcm" = true) files).

(** [process_series(task)] *)
Definition process_series (t : task) : prog (option (string * string * string)) :=
  let '(patient_folder, date_folder, series_id, input_dir, output_dir) := t in
  let in_date_path := input_dir ++ [patient_folder; date_folder] in
  let zip_file_path := in_date_path ++ [series_id +:+ ".zip"] in
  let json_file_path := in_date_path ++ [series_id +:+ ".json"] in
  let out_date_path := output_dir ++ [patient_folder; date_folder] in
  let series_out_dir := out_date_path ++ [series_id] in
  let local_zip_path := series_out_dir ++ [series_id +:+ ".zip"] in
  let nifti_path := series_out_dir ++ [series_id +:+ ".nii.gz"] in
  let local_json_path := series_out_dir ++ [series_id +:+ ".json"] in
  def_ (
    os_makedirs out_date_path;;
    os_makedirs series_out_dir;;
    try_ (shutil_copy2 zip_file_path local_zip_path)
      (λ e, print (WarnCopyZip zip_file_path);; return_);;
    try_ (zipfile_extractall local_zip_path series_out_dir)
      (λ e, match e with
            | BadZipFile =>
                print (WarnBadZip series_id);;
                os_remove local_zip_path;;
                shutil_rmtree series_out_dir;;
                return_
            | _ =>
                print (WarnUnzip local_zip_path);;
                os_remove local_zip_path;;
                shutil_rmtree series_out_dir;;
                return_
            end);;
    os_remove local_zip_path;;
    w ← os_walk true series_out_dir;
    let dcm_files := collect_dcm w in
    (if decide (length dcm_files = 0)
     then print (WarnNoDicom series_id);;
          shutil_rmtree series_out_dir;;
          return_
     else mret ());;
    image ← try_ (sitk_read dcm_files)
      (λ e, print (WarnSitkRead series_id);;
            shutil_rmtree series_out_dir;;
            return_);
    try_ (sitk_write image nifti_path)
      (λ e, print (WarnWriteNifti series_id);;
            shutil_rmtree series_out_dir;;
            return_);;
    for_ dcm_files (λ dcm_file,
      try_ (os_remove dcm_file)
        (λ e, print (WarnRemoveDicom dcm_file)));;
    try_ (shutil_copy2 json_file_path local_json_path)
      (λ e, print (WarnCopyJson series_id));;
    print (Finished series_id patient_folder date_folder);;
    mret (Some (patient_folder, date_folder, series_id))).

(** The sweep's test on a file name. *)
Definition invalid_file (fname : string) : bool :=
  let ext := lower (splitext fname).2 in
  negb (bool_decide (ext ∈ VALID_EXTENSIONS))
  && negb (bool_decide (fname ∈ VALID_FILENAMES)).

(** The first loop of [remove_invalid_files_and_empty_dirs]: "1) Remove
    invalid files". *)
Definition remove_invalid_files (root_dir : path) : prog unit :=
  w ← os_walk false root_dir;
  for_ w (λ '(dirpath, dirnames, filenames),
    for_ filenames (λ fname,
      let fpath := dirpath ++ [fname] in
      if invalid_file fname
      then try_ (os_remove fpath;; print (InfoRemovedFile fpath))
             (λ e, print (WarnCouldNotRemove fpath))
      else mret ())).

(** Its second loop: "2) Remove empty directories (again bottom-up)". *)
Definition remove_empty_dirs (root_dir : path) : prog unit :=
  w ← os_walk false root_dir;
  for_ w (λ '(dirpath, dirnames, filenames),
    try_ (listing ← os_listdir dirpath;
          if decide (listing = [])
          then os_rmdir dirpath;; print (InfoRemovedDir dirpath)
          else mret ())
      (λ e, print (WarnFailedRemoveDir dirpath))).

(** [remove_invalid_files_and_empty_dirs(root_dir)] *)
Definition remove_invalid_files_and_empty_dirs (root_dir : path) : prog unit :=
  remove_invalid_files root_dir;;
  remove_empty_dirs root_dir.

(** The part of [main] that builds the tasks of one date folder. *)
Definition date_tasks (patient_folder date_folder : string)
    (input_dir output_dir : path) : prog (list task) :=
  let patient_path := input_dir ++ [patient_folder] in
  let date_path := patient_path ++ [date_folder] in
  series_ids ← filter_series date_path;
  mret ((λ sid, (patient_folder, date_folder, sid, input_dir, output_dir))
          <$> elements series_ids).

(** The serial branch of [main]: [for _ in map(process_series, tasks): pass]. *)
Definition organize_serial (tasks : list task) : prog unit :=
  for_ tasks (λ t, process_series t;; mret ()).

(** [main] from the dispatch on, with [nprocs <= 1]. *)
Definition organize_and_clean (tasks : list task) (output_dir : path) : prog unit :=
  organize_serial tasks;;
  print InfoOrganizationComplete;;
  remove_invalid_files_and_empty_dirs output_dir;;
  print (InfoAllDone output_dir).

(* ================================================================== *)
(** * Auxiliary definitions for the proofs *)

Fixpoint node_size (n : node) : nat :=
  match n with
  | File _ => 1
  | Dir es => S (map_fold (λ _ c acc, node_size c + acc) 0 es)
  end.

(** Replace the node found at [p]. *)
Fixpoint subst (p : path) (n' : node) (fs : node) : node :=
  match p with
  | [] => n'
  | x :: q =>
      match fs with
      | Dir es => Dir (alter (subst q n') x es)
      | File _ => fs
      end
  end.

Definition dir_at (p : path) (fs : node) : Prop :=
  ∃ es, node_at p fs = Some (Dir es).

Definition file_at (p : path) (fs : node) : Prop :=
  ∃ d, node_at p fs = Some (File d).

(** The paths [process_series] computes from its task. *)
Definition staging_dir (t : task) : path :=
  let '(patient_folder, date_folder, series_id, input_dir, output_dir) := t in
  (output_dir ++ [patient_folder; date_folder]) ++ [series_id].

Definition archive_copy_path (t : task) : path :=
  staging_dir t ++ [t.1.1.2 +:+ ".zip"].

Definition volume_path (t : task) : path :=
  staging_dir t ++ [t.1.1.2 +:+ ".nii.gz"].

Definition sidecar_copy_path (t : task) : path :=
  staging_dir t ++ [t.1.1.2 +:+ ".json"].

Definition unit_id (t : task) : string := t.1.1.2.

(** The warnings of the abort paths that follow the extraction (stages 2
    to 4 of the pipeline) and those of the last, best-effort stage. *)
Definition abort_warning (t : task) (w : event) : Prop :=
  w = WarnBadZip (unit_id t) ∨ w = WarnUnzip (archive_copy_path t)
  ∨ w = WarnNoDicom (unit_id t) ∨ w = WarnSitkRead (unit_id t)
  ∨ w = WarnWriteNifti (unit_id t).

Definition finalize_warning (t : task) (w : event) : Prop :=
  w = WarnCopyJson (unit_id t) ∨ ∃ f, w = WarnRemoveDicom f.

Definition patient_of (t : task) : string := t.1.1.1.1.
Definition date_of (t : task) : string := t.1.1.1.2.

(** What holds when [process_series] is through, by the way it ended. *)
Definition process_series_post (E : env) (t : task)
    (out : (signal + option (string * string * string)) * node * list event) : Prop :=
  let '(r, fs', l) := out in
  match r with
  | inl Return => False
  | inl (Exc e) =>
      l = [] ∨ l = [WarnBadZip (unit_id t)] ∨ l = [WarnUnzip (archive_copy_path t)]
  | inr None =>
      (∃ zin, l = [WarnCopyZip zin] ∧ dir_at (staging_dir t) fs')
      ∨ (∃ w, l = [w] ∧ abort_warning t w
           ∧ (denied E (Rmtree (staging_dir t)) = false →
              node_at (staging_dir t) fs' = None))
  | inr (Some id) =>
      id = (patient_of t, date_of t, unit_id t)
      ∧ (∃ l5, l = l5 ++ [Finished (unit_id t) (patient_of t) (date_of t)]
           ∧ Forall (finalize_warning t) l5)
      ∧ file_at (volume_path t) fs'
      ∧ node_at (archive_copy_path t) fs' = None
      ∧ dir_at (staging_dir t) fs'
      ∧ (WarnCopyJson (unit_id t) ∈ l
         ∨ file_at (sidecar_copy_path t) fs'
         ∨ file_at (sidecar_copy_path t ++ [unit_id t +:+ ".json"]) fs')
      ∧ (∀ q x, file_at ((staging_dir t ++ q) ++ [x]) fs' →
                endswith (lower x) ".dcm" = true →
                WarnRemoveDicom ((staging_dir t ++ q) ++ [x]) ∈ l)
  end.

(* ================================================================== *)
(** * Sample data for the worked examples *)

(** Three archives: a good one with two frames (one in a sub-directory,
    one with an upper-case extension) and a text file, a good one without
    frames, and everything else is not an archive at all. *)
Definition sample_unzip (d : string) : list member * option exn :=
  if decide (d = "PK-frames")
  then ([(["a.dcm"], Some "frame-a"); (["sub"; "b.DCM"], Some "frame-b");
         (["readme.txt"], Some "notes")], None)
  else if decide (d = "PK-notes")
  then ([(["readme.txt"], Some "notes")], None)
  else ([], Some BadZipFile).

(** The operating system refuses exactly the calls [refuse] picks. *)
Definition sample_env (refuse : op → bool) : env :=
  Env refuse sample_unzip (λ ds, Some (String.concat "+" ds)) (λ img, img).

Definition nominal : env := sample_env (λ _, false).

(** An input tree with one patient, one date and three units: [s1] is
    sound, [s2] has a corrupt archive, [s3] has an archive without frames. *)
Definition sample_fs : node :=
  Dir {[ "in" := Dir {[ "ISPY2-100" := Dir {[ "01-02-2003" := Dir {[
      "s1.zip" := File "PK-frames"; "s1.json" := File "{1}";
      "s2.zip" := File "garbage"; "s2.json" := File "{2}";
      "s3.zip" := File "PK-notes"; "s3.json" := File "{3}";
      "s4.zip" := File "PK-frames";
      "notes" := Dir ∅ ]} ]} ]} ]}.

Definition sample_task (sid : string) : task :=
  ("ISPY2-100", "01-02-2003", sid, ["in"], ["out"]).

(** All paths of a tree, files with their bytes. *)
Fixpoint ls_R (p : path) (n : node) : list (path * option string) :=
  match n with
  | File d => [(p, Some d)]
  | Dir es => (p, None) :: map_fold (λ x c acc, ls_R (p ++ [x]) c ++ acc) [] es
  end.

(** The outcome variants the specification names. *)
Inductive UnitOutcome :=
| Completed (unit_id : string)
| SkippedCorruptArchive (unit_id : string)
| SkippedNoDecodable (unit_id : string)
| SkippedCopyFailure (unit_id : string) (stage : string)
| SkippedConversionFailure (unit_id : string).

(** The variant a run of [process_series] amounts to, by the line it
    printed last. *)
Definition outcome_of_run (t : task) (l : list event) : option UnitOutcome :=
  match last l with
  | Some (Finished _ _ _) => Some (Completed (unit_id t))
  | Some (WarnCopyZip _) => Some (SkippedCopyFailure (unit_id t) "Materialize")
  | Some (WarnBadZip _) | Some (WarnUnzip _) =>
      Some (SkippedCorruptArchive (unit_id t))
  | Some (WarnNoDicom _) => Some (SkippedNoDecodable (unit_id t))
  | Some (WarnSitkRead _) | Some (WarnWriteNifti _) =>
      Some (SkippedConversionFailure (unit_id t))
  | _ => None
  end.

(** The staging directory as the specification wants it after every run:
    absent, or holding the volume, possibly the sidecar, and nothing else. *)
Definition staging_as_specified (t : task) (fs : node) : Prop :=
  match node_at (staging_dir t) fs with
  | None => True
  | Some (File _) => False
  | Some (Dir es) =>
      is_Some (es !! (unit_id t +:+ ".nii.gz"))
      ∧ ∀ x, is_Some (es !! x) →
             x = unit_id t +:+ ".nii.gz" ∨ x = unit_id t +:+ ".json"
  end.

(** The system refuses to copy the archive of [s2], to copy the sidecar
    of [s1] and to delete one frame of [s1]. *)
Definition sample_refusals (o : op) : bool :=
  match o with
  | Copy2 src _ =>
      bool_decide (src = ["in"; "ISPY2-100"; "01-02-2003"; "s2.zip"])
      || bool_decide (src = ["in"; "ISPY2-100"; "01-02-2003"; "s1.json"])
  | Remove p =>
      bool_decide (p = ["out"; "ISPY2-100"; "01-02-2003"; "s1"; "a.dcm"])
  | _ => false
  end.

Definition read_only_output (o : op) : bool :=
  match o with Makedirs _ => true | _ => false end.

(** The listing of the sample date folder, in the order of the map. *)
Definition sample_date_path : path := ["in"; "ISPY2-100"; "01-02-2003"].

Definition sample_listing : list string :=
  Eval vm_compute in
    match node_at sample_date_path sample_fs with
    | Some (Dir es) => (map_to_list es).*1
    | _ => []
    end.

(** An output root that holds nothing but a stray text file. *)
Definition stray_fs : node :=
  Dir {[ "out" := Dir {[ "notes.txt" := File "stray" ]} ]}.

(** What [os.path.isfile] answers. *)
Definition isfile_answer (E : env) (fs : node) (p : path) : bool :=
  match (exec E (Isfile p) fs).1 with inr b => b | inl _ => false end.

(** The stems [splitext(f)[0]] of the regular files of a listing whose
    name ends with [ext]. *)
Definition stems (E : env) (fs : node) (date_path : path) (ext : string)
    (listing : list string) : gset string :=
  list_to_set ((λ f, (splitext f).1)
    <$> filter (λ f, endswith f ext = true
                     ∧ isfile_answer E fs (date_path ++ [f]) = true) listing).

Definition archive_stems E fs date_path listing := stems E fs date_path ".zip" listing.
Definition sidecar_stems E fs date_path listing := stems E fs date_path ".json" listing.

(* ================================================================== *)
(** * Closed forms of the two loops of the sweep *)

(** What the first loop leaves of the tree [n] found at [p]: every file
    the test condemns is gone, unless the system refused to delete it. *)
Fixpoint sweep_files (E : env) (p : path) (n : node) : node :=
  match n with
  | File d => File d
  | Dir es =>
      Dir (map_imap (λ x c,
        match c with
        | File _ =>
            if invalid_file x && negb (denied E (Remove (p ++ [x])))
            then None else Some c
        | Dir _ => Some (sweep_files E (p ++ [x]) c)
        end) es)
  end.

(** An empty directory at [p] is removed when it is not the root [/] and
    neither the listing nor the removal is refused. *)
Definition can_rmdir (E : env) (p : path) : bool :=
  bool_decide (p ≠ [])
  && negb (denied E (Listdir p)) && negb (denied E (Rmdir p)).

(** What the second loop leaves of the tree [n] found at [p]; [None] when
    the directory itself is removed. *)
Fixpoint prune_dirs (E : env) (p : path) (n : node) : option node :=
  match n with
  | File d => Some (File d)
  | Dir es =>
      let es' := map_imap (λ x c, prune_dirs E (p ++ [x]) c) es in
      if bool_decide (es' = ∅) && can_rmdir E p then None else Some (Dir es')
  end.

(** Replace the node at [p], or unlink it. *)
Definition graft (p : path) (v : option node) (fs : node) : node :=
  match v with
  | Some n' => subst p n' fs
  | None => put p None fs
  end.

(** The file system after the whole sweep. *)
Definition swept (E : env) (root_dir : path) (fs : node) : node :=
  let fs1 :=
    if denied E (Walk false root_dir) then fs
    else match node_at root_dir fs with
         | Some n => subst root_dir (sweep_files E root_dir n) fs
         | None => fs
         end in
  if denied E (Walk false root_dir) then fs1
  else match node_at root_dir fs1 with
       | Some n => graft root_dir (prune_dirs E root_dir n) fs1
       | None => fs1
       end.

(** A program runs from [fs] to [fs'] without unwinding. *)
Definition runs_to (E : env) (c : prog unit) (fs fs' : node) : Prop :=
  ∃ l, run E c fs = (inr tt, fs', l).

(** The bodies of the two loops of the sweep. *)
Definition remove_if_invalid (dirpath : path) (fname : string) : prog unit :=
  let fpath := dirpath ++ [fname] in
  if invalid_file fname
  then try_ (os_remove fpath;; print (InfoRemovedFile fpath))
         (λ e, print (WarnCouldNotRemove fpath))
  else mret ().

Definition remove_if_empty (dirpath : path) : prog unit :=
  try_ (listing ← os_listdir dirpath;
        if decide (listing = [])
        then os_rmdir dirpath;; print (InfoRemovedDir dirpath)
        else mret ())
    (λ e, print (WarnFailedRemoveDir dirpath)).

(** No call is refused. *)
Definition no_refusal (E : env) : Prop := ∀ o, denied E o = false.

(** Every regular file below [n] passes the sweep's test. *)
Definition files_valid (n : node) : Prop :=
  ∀ q x d, node_at (q ++ [x]) n = Some (File d) → invalid_file x = false.

(** No directory strictly below [n] is empty. *)
Definition dirs_nonempty (n : node) : Prop :=
  ∀ q x es, node_at (q ++ [x]) n = Some (Dir es) → es ≠ ∅.

(* ================================================================== *)
(** * The dispatch of [main], serial and pooled *)

(** What a call of [process_series] returns. *)
Definition value : Type := option (string * string * string).

(** What the loop over the results has got: the values yielded so far, in
    the order they came, the signal that ended the loop, if one did, the
    file system and the lines printed. *)
Record dispatch := Dispatch {
  yielded : list value;
  raised : option signal;
  disk : node;
  lines : list event
}.

(** [for _ in map(process_series, tasks): pass], with the values the
    loop drops: the units run one after the other in the order of the
    list, and an exception that leaves a call ends the loop. *)
Fixpoint serial_map (E : env) (tasks : list task) (fs : node) : dispatch :=
  match tasks with
  | [] => Dispatch [] None fs []
  | t :: rest =>
      let '(r, fs1, l) := run E (process_series t) fs in
      match r with
      | inl s => Dispatch [] (Some s) fs1 l
      | inr v =>
          let d := serial_map E rest fs1 in
          Dispatch (v :: yielded d) (raised d) (disk d) (l ++ lines d)
      end
  end.

(** [multiprocessing.Pool(processes=nprocs)] under
    [pool.imap_unordered(process_series, tasks)]: the tasks not handed out
    yet, and per worker process the task it runs with what is left of the
    call.  The workers share the file system.  The lines are recorded as
    the workers print them: a line printed without [flush] (that of the
    frame search) waits in the buffer of its worker and is lost when the
    pool is terminated first, which [lines] does not tell. *)
Record pool := Pool {
  queue : list task;
  slots : list (option (task * prog value));
  seen : dispatch
}.

Definition pool_start (nprocs : nat) (tasks : list task) (fs : node) : pool :=
  Pool tasks (replicate nprocs None) (Dispatch [] None fs []).

(** Worker [i] moves: an idle worker takes the next task of the queue
    (tasks are handed out one by one, in the order of the list); a worker
    inside a call performs the next operation of its call on the shared
    file system; a worker whose call has returned hands the value to the
    loop of [main]; a worker whose call raised hands over the exception,
    which the loop re-raises: the [with] block is left and the pool is
    terminated, no worker moves any more. *)
Definition pool_step (E : env) (st : pool) (i : nat) : pool :=
  let '(Pool q ws (Dispatch ys ex fs l)) := st in
  match ex with
  | Some _ => st
  | None =>
      match ws !! i with
      | None => st
      | Some None =>
          match q with
          | [] => st
          | t :: q' =>
              Pool q' (<[i := Some (t, process_series t)]> ws) (Dispatch ys None fs l)
          end
      | Some (Some (t, Ret v)) =>
          Pool q (<[i := None]> ws) (Dispatch (ys ++ [v]) None fs l)
      | Some (Some (t, Throw s)) =>
          Pool q (<[i := None]> ws) (Dispatch ys (Some s) fs l)
      | Some (Some (t, Do o k)) =>
          let '(r, fs') := exec E o fs in
          Pool q (<[i := Some (t, k r)]> ws) (Dispatch ys None fs' (l ++ printed o))
      end
  end.

(** The pool under a schedule: the workers move in the order the
    operating system lets them. *)
Definition pool_run (E : env) (schedule : list nat) (st : pool) : pool :=
  foldl (pool_step E) st schedule.

(** The iteration is over: every task was handed out and every worker
    is idle again. *)
Definition pool_done (st : pool) : bool :=
  bool_decide (queue st = []) && forallb (λ w, negb (bool_decide (is_Some w))) (slots st).

(** The sample tree after an earlier run left a regular file where the
    staging directory of [s2] belongs. *)
Definition blocked_fs : node :=
  match sample_fs with
  | Dir es =>
      Dir (<["out" := Dir {[ "ISPY2-100" := Dir {[ "01-02-2003" := Dir {[
               "s2" := File "left over" ]} ]} ]}]> es)
  | File d => File d
  end.

(* ================================================================== *)
(** * What a unit sees of the file system *)

(** Two paths that part ways: neither leads through the other. *)
Definition apart (p q : path) : Prop := ¬ p `prefix_of` q ∧ ¬ q `prefix_of` p.

(** The two files [process_series] reads. *)
Definition archive_path (t : task) : path :=
  let '(patient_folder, date_folder, series_id, input_dir, output_dir) := t in
  (input_dir ++ [patient_folder; date_folder]) ++ [series_id +:+ ".zip"].

Definition sidecar_path (t : task) : path :=
  let '(patient_folder, date_folder, series_id, input_dir, output_dir) := t in
  (input_dir ++ [patient_folder; date_folder]) ++ [series_id +:+ ".json"].

(** The calls [process_series t] makes: on its staging directory, on the
    directories above it, on what lies inside it, and reading its two
    input files. *)
Definition owns (t : task) (o : op) : Prop :=
  match o with
  | Makedirs p => p `prefix_of` staging_dir t
  | Copy2 src dst =>
      (src = archive_path t ∨ src = sidecar_path t) ∧ ∃ x, dst = staging_dir t ++ [x]
  | ExtractAll zip dest => dest = staging_dir t ∧ ∃ x, zip = staging_dir t ++ [x]
  | Remove p => ∃ q, q ≠ [] ∧ p = staging_dir t ++ q
  | Rmtree p => p = staging_dir t
  | Walk _ top => top = staging_dir t
  | ReadSeries files => Forall (λ p, staging_dir t `prefix_of` p) files
  | WriteImage _ p => ∃ x, p = staging_dir t ++ [x]
  | Print _ => True
  | Rmdir _ | Listdir _ | Isfile _ => False
  end.

(** A program all of whose calls, whatever the system answers, are calls
    of the unit [t]. *)
Inductive confined (t : task) {A} : prog A → Prop :=
| confined_Ret a : confined t (Ret a)
| confined_Throw s : confined t (Throw s)
| confined_Do o k :
    owns t o →
    (∀ E fs, confined t (k (exec E o fs).1)) →
    confined t (Do o k).

(** Two file systems the unit [t] cannot tell apart: the same staging
    directory, the same two input files, and regular files at the same
    places above the staging directory. *)
Record same_view (t : task) (fs1 fs2 : node) : Prop := SameView {
  view_staging : node_at (staging_dir t) fs1 = node_at (staging_dir t) fs2;
  view_archive : node_at (archive_path t) fs1 = node_at (archive_path t) fs2;
  view_sidecar : node_at (sidecar_path t) fs1 = node_at (sidecar_path t) fs2;
  view_above : ∀ q, q `prefix_of` staging_dir t → file_at q fs1 ↔ file_at q fs2
}.

(** Agreement of two results for the unit [t]: the same answer, and file
    systems it cannot tell apart. *)
Definition agree (t : task) {R} (a b : R * node) : Prop :=
  a.1 = b.1 ∧ same_view t a.2 b.2.

(** The input files of [t] are out of the way of the unit [t']. *)
Definition inputs_clear (t t' : task) : Prop :=
  apart (archive_path t) (staging_dir t') ∧ apart (sidecar_path t) (staging_dir t').

(** Units that work in different places. *)
Definition separate (t t' : task) : Prop :=
  apart (staging_dir t) (staging_dir t') ∧ inputs_clear t t'.

(** What a call of the unit [t] may do to the file system: nothing,
    replace its staging directory, unlink it, or create directories on
    the way to it. *)
Definition touches (t : task) (fs fs' : node) : Prop :=
  fs' = fs
  ∨ (∃ n', is_Some (node_at (staging_dir t) fs) ∧ fs' = subst (staging_dir t) n' fs)
  ∨ (staging_dir t ≠ [] ∧ dir_at (staging_dir t) fs ∧ fs' = put (staging_dir t) None fs)
  ∨ (∃ p, p `prefix_of` staging_dir t ∧ mkdirs p fs = Some fs').

(** What a call that is under way will still return and print. *)
Definition future {A} (E : env) (c : prog A) (fs : node) : (signal + A) * list event :=
  ((run E c fs).1.1, (run E c fs).2).

(** The tasks [main] builds share the two roots. *)
Definition rooted (input_dir output_dir : path) (t : task) : Prop :=
  t.1.2 = input_dir ∧ t.2 = output_dir.

(** A unit processed alone: what [process_series] returns and prints. *)
Definition alone (E : env) (fs : node) (t : task) : (signal + value) * list event :=
  future E (process_series t) fs.

(** The value of a call that returned. *)
Definition returned (r : signal + value) : option value :=
  match r with inr v => Some v | inl _ => None end.

(** The calls of a pool that are not over: those under way and those of
    the tasks still in the queue. *)
Definition live (st : pool) : list (task * prog value) :=
  omap id (slots st) ++ ((λ t, (t, process_series t)) <$> queue st).

(** What the calls that are not over will still return and print, each
    continued alone on the file system [fs]. *)
Definition pending (E : env) (fs : node) (lv : list (task * prog value))
  : list ((signal + value) * list event) :=
  (λ tc, future E tc.2 fs) <$> lv.

(** The calls [lv] that are not over keep to their units, which work in
    different places under the two roots; with the values [ys] yielded and
    the lines [l] printed so far they make up [R] and [L], what the units
    return and print when each is processed alone. *)
Record units_inv (E : env) (input_dir output_dir : path)
    (R : list (signal + value)) (L : list event)
    (ys : list value) (fs : node) (l : list event)
    (lv : list (task * prog value)) : Prop := UnitsInv {
  inv_confined : Forall (λ tc, confined tc.1 tc.2) lv;
  inv_rooted : Forall (λ tc, rooted input_dir output_dir tc.1) lv;
  inv_nodup : NoDup lv.*1;
  inv_results : (inr <$> ys) ++ (pending E fs lv).*1 ≡ₚ R;
  inv_lines : l ++ mjoin (pending E fs lv).*2 ≡ₚ L
}.

(** What every state of a pool run satisfies when each unit, processed
    alone, returns. *)
Definition pool_inv (E : env) (input_dir output_dir : path)
    (R : list (signal + value)) (L : list event) (st : pool) : Prop :=
  raised (seen st) = None
  ∧ units_inv E input_dir output_dir R L
      (yielded (seen st)) (disk (seen st)) (lines (seen st)) (live st).

(* ================================================================== *)
(** * [main] before the dispatch: the scan of the input tree *)

(** The lines [main] prints on its own, and those of the functions it
    calls. *)
Inductive scan_line :=
| Scanning (input_dir : path)
| SkippingPatient (patient_folder : string)
| FoundPatient (patient_folder : string)
| SkippingDate (date_folder : string)
| FoundPairs (n : nat)
| Called (e : event).

(** What [main] needs of the world besides [env]: on which paths the
    [stat] behind [os.path.isdir] fails (the answer is [False] then),
    which names [datetime.strptime(_, "%m-%d-%Y")] accepts, and which of
    the lines of [main] cannot be printed, with the exception [print]
    raises then (the stream is closed or full, the folder name in the
    line cannot be encoded). *)
Record scan_env := ScanEnv {
  calls : env;
  stat_fails : path → bool;
  strptime_ok : string → bool;
  say_raises : scan_line → option exn
}.

(** The statements of [main]: from a file system to a value or the
    signal that unwinds, the file system left and the lines printed. *)
Definition scan (A : Type) : Type := node → (signal + A) * node * list scan_line.

Definition scan_ret {A} (a : A) : scan A := λ fs, (inr a, fs, []).

Definition scan_bind {A B} (c : scan A) (f : A → scan B) : scan B :=
  λ fs,
    match c fs with
    | (inr a, fs1, l1) => let '(r, fs2, l2) := f a fs1 in (r, fs2, l1 ++ l2)
    | (inl s, fs1, l1) => (inl s, fs1, l1)
    end.

#[global] Instance scan_mret : MRet scan := @scan_ret.
#[global] Instance scan_mbind : MBind scan := λ A B f c, scan_bind c f.

(** A [print] of [main]: none of them is inside a [try], an exception
    of [print] leaves [main]. *)
Definition say (W : scan_env) (ln : scan_line) : scan unit :=
  λ fs,
    match say_raises W ln with
    | Some e => (inl (Exc e), fs, [])
    | None => (inr tt, fs, [ln])
    end.

(** Every line of [main] can be printed. *)
Definition stdout_sound (W : scan_env) : Prop := ∀ ln, say_raises W ln = None.

(** A call of one of the functions of the script. *)
Definition in_prog {A} (W : scan_env) (c : prog A) : scan A :=
  λ fs, let '(r, fs1, l) := run (calls W) c fs in (r, fs1, Called <$> l).

(** [os.path.isdir(p)] *)
Definition isdir_answer (W : scan_env) (fs : node) (p : path) : bool :=
  negb (stat_fails W p)
  && match node_at p fs with Some (Dir _) => true | _ => false end.

Definition os_path_isdir (W : scan_env) (p : path) : scan bool :=
  λ fs, (inr (isdir_answer W fs p), fs, []).

(** [[d for d in names if os.path.isdir(os.path.join(p, d))]] *)
Fixpoint keep_dirs (W : scan_env) (p : path) (names : list string) : scan (list string) :=
  match names with
  | [] => mret []
  | d :: rest =>
      b ← os_path_isdir W (p ++ [d]);
      ds ← keep_dirs W p rest;
      mret (if b : bool then d :: ds else ds)
  end.

(** [[d for d in os.listdir(p) if os.path.isdir(os.path.join(p, d))]] *)
Definition subdirs (W : scan_env) (p : path) : scan (list string) :=
  names ← in_prog W (os_listdir p);
  keep_dirs W p names.

(** A [for] loop that appends to the list [tasks]. *)
Fixpoint each {X S} (l : list X) (s : S) (body : S → X → scan S) : scan S :=
  match l with
  | [] => mret s
  | x :: l' => s' ← body s x; each l' s' body
  end.

(** [patient_folder.startswith("ACRIN-6698") or
    patient_folder.startswith("ISPY2")] *)
Definition recognized (patient_folder : string) : bool :=
  startswith patient_folder "ACRIN-6698" || startswith patient_folder "ISPY2".

(** The body of the loop over the date folders of a patient. *)
Definition scan_date (W : scan_env) (patient_folder : string)
    (input_dir output_dir : path) (tasks : list task) (date_folder : string)
  : scan (list task) :=
  if strptime_ok W date_folder
  then found ← in_prog W (date_tasks patient_folder date_folder input_dir output_dir);
       mret (tasks ++ found)
  else say W (SkippingDate date_folder);; mret tasks.

(** The body of the loop over the patient folders. *)
Definition scan_patient (W : scan_env) (input_dir output_dir : path)
    (tasks : list task) (patient_folder : string) : scan (list task) :=
  if negb (recognized patient_folder)
  then say W (SkippingPatient patient_folder);; mret tasks
  else say W (FoundPatient patient_folder);;
       date_folders ← subdirs W (input_dir ++ [patient_folder]);
       each date_folders tasks (scan_date W patient_folder input_dir output_dir).

(** [main] up to the list of tasks. *)
Definition scan_input (W : scan_env) (input_dir output_dir : path) : scan (list task) :=
  say W (Scanning input_dir);;
  patients ← subdirs W input_dir;
  tasks ← each patients [] (scan_patient W input_dir output_dir);
  say W (FoundPairs (length tasks));;
  mret tasks.

(** [main] with [nprocs <= 1]. *)
Definition main_serial (W : scan_env) (input_dir output_dir : path) : scan unit :=
  tasks ← scan_input W input_dir output_dir;
  in_prog W (organize_and_clean tasks output_dir).

(** What [os.listdir(p)] returns, nothing when it raises. *)
Definition listing_of (W : scan_env) (fs : node) (p : path) : list string :=
  match (exec (calls W) (Listdir p) fs).1 with inr names => names | inl _ => [] end.

(** The sub-directories the scan finds in [p]. *)
Definition subdirs_of (W : scan_env) (fs : node) (p : path) : list string :=
  filter (λ d, isdir_answer W fs (p ++ [d]) = true) (listing_of W fs p).

(** The unit ids [filter_series] finds in a date folder. *)
Definition series_of (W : scan_env) (fs : node) (date_path : path) : gset string :=
  archive_stems (calls W) fs date_path (listing_of W fs date_path)
  ∩ sidecar_stems (calls W) fs date_path (listing_of W fs date_path).

(** The tasks of a date folder, of a patient folder and of the input
    tree, as the loops append them. *)
Definition tasks_of_date (W : scan_env) (fs : node) (input_dir output_dir : path)
    (patient_folder date_folder : string) : list task :=
  if strptime_ok W date_folder
  then (λ sid, (patient_folder, date_folder, sid, input_dir, output_dir))
         <$> elements (series_of W fs ((input_dir ++ [patient_folder]) ++ [date_folder]))
  else [].

Definition tasks_of_patient (W : scan_env) (fs : node) (input_dir output_dir : path)
    (patient_folder : string) : list task :=
  if recognized patient_folder
  then subdirs_of W fs (input_dir ++ [patient_folder])
         ≫= tasks_of_date W fs input_dir output_dir patient_folder
  else [].

Definition tasks_of_input (W : scan_env) (fs : node) (input_dir output_dir : path)
  : list task :=
  subdirs_of W fs input_dir ≫= tasks_of_patient W fs input_dir output_dir.

(** The folders the scan has to list: the input root, the recognized
    patient folders and their date folders with a valid name. *)
Definition scanned (W : scan_env) (fs : node) (input_dir : path) (p : path) : Prop :=
  p = input_dir
  ∨ (∃ pf, p = input_dir ++ [pf]
       ∧ pf ∈ subdirs_of W fs input_dir ∧ recognized pf = true)
  ∨ (∃ pf df, p = (input_dir ++ [pf]) ++ [df]
       ∧ pf ∈ subdirs_of W fs input_dir ∧ recognized pf = true
       ∧ df ∈ subdirs_of W fs (input_dir ++ [pf]) ∧ strptime_ok W df = true).

(** [os.listdir(p)] does not raise. *)
Definition listable (W : scan_env) (fs : node) (p : path) : Prop :=
  is_Some (match (exec (calls W) (Listdir p) fs).1 with
           | inr names => Some names
           | inl _ => None
           end).

(** A statement that leaves the file system as it is, and what holds
    when it runs through ([Good]) or unwinds ([Bad]). *)
Definition yields {A} (c : scan A) (fs : node) (Good : A → Prop) (Bad : Prop) : Prop :=
  (c fs).1.2 = fs
  ∧ match (c fs).1.1 with inr a => Good a | inl _ => Bad end.

(** What the scan needs of a date folder and of a patient folder to get
    past it. *)
Definition date_ok (W : scan_env) (fs : node) (patient_path : path)
    (date_folder : string) : Prop :=
  strptime_ok W date_folder = true → listable W fs (patient_path ++ [date_folder]).

Definition patient_ok (W : scan_env) (fs : node) (input_dir : path)
    (patient_folder : string) : Prop :=
  recognized patient_folder = true →
  listable W fs (input_dir ++ [patient_folder])
  ∧ Forall (date_ok W fs (input_dir ++ [patient_folder]))
      (subdirs_of W fs (input_dir ++ [patient_folder])).

(** The tasks a scan returned, if it ran through. *)
Definition returned_tasks (out : (signal + list task) * node * list scan_line)
  : option (list task) :=
  match out.1.1 with inr tasks => Some tasks | inl _ => None end.

(** An input tree for the scan: next to the patient folder of the sample
    tree, with a date folder of an invalid name and a stray file in it,
    a folder of an unrecognized name and a stray file in the root. *)
Definition scan_fs : node :=
  match sample_fs with
  | Dir top =>
      Dir (alter (λ input,
             match input with
             | Dir patients =>
                 Dir (<["OTHER-7" := Dir {[ "01-02-2003" := Dir ∅ ]}]>
                      (<["index.txt" := File "idx"]>
                       (alter (λ patient,
                          match patient with
                          | Dir dates =>
                              Dir (<["2003-01-02" := Dir ∅]>
                                   (<["01-02-2003.txt" := File "n"]> dates))
                          | File d => File d
                          end) "ISPY2-100" patients)))
             | File d => File d
             end) "in" top)
  | File d => File d
  end.

(** A world in which [stat] never fails, [strptime] accepts two names
    and every line can be printed. *)
Definition sample_world (E : env) : scan_env :=
  ScanEnv E (λ _, false)
    (λ d, bool_decide (d = "01-02-2003") || bool_decide (d = "12-31-1999"))
    (λ _, None).

(** The same world with a standard output that cannot take the name of
    a folder [main] skips. *)
Definition narrow_stdout (ln : scan_line) : option exn :=
  match ln with
  | SkippingPatient _ | SkippingDate _ => Some OSError
  | _ => None
  end.

Definition narrow_world (E : env) : scan_env :=
  ScanEnv E (stat_fails (sample_world E)) (strptime_ok (sample_world E)) narrow_stdout.

(** The system refuses to list the patient folder. *)
Definition patient_unreadable (o : op) : bool :=
  match o with
  | Listdir p => bool_decide (p = ["in"; "ISPY2-100"])
  | _ => false
  end.

(** A call that returned. *)
Definition returns {A} (out : (signal + A) * node * list event) : Prop :=
  ∃ v, out.1.1 = inr v.

(* ================================================================== *)
(** * Samples for the abort of a unit *)

(** The system refuses every [os.remove]. *)
Definition removal_refused (o : op) : bool :=
  match o with Remove _ => true | _ => false end.

(** The sample tree with a directory where the archive copy of [s1]
    goes. *)
Definition occupied_fs : node :=
  match sample_fs with
  | Dir es =>
      Dir (<["out" := Dir {[ "ISPY2-100" := Dir {[ "01-02-2003" := Dir {[
               "s1" := Dir {[ "s1.zip" := Dir ∅ ]} ]} ]} ]}]> es)
  | File d => File d
  end.

(* ================================================================== *)
(** * The calls [exec] takes to succeed *)

(** [exec] lets [print], [os.walk] and [shutil.rmtree(_, ignore_errors=True)]
    succeed whatever happens.  The three can raise all the same: [print]
    when the stream is closed or full or the text cannot be encoded, the
    two traversals when the tree is deeper than the recursion limit of
    the interpreter allows ([RecursionError], a [RuntimeError], which
    [ignore_errors] does not cover).  [faults] says which of these calls
    raise and what they raise; an interrupted [rmtree] has removed part
    of the tree, [rmtree_raises] gives the file system it leaves.  An
    [os.walk] that raises is taken to raise at the call: in the sweep,
    whose loops remove entries while the traversal is under way, the
    bodies that ran before are not told. *)
Record faults := Faults {
  print_raises : event → option exn;
  walk_raises : bool → path → node → option exn;
  rmtree_raises : path → node → option (exn * node)
}.

Definition exec_strict (E : env) (F : faults) (o : op) (fs : node)
  : (exn + res o) * node :=
  match o return (exn + res o) * node with
  | Print e =>
      match print_raises F e with
      | Some x => (inl x, fs)
      | None => exec E (Print e) fs
      end
  | Walk topdown top =>
      match walk_raises F topdown top fs with
      | Some x => (inl x, fs)
      | None => exec E (Walk topdown top) fs
      end
  | Rmtree p =>
      match rmtree_raises F p fs with
      | Some (x, fs') => (inl x, fs')
      | None => exec E (Rmtree p) fs
      end
  | Makedirs p => exec E (Makedirs p) fs
  | Copy2 src dst => exec E (Copy2 src dst) fs
  | ExtractAll zip dest => exec E (ExtractAll zip dest) fs
  | Remove p => exec E (Remove p) fs
  | Rmdir p => exec E (Rmdir p) fs
  | Listdir p => exec E (Listdir p) fs
  | Isfile p => exec E (Isfile p) fs
  | ReadSeries files => exec E (ReadSeries files) fs
  | WriteImage img p => exec E (WriteImage img p) fs
  end.

(** What a call put on the terminal: a [print] that raised, nothing. *)
Definition printed_by (o : op) (r : exn + res o) : list event :=
  match r with inl _ => [] | inr _ => printed o end.

(** Running a program with these calls able to raise.  The programs are
    the same: a [call] outside a [try] lets the exception unwind, one
    inside a [try] hands it to the handler. *)
Fixpoint run_strict {A} (E : env) (F : faults) (c : prog A) (fs : node)
  : (signal + A) * node * list event :=
  match c with
  | Ret a => (inr a, fs, [])
  | Throw s => (inl s, fs, [])
  | Do o k =>
      let '(r, fs1) := exec_strict E F o fs in
      let '(v, fs2, l) := run_strict E F (k r) fs1 in
      (v, fs2, printed_by o r ++ l)
  end.

(** None of the three calls raises. *)
Definition quiet (F : faults) : Prop :=
  (∀ e, print_raises F e = None)
  ∧ (∀ topdown top fs, walk_raises F topdown top fs = None)
  ∧ (∀ p fs, rmtree_raises F p fs = None).

Definition no_faults : faults := Faults (λ _, None) (λ _ _ _, None) (λ _ _, None).

(** The standard output is full: every [print] raises. *)
Definition stdout_full : faults := Faults (λ _, Some OSError) (λ _ _ _, None) (λ _ _, None).

(** Every tree the script traverses is deeper than the recursion limit
    allows: a traversal raises before it has removed anything. *)
Definition trees_too_deep : faults :=
  Faults (λ _, None) (λ _ _ _, Some RuntimeError) (λ _ fs, Some (RuntimeError, fs)).

(* ================================================================== *)
(** * Facts about the string functions *)

Section string_facts.

Lemma str_app_nil_l (s : string) : "" +:+ s = s.
Proof. reflexivity. Qed.

Lemma str_app_cons a (t s : string) : String a t +:+ s = String a (t +:+ s).
Proof. reflexivity. Qed.

Lemma str_app_assoc (s1 s2 s3 : string) : (s1 +:+ s2) +:+ s3 = s1 +:+ (s2 +:+ s3).
Proof. induction s1 as [|a t IH]; [done|]. rewrite !str_app_cons. by rewrite IH. Qed.

Lemma rfind_lower_bound c s : (-1 ≤ rfind c s)%Z.
Proof. induction s as [|a t IH]; simpl; [lia|]. repeat case_match; lia. Qed.

Lemma rfind_upper_bound c s : (rfind c s < Z.of_nat (String.length s))%Z.
Proof.
  induction s as [|a t IH]; simpl; [lia|].
  pose proof (rfind_lower_bound c t). repeat case_match; lia.
Qed.

Lemma rfind_app c s1 s2 :
  (0 ≤ rfind c s2)%Z →
  rfind c (s1 +:+ s2) = (Z.of_nat (String.length s1) + rfind c s2)%Z.
Proof.
  intros H. induction s1 as [|a t IH]; [rewrite str_app_nil_l; simpl; lia|].
  rewrite str_app_cons. simpl. rewrite IH.
  destruct (Z.leb_spec 0 (Z.of_nat (String.length t) + rfind c s2)); lia.
Qed.

Lemma rfind_app_absent c s1 s2 :
  rfind c s2 = (-1)%Z → rfind c (s1 +:+ s2) = rfind c s1.
Proof.
  intros H. induction s1 as [|a t IH]; [done|].
  rewrite str_app_cons. simpl. by rewrite IH.
Qed.

Lemma str_length_app s1 s2 :
  String.length (s1 +:+ s2) = String.length s1 + String.length s2.
Proof. induction s1 as [|a t IH]; [done|]. rewrite str_app_cons. simpl. by rewrite IH. Qed.

Lemma substring_app_drop s1 s2 m :
  String.substring (String.length s1) m (s1 +:+ s2) = String.substring 0 m s2.
Proof. induction s1 as [|a t IH]; [done|]. rewrite str_app_cons. simpl. apply IH. Qed.

Lemma has_non_dot_substring_app s1 s2 n m :
  has_non_dot (String.substring 0 m s2) = true →
  n ≤ String.length s1 →
  has_non_dot (String.substring n (String.length s1 - n + m) (s1 +:+ s2)) = true.
Proof.
  revert n. induction s1 as [|a t IH]; intros n Hs Hn.
  - simpl in Hn. assert (n = 0) as -> by lia. done.
  - rewrite str_app_cons. destruct n as [|n].
    + specialize (IH 0 Hs ltac:(lia)). rewrite Nat.sub_0_r in IH.
      simpl. rewrite IH. apply orb_true_r.
    + simpl in *. apply IH; [done|lia].
Qed.

(** The extension [splitext] finds in [<name>.nii.gz] is [.gz]. *)
Lemma splitext_nii_gz sid : (splitext (sid +:+ ".nii.gz")).2 = ".gz".
Proof.
  unfold splitext.
  rewrite (rfind_app "."%char sid ".nii.gz") by (vm_compute; discriminate).
  change (rfind "." ".nii.gz") with 4%Z.
  assert (rfind "/" (sid +:+ ".nii.gz") < Z.of_nat (String.length sid))%Z as Hsep.
  { rewrite rfind_app_absent by reflexivity. apply rfind_upper_bound. }
  pose proof (rfind_lower_bound "/"%char (sid +:+ ".nii.gz")) as Hlo.
  destruct (Z.ltb_spec (rfind "/" (sid +:+ ".nii.gz")) (Z.of_nat (String.length sid) + 4)); [|lia].
  set (sep := rfind "/" (sid +:+ ".nii.gz")) in *.
  assert (has_non_dot (slice (sep + 1) (Z.of_nat (String.length sid) + 4) (sid +:+ ".nii.gz")) = true) as ->.
  { unfold slice.
    replace (Z.to_nat (Z.of_nat (String.length sid) + 4 - (sep + 1)))
      with (String.length sid - Z.to_nat (sep + 1) + 4) by lia.
    apply has_non_dot_substring_app; [reflexivity|lia]. }
  simpl. unfold slice.
  replace (Z.to_nat (Z.of_nat (String.length sid) + 4)) with (String.length sid + 4) by lia.
  rewrite str_length_app. simpl.
  replace (Z.to_nat _) with 3 by lia.
  replace (String.length sid + 4) with (String.length (sid +:+ ".nii")).
  2:{ rewrite str_length_app. done. }
  replace (sid +:+ ".nii.gz") with ((sid +:+ ".nii") +:+ ".gz") by apply str_app_assoc.
  by rewrite substring_app_drop.
Qed.

Lemma lower_app s1 s2 : lower (s1 +:+ s2) = lower s1 +:+ lower s2.
Proof. induction s1 as [|a t IH]; [done|]. rewrite str_app_cons. simpl. by rewrite IH, str_app_cons. Qed.

Lemma eqb_length s1 s2 : String.eqb s1 s2 = true → String.length s1 = String.length s2.
Proof. by intros ->%String.eqb_eq. Qed.

Lemma endswith_cons a t suf :
  endswith (String a t) suf =
    if String.eqb (String a t) suf then true else endswith t suf.
Proof. reflexivity. Qed.

Lemma endswith_app_short s1 s2 suf :
  String.length suf ≤ String.length s2 →
  endswith (s1 +:+ s2) suf = endswith s2 suf.
Proof.
  intros Hlen. induction s1 as [|a t IH]; [done|].
  rewrite str_app_cons, endswith_cons, IH.
  destruct (String.eqb (String a (t +:+ s2)) suf) eqn:Heq; [|done].
  apply eqb_length in Heq. simpl in Heq. rewrite str_length_app in Heq. lia.
Qed.

(** Hence the sweep's test condemns every converted volume. *)
Lemma invalid_file_nii_gz sid : invalid_file (sid +:+ ".nii.gz") = true.
Proof.
  unfold invalid_file. rewrite splitext_nii_gz.
  apply andb_true_iff. split.
  - apply negb_true_iff, bool_decide_eq_false. vm_compute. set_solver.
  - apply negb_true_iff, bool_decide_eq_false.
    unfold VALID_FILENAMES. rewrite elem_of_singleton. intros H.
    apply (f_equal (λ s, endswith s ".gz")) in H.
    by rewrite endswith_app_short in H by (simpl; lia).
Qed.

End string_facts.

(* ================================================================== *)
(** * Facts about trees and paths *)

Section tree_facts.

Lemma node_size_child es x c : es !! x = Some c → node_size c < node_size (Dir es).
Proof.
  intros Hx. simpl.
  rewrite (map_fold_delete_L _ _ x c es); [lia| |done].
  intros. lia.
Qed.

Lemma node_ind' (P : node → Prop) :
  (∀ d, P (File d)) →
  (∀ es, (∀ x c, es !! x = Some c → P c) → P (Dir es)) →
  ∀ n, P n.
Proof.
  intros Hf Hd n. remember (node_size n) as k eqn:Hk. revert n Hk.
  induction k as [k IH] using lt_wf_ind. intros [d|es] ->; [done|].
  apply Hd. intros x c Hx. eapply IH; [|done]. by eapply node_size_child.
Qed.

Lemma walk_Dir td p es :
  walk td p (Dir es) =
    let here := (p, dirnames es, filenames es) in
    let below := mjoin ((λ xc, walk td (p ++ [xc.1]) xc.2) <$> map_to_list es) in
    if td then here :: below else below ++ [here].
Proof.
  simpl. rewrite map_fold_foldr.
  assert (foldr (uncurry (λ x c acc, walk td (p ++ [x]) c ++ acc)) [] (map_to_list es)
          = mjoin ((λ xc, walk td (p ++ [xc.1]) xc.2) <$> map_to_list es)) as ->; [|done].
  induction (map_to_list es) as [|[x c] l IH]; simpl; [done|]. by rewrite IH.
Qed.

Lemma node_at_app p q n : node_at (p ++ q) n = node_at p n ≫= node_at q.
Proof.
  revert n. induction p as [|x p IH]; intros n; simpl; [done|].
  destruct n as [d|es]; [done|]. destruct (es !! x); [apply IH|done].
Qed.

Lemma node_at_snoc p x n :
  node_at (p ++ [x]) n =
    match node_at p n with Some (Dir es) => es !! x | _ => None end.
Proof.
  rewrite node_at_app. destruct (node_at p n) as [[d|es]|]; simpl; [done| |done].
  by destruct (es !! x).
Qed.

Lemma node_at_File_inv p d : is_Some (node_at p (File d)) → p = [].
Proof. destruct p; [done|]. simpl. by intros [??]. Qed.

Lemma subst_absent p n' fs : node_at p fs = None → subst p n' fs = fs.
Proof.
  revert fs. induction p as [|x p IH]; intros fs; simpl; [done|].
  destruct fs as [d|es]; [done|]. intros H. f_equal.
  apply map_eq. intros y. rewrite lookup_alter.
  case_decide as Hy; [|done]. subst y.
  destruct (es !! x) as [c|] eqn:Hx; simpl; [|done]. f_equal. by apply IH.
Qed.

Lemma subst_id p n fs : node_at p fs = Some n → subst p n fs = fs.
Proof.
  revert fs. induction p as [|x p IH]; intros fs; simpl; [congruence|].
  destruct fs as [d|es]; [done|]. destruct (es !! x) as [c|] eqn:Hx; [|done].
  intros H. f_equal. apply map_eq. intros y. rewrite lookup_alter.
  case_decide as Hy; [|done]. subst y. rewrite Hx. simpl. f_equal. by apply IH.
Qed.

Lemma subst_subst p n1 n2 fs : subst p n2 (subst p n1 fs) = subst p n2 fs.
Proof.
  revert fs. induction p as [|x p IH]; intros fs; simpl; [done|].
  destruct fs as [d|es]; [done|]. f_equal. apply map_eq. intros y.
  destruct (decide (x = y)) as [->|Hxy].
  - rewrite !lookup_alter_eq. destruct (es !! y); simpl; [|done]. by rewrite IH.
  - by rewrite !lookup_alter_ne.
Qed.

Lemma subst_app p q n n' fs :
  node_at p fs = Some n → subst (p ++ q) n' fs = subst p (subst q n' n) fs.
Proof.
  revert fs. induction p as [|x p IH]; intros fs; simpl; [congruence|].
  destruct fs as [d|es]; [done|]. destruct (es !! x) as [c|] eqn:Hx; [|done].
  intros H. f_equal. apply map_eq. intros y. rewrite !lookup_alter.
  case_decide as Hy; [|done]. subst y. rewrite Hx. simpl. f_equal. by apply IH.
Qed.

Lemma node_at_subst_under p r n' fs :
  is_Some (node_at p fs) → node_at (p ++ r) (subst p n' fs) = node_at r n'.
Proof.
  revert fs. induction p as [|x p IH]; intros fs; simpl; [done|].
  destruct fs as [d|es]; [by intros [??]|].
  rewrite lookup_alter_eq. destruct (es !! x) as [c|]; simpl; [apply IH|by intros [??]].
Qed.

Lemma node_at_subst_eq p n' fs :
  is_Some (node_at p fs) → node_at p (subst p n' fs) = Some n'.
Proof.
  intros H. rewrite <-(app_nil_r p) at 1. by rewrite node_at_subst_under.
Qed.

Lemma node_at_subst_diverge c x y p q n' fs :
  x ≠ y →
  node_at (c ++ y :: q) (subst (c ++ x :: p) n' fs) = node_at (c ++ y :: q) fs.
Proof.
  intros Hxy. revert fs. induction c as [|z c IH]; intros fs; simpl.
  - destruct fs as [d|es]; [done|]. by rewrite lookup_alter_ne.
  - destruct fs as [d|es]; [done|]. rewrite lookup_alter_eq.
    destruct (es !! z); simpl; [apply IH|done].
Qed.

Lemma node_at_subst_above q r n' fs :
  r ≠ [] → is_Some (node_at (q ++ r) fs) → dir_at q (subst (q ++ r) n' fs).
Proof.
  intros Hr. revert fs. induction q as [|x q IH]; intros fs; simpl.
  - destruct r as [|y r]; [done|]. simpl. destruct fs as [d|es]; [by intros [??]|].
    intros _. by eexists.
  - destruct fs as [d|es]; [by intros [??]|].
    destruct (es !! x) as [c|] eqn:Hx; [|by intros [??]].
    intros H. destruct (IH c H) as [es' Hes']. exists es'. unfold dir_at in *. simpl.
    by rewrite lookup_alter_eq, Hx.
Qed.

(** Two paths are comparable or part at some component. *)
Lemma path_cases (p q : path) :
  p `prefix_of` q ∨ q `prefix_of` p ∨
  ∃ c x y p' q', x ≠ y ∧ p = c ++ x :: p' ∧ q = c ++ y :: q'.
Proof.
  revert q. induction p as [|x p IH]; intros q.
  - left. apply prefix_nil.
  - destruct q as [|y q]; [right; left; apply prefix_nil|].
    destruct (decide (x = y)) as [->|Hxy].
    + destruct (IH q) as [H|[H|(c & a & b & p' & q' & Hab & -> & ->)]].
      * left. by apply prefix_cons.
      * right; left. by apply prefix_cons.
      * right; right. by exists (y :: c), a, b, p', q'.
    + right; right. by exists [], x, y, p, q.
Qed.

Lemma node_at_prefix_Some p q fs :
  p `prefix_of` q → is_Some (node_at q fs) → is_Some (node_at p fs).
Proof.
  intros [r ->]. rewrite node_at_app. destruct (node_at p fs); [done|by intros [??]].
Qed.

Lemma node_at_below_file p r d fs :
  node_at p fs = Some (File d) → is_Some (node_at (p ++ r) fs) → r = [].
Proof.
  intros Hp. rewrite node_at_app, Hp. simpl. apply node_at_File_inv.
Qed.

Lemma elem_of_filenames es x :
  x ∈ filenames es ↔ ∃ d, es !! x = Some (File d).
Proof.
  unfold filenames, names_where. rewrite list_elem_of_fmap. split.
  - intros ([y c] & -> & Hin). apply list_elem_of_filter in Hin as [Hf Hin].
    apply elem_of_map_to_list in Hin. destruct c; [by eexists|done].
  - intros [d Hd]. exists (x, File d). split; [done|].
    apply list_elem_of_filter. split; [done|]. by apply elem_of_map_to_list.
Qed.

Lemma elem_of_dirnames es x :
  x ∈ dirnames es ↔ ∃ es', es !! x = Some (Dir es').
Proof.
  unfold dirnames, names_where. rewrite list_elem_of_fmap. split.
  - intros ([y c] & -> & Hin). apply list_elem_of_filter in Hin as [Hf Hin].
    apply elem_of_map_to_list in Hin. destruct c; [done|by eexists].
  - intros [d Hd]. exists (x, Dir d). split; [done|].
    apply list_elem_of_filter. split; [done|]. by apply elem_of_map_to_list.
Qed.

(** Every directory below the top of a walk has its triple. *)
Lemma walk_complete td top n q es :
  node_at q n = Some (Dir es) →
  (top ++ q, dirnames es, filenames es) ∈ walk td top n.
Proof.
  revert top n. induction q as [|y q IH]; intros top n.
  - simpl. intros [= ->]. rewrite app_nil_r, walk_Dir. cbv zeta.
    destruct td; set_solver.
  - destruct n as [d|es0]; [done|]. intros Hq. simpl in Hq.
    destruct (es0 !! y) as [c|] eqn:Hy; [|done].
    specialize (IH (top ++ [y]) c Hq). rewrite <-(assoc_L (++)) in IH. simpl in IH.
    rewrite walk_Dir. cbv zeta.
    assert ((top ++ y :: q, dirnames es, filenames es)
            ∈ mjoin ((λ xc, walk td (top ++ [xc.1]) xc.2) <$> map_to_list es0)) as Hin.
    { apply list_elem_of_join. exists (walk td (top ++ [y]) c). split; [done|].
      apply list_elem_of_fmap. exists (y, c). split; [done|].
      by apply elem_of_map_to_list. }
    destruct td; set_solver.
Qed.

End tree_facts.

Section update_facts.

Lemma path_snoc_inv (p : path) : p ≠ [] → ∃ P x, p = P ++ [x].
Proof. destruct p as [|y p] using rev_ind; [done|]. intros _. by exists p, y. Qed.

Lemma parent_snoc (P : path) x : parent (P ++ [x]) = P.
Proof.
  unfold parent. rewrite length_app. simpl.
  replace (length P + 1 - 1) with (length P) by lia. by rewrite take_app_length.
Qed.

Lemma basename_snoc (P : path) x : basename (P ++ [x]) = x.
Proof. unfold basename. by rewrite last_snoc. Qed.

Lemma node_at_snoc_Some P x n fs :
  node_at (P ++ [x]) fs = Some n →
  ∃ es, node_at P fs = Some (Dir es) ∧ es !! x = Some n.
Proof.
  rewrite node_at_snoc. destruct (node_at P fs) as [[d|es]|]; [done| |done]. eauto.
Qed.

Lemma put_cons y q v es :
  q ≠ [] → put (y :: q) v (Dir es) = Dir (alter (put q v) y es).
Proof. by destruct q. Qed.

Lemma put_snoc P x v es fs :
  node_at P fs = Some (Dir es) →
  put (P ++ [x]) v fs = subst P (Dir (partial_alter (λ _, v) x es)) fs.
Proof.
  revert fs. induction P as [|y P IH]; intros fs.
  - simpl. intros [= ->]. done.
  - destruct fs as [d|es0]; [done|]. simpl node_at.
    destruct (es0 !! y) as [c|] eqn:Hy; [|done].
    intros H. rewrite <-app_comm_cons, put_cons by (by destruct P). simpl.
    f_equal. apply map_eq. intros k. rewrite !lookup_alter.
    case_decide; [|done]. rewrite Hy. simpl. f_equal. by apply IH.
Qed.

(** What a look-up sees after the entry [x] of the directory at [P] was
    replaced or unlinked. *)
Lemma node_at_put_cases P x v es fs q :
  node_at P fs = Some (Dir es) →
  (∃ r, q = P ++ x :: r ∧ node_at q (put (P ++ [x]) v fs) = v ≫= node_at r)
  ∨ (q `prefix_of` P ∧ dir_at q fs ∧ dir_at q (put (P ++ [x]) v fs))
  ∨ node_at q (put (P ++ [x]) v fs) = node_at q fs.
Proof.
  intros HP. rewrite (put_snoc _ _ _ _ _ HP).
  destruct (path_cases P q) as [[r ->]|[[r ->]|(c & a & b & p' & q' & Hab & -> & ->)]].
  - rewrite node_at_subst_under by (by rewrite HP).
    destruct r as [|y r].
    + right; left. rewrite app_nil_r. split; [done|]. split; [by eexists|].
      unfold dir_at. rewrite node_at_subst_eq by (by rewrite HP). by eexists.
    + destruct (decide (y = x)) as [->|Hy].
      * left. exists r. split; [done|]. simpl. rewrite lookup_partial_alter_eq.
        by destruct v.
      * right; right. rewrite node_at_app, HP. simpl.
        by rewrite lookup_partial_alter_ne.
  - destruct r as [|y r].
    + rewrite app_nil_r in *. right; left. split; [done|]. split; [by eexists|].
      unfold dir_at. rewrite node_at_subst_eq by (by rewrite HP). by eexists.
    + right; left. split; [by eexists|]. split.
      * assert (is_Some (node_at q fs)) as [n Hn].
        { eapply node_at_prefix_Some; [|by rewrite HP]. by eexists. }
        rewrite node_at_app, Hn in HP. simpl in HP.
        destruct n as [d|es0]; [done|]. by eexists.
      * apply node_at_subst_above; [done|by rewrite HP].
  - right; right. by apply node_at_subst_diverge.
Qed.

Lemma dir_at_file_at_excl q fs : dir_at q fs → file_at q fs → False.
Proof. intros [es H1] [d H2]. congruence. Qed.

Section put_file.
(** The entry at [t] is created, overwritten or unlinked, and was not a
    directory before. *)
Context (P : path) (x : string) (v : option node) (es : gmap string node) (fs : node).
Context (HP : node_at P fs = Some (Dir es)).
Context (Hx : ∀ es', es !! x ≠ Some (Dir es')).

Let t := P ++ [x].
Let fs' := put (P ++ [x]) v fs.

Lemma put_file_target : node_at t fs' = v.
Proof using HP.
  subst t fs'.
  rewrite (put_snoc _ _ _ _ _ HP), node_at_subst_under by (by rewrite HP).
  simpl. rewrite lookup_partial_alter_eq. by destruct v.
Qed.

Lemma put_file_below_absent r : r ≠ [] → node_at (t ++ r) fs = None.
Proof using HP Hx.
  intros Hr. subst t. rewrite <-(assoc_L (++)), node_at_app, HP. simpl.
  destruct (es !! x) as [[d|es']|] eqn:Hes; [|by destruct (Hx es')|done].
  by destruct r.
Qed.

Lemma put_file_other_file q d :
  node_at q fs = Some (File d) → q ≠ t → node_at q fs' = Some (File d).
Proof using HP Hx.
  intros Hq Hne. subst fs'.
  destruct (node_at_put_cases P x v es fs q HP) as [(r & -> & _)|[(_ & Hd & _)| ->]]; [| |done].
  - destruct r as [|y r]; [done|].
    change (P ++ x :: y :: r) with (P ++ [x] ++ y :: r) in Hq.
    rewrite (assoc_L (++)), put_file_below_absent in Hq; done.
  - destruct Hd as [? Hd]. congruence.
Qed.

Lemma put_file_dir q : dir_at q fs → dir_at q fs'.
Proof using HP Hx.
  intros [es' Hq]. subst fs'. unfold dir_at.
  destruct (node_at_put_cases P x v es fs q HP) as [(r & -> & _)|[(_ & _ & Hd)| ->]];
    [|done|by eexists].
  destruct r as [|y r].
  - rewrite node_at_snoc, HP in Hq. by destruct (Hx es').
  - change (P ++ x :: y :: r) with (P ++ [x] ++ y :: r) in Hq.
    rewrite (assoc_L (++)), put_file_below_absent in Hq; done.
Qed.

Lemma put_file_absent q :
  (∀ n, v = Some n → is_file n = true) →
  node_at q fs = None → q ≠ t → node_at q fs' = None.
Proof using HP.
  intros Hv Hq Hne. subst fs'.
  destruct (node_at_put_cases P x v es fs q HP) as [(r & -> & ->)|[(_ & Hd & _)| ->]]; [| |done].
  - destruct r as [|y r]; [done|]. destruct v as [[d|es']|]; simpl; [done| |done].
    by specialize (Hv _ eq_refl).
  - destruct Hd as [? Hd]. congruence.
Qed.
End put_file.

Lemma mkdirs_dir_at p fs fs' : mkdirs p fs = Some fs' → dir_at p fs'.
Proof.
  revert fs fs'. induction p as [|x p IH]; intros [d|es] fs'; simpl; try done.
  - intros [= <-]. by eexists.
  - destruct (mkdirs p _) as [c|] eqn:Hc; [|done]. intros [= <-].
    unfold dir_at. simpl. rewrite lookup_insert_eq. by apply (IH _ _ Hc).
Qed.

Lemma mkdirs_keeps p fs fs' q :
  mkdirs p fs = Some fs' →
  (∀ d, node_at q fs = Some (File d) → node_at q fs' = Some (File d))
  ∧ (dir_at q fs → dir_at q fs').
Proof.
  revert fs fs' q. induction p as [|x p IH]; intros [d|es] fs' q; simpl; try done.
  - by intros [= <-].
  - destruct (mkdirs p _) as [c|] eqn:Hc; [|done]. intros [= <-].
    destruct q as [|y q]; [split; [done|intros _; by eexists]|].
    unfold dir_at. simpl. destruct (decide (x = y)) as [->|Hxy].
    + rewrite lookup_insert_eq. destruct (es !! y) as [c0|] eqn:Hy; simpl in *.
      * apply (IH _ _ q Hc).
      * split; [done|by intros [??]].
    + by rewrite lookup_insert_ne.
Qed.

Lemma write_file_inv t d fs fs' :
  write_file t d fs = Some fs' →
  ∃ P x es, t = P ++ [x] ∧ node_at P fs = Some (Dir es)
    ∧ (∀ es', es !! x ≠ Some (Dir es')) ∧ fs' = put (P ++ [x]) (Some (File d)) fs.
Proof.
  unfold write_file. destruct t as [|y t]; [done|].
  destruct (path_snoc_inv (y :: t)) as (P & x & HPx); [done|]. rewrite HPx.
  rewrite parent_snoc. destruct (node_at P fs) as [[?|es]|] eqn:HP; try done.
  intros H. exists P, x, es. split; [done|]. split; [done|].
  rewrite node_at_snoc, HP in H.
  destruct (es !! x) as [[?|?]|] eqn:Hx; simplify_eq; done.
Qed.

Lemma write_file_facts t d fs fs' :
  write_file t d fs = Some fs' →
  node_at t fs' = Some (File d)
  ∧ (∀ q d', node_at q fs = Some (File d') → q ≠ t → node_at q fs' = Some (File d'))
  ∧ (∀ q, node_at q fs = None → q ≠ t → node_at q fs' = None)
  ∧ (∀ q, dir_at q fs → dir_at q fs').
Proof.
  intros (P & x & es & -> & HP & Hx & ->)%write_file_inv. split_and!.
  - by apply put_file_target with es.
  - intros. by eapply put_file_other_file.
  - intros. eapply put_file_absent; try done. by intros ? [= <-].
  - intros. by eapply put_file_dir.
Qed.

Lemma unlink_file_facts t d fs :
  t ≠ [] → node_at t fs = Some (File d) →
  node_at t (put t None fs) = None
  ∧ (∀ q d', node_at q fs = Some (File d') → q ≠ t → node_at q (put t None fs) = Some (File d'))
  ∧ (∀ q, node_at q fs = None → node_at q (put t None fs) = None)
  ∧ (∀ q, dir_at q fs → dir_at q (put t None fs)).
Proof.
  intros Hne Ht. destruct (path_snoc_inv t Hne) as (P & x & ->).
  destruct (node_at_snoc_Some _ _ _ _ Ht) as (es & HP & Hx).
  assert (∀ es', es !! x ≠ Some (Dir es')) as Hnd by (intros; congruence).
  split_and!.
  - by apply put_file_target with es.
  - intros. by eapply put_file_other_file.
  - intros q Hq. destruct (decide (q = P ++ [x])) as [->|]; [congruence|].
    eapply put_file_absent; done.
  - intros. by eapply put_file_dir.
Qed.

Lemma unlink_dir_gone t es fs :
  t ≠ [] → node_at t fs = Some (Dir es) → node_at t (put t None fs) = None.
Proof.
  intros Hne Ht. destruct (path_snoc_inv t Hne) as (P & x & ->).
  destruct (node_at_snoc_Some _ _ _ _ Ht) as (es0 & HP & Hx).
  by apply put_file_target with es0.
Qed.

Lemma extract_member_dir dest m fs fs' q :
  extract_member dest m fs = Some fs' → dir_at q fs → dir_at q fs'.
Proof.
  unfold extract_member. destruct m as [mp [d|]]; simpl.
  - destruct (mkdirs _ fs) as [fs1|] eqn:H1; [|done]. intros H2 Hq.
    apply (write_file_facts _ _ _ _ H2). by apply (mkdirs_keeps _ _ _ q H1).
  - intros H1. by apply (mkdirs_keeps _ _ _ q H1).
Qed.

Lemma extract_members_dir dest ms fs q :
  dir_at q fs → dir_at q (extract_members dest ms fs).1.
Proof.
  revert fs. induction ms as [|m ms IH]; intros fs Hq; simpl; [done|].
  destruct (extract_member dest m fs) as [fs1|] eqn:H1; [|done].
  apply IH. by eapply extract_member_dir.
Qed.

End update_facts.

Section exec_facts.
Context (E : env).
#[local] Arguments node_at : simpl never.
#[local] Arguments put : simpl never.

Lemma exec_print e fs : exec E (Print e) fs = (inr tt, fs).
Proof. unfold exec. by destruct (denied E _). Qed.

Lemma exec_rmtree_inr p fs : (exec E (Rmtree p) fs).1 = inr tt.
Proof.
  unfold exec. destruct (denied E _); [done|]. simpl.
  by repeat case_match.
Qed.

Lemma exec_walk_inr td p fs :
  ∃ w, exec E (Walk td p) fs = (inr w, fs).
Proof. unfold exec. destruct (denied E _); simpl; eauto. Qed.

Lemma exec_walk_cases td p fs w :
  exec E (Walk td p) fs = (inr w, fs) →
  w = [] ∨ ∃ n, node_at p fs = Some n ∧ w = walk td p n.
Proof.
  unfold exec. destruct (denied E _); simpl; [intros [= <-]; by left|].
  destruct (node_at p fs) as [n|]; intros [= <-]; eauto.
Qed.

Lemma exec_isfile_inr p fs :
  ∃ b, exec E (Isfile p) fs = (inr b, fs).
Proof. unfold exec. destruct (denied E _); simpl; eauto. Qed.

(** Only an interrupted extraction leaves something behind when it raises. *)
Lemma exec_raise_same o fs e fs' :
  (∀ z d, o ≠ ExtractAll z d) → exec E o fs = (inl e, fs') → fs' = fs.
Proof.
  intros Ho. unfold exec. destruct (denied E o); [by intros [= _ <-]|].
  destruct o; try (by destruct (Ho zip dest));
    simpl; intros H; repeat case_match; by simplify_eq.
Qed.

(** No call other than the two directory removals makes a directory disappear. *)
Lemma exec_dir_at o fs r fs' q :
  match o with Rmtree _ | Rmdir _ => False | _ => True end →
  exec E o fs = (r, fs') → dir_at q fs → dir_at q fs'.
Proof.
  intros Ho. unfold exec. destruct (denied E o); [by intros [= _ <-]|].
  destruct o; simpl; try done; intros H Hq; repeat case_match; simplify_eq; try done.
  all: try (match goal with H : extract_members ?d ?ms ?fs0 = _ |- _ =>
      pose proof (extract_members_dir d ms fs0 q Hq) as Hd; by rewrite H in Hd end).
  all: try (by eapply mkdirs_keeps).
  all: try (by eapply write_file_facts).
  all: try (eapply unlink_file_facts; done).
Qed.

Lemma exec_makedirs_inr p fs v fs' :
  exec E (Makedirs p) fs = (inr v, fs') → dir_at p fs'.
Proof.
  unfold exec. destruct (denied E _); [done|]. simpl.
  destruct (mkdirs p fs) eqn:H; [|done]. intros [= _ <-]. by eapply mkdirs_dir_at.
Qed.

Lemma exec_remove_inr p fs v fs' :
  exec E (Remove p) fs = (inr v, fs') →
  node_at p fs' = None
  ∧ (∀ q d', node_at q fs = Some (File d') → q ≠ p → node_at q fs' = Some (File d'))
  ∧ (∀ q, node_at q fs = None → node_at q fs' = None).
Proof.
  unfold exec. destruct (denied E _); [done|]. simpl.
  destruct p as [|y p]; [by destruct (node_at [] fs)|].
  destruct (node_at (y :: p) fs) as [[d|es]|] eqn:H; try done. intros [= _ <-].
  destruct (unlink_file_facts (y :: p) d fs) as (? & ? & ? & ?); done.
Qed.

Lemma exec_write_inr img p fs v fs' :
  exec E (WriteImage img p) fs = (inr v, fs') →
  file_at p fs'
  ∧ (∀ q d', node_at q fs = Some (File d') → q ≠ p → node_at q fs' = Some (File d'))
  ∧ (∀ q, node_at q fs = None → q ≠ p → node_at q fs' = None).
Proof.
  unfold exec. destruct (denied E _); [done|]. simpl.
  destruct (write_file p _ fs) eqn:H; [|done]. intros [= _ <-].
  destruct (write_file_facts _ _ _ _ H) as (? & ? & ? & ?). split; [by eexists|done].
Qed.

Lemma exec_copy2_inr src dst fs v fs' :
  exec E (Copy2 src dst) fs = (inr v, fs') →
  ∃ t, (t = dst ∨ t = dst ++ [basename src]) ∧ file_at t fs'
  ∧ (∀ q d', node_at q fs = Some (File d') → q ≠ t → node_at q fs' = Some (File d'))
  ∧ (∀ q, node_at q fs = None → q ≠ t → node_at q fs' = None).
Proof.
  unfold exec. destruct (denied E _); [done|]. simpl.
  destruct (node_at src fs) as [[d|?]|]; try done.
  set (t := match node_at dst fs with Some (Dir _) => dst ++ [basename src] | _ => dst end).
  assert (t = dst ∨ t = dst ++ [basename src]) as Ht.
  { subst t. destruct (node_at dst fs) as [[]|]; auto. }
  case_decide; [done|]. destruct (write_file t d fs) eqn:Hw; [|done]. intros [= _ <-].
  destruct (write_file_facts _ _ _ _ Hw) as (? & ? & ? & ?).
  exists t. split; [done|]. split; [by eexists|done].
Qed.

Lemma exec_rmtree_gone p fs r fs' :
  denied E (Rmtree p) = false → p ≠ [] → dir_at p fs →
  exec E (Rmtree p) fs = (r, fs') → node_at p fs' = None.
Proof.
  intros Hd Hp [es Hes]. unfold exec. rewrite Hd. simpl.
  destruct p as [|y p]; [done|]. rewrite Hes. intros [= _ <-].
  by eapply unlink_dir_gone.
Qed.

End exec_facts.

(* ================================================================== *)
(** * Running composite programs *)

Ltac prog_unfold := unfold mbind, prog_bind, mret, prog_ret in *.

Section run_facts.
Context (E : env).

Lemma for_cons {X} (x : X) l body :
  for_ (x :: l) body = bind (body x) (λ _, for_ l body).
Proof. reflexivity. Qed.

Lemma run_bind {A B} (c : prog A) (f : A → prog B) fs :
  run E (bind c f) fs =
    match run E c fs with
    | (inr a, fs1, l1) =>
        let '(v, fs2, l2) := run E (f a) fs1 in (v, fs2, l1 ++ l2)
    | (inl s, fs1, l1) => (inl s, fs1, l1)
    end.
Proof.
  revert fs. induction c as [a|s|o k IH]; intros fs; simpl.
  - by destruct (run E (f a) fs) as [[??]?].
  - done.
  - destruct (exec E o fs) as [r fs1]. rewrite IH.
    destruct (run E (k r) fs1) as [[[s|a] fs2] l]; [done|].
    destruct (run E (f a) fs2) as [[??]?]. by rewrite (assoc_L (++)).
Qed.

Lemma run_try {A} (c : prog A) (h : exn → prog A) fs :
  run E (try_ c h) fs =
    match run E c fs with
    | (inl (Exc e), fs1, l1) =>
        let '(v, fs2, l2) := run E (h e) fs1 in (v, fs2, l1 ++ l2)
    | other => other
    end.
Proof.
  revert fs. induction c as [a|[e|]|o k IH]; intros fs; simpl; try done.
  - by destruct (run E (h e) fs) as [[??]?].
  - destruct (exec E o fs) as [r fs1]. rewrite IH.
    destruct (run E (k r) fs1) as [[[[e|]|a] fs2] l]; try done.
    destruct (run E (h e) fs2) as [[??]?]. by rewrite (assoc_L (++)).
Qed.

Lemma run_def {A} (c : prog (option A)) fs :
  run E (def_ c) fs =
    match run E c fs with
    | (inl Return, fs1, l1) => (inr None, fs1, l1)
    | other => other
    end.
Proof.
  revert fs. induction c as [a|[e|]|o k IH]; intros fs; simpl; try done.
  destruct (exec E o fs) as [r fs1]. rewrite IH.
  by destruct (run E (k r) fs1) as [[[[e|]|a] fs2] l].
Qed.

Lemma run_call o fs :
  run E (call o) fs =
    let '(r, fs1) := exec E o fs in
    (match r with inl e => inl (Exc e) | inr v => inr v end, fs1, printed o).
Proof.
  simpl. destruct (exec E o fs) as [[e|v] fs1]; simpl; by rewrite app_nil_r.
Qed.

End run_facts.

(** From here on programs are run with the equations above, not unfolded. *)
Arguments bind : simpl never.
Arguments try_ : simpl never.
Arguments def_ : simpl never.
Arguments for_ : simpl never.
Arguments fold_ : simpl never.
Arguments call : simpl never.

(** Rewrite the run of the first primitive call in the goal. *)
Ltac run_call :=
  unfold os_makedirs, shutil_copy2, zipfile_extractall, os_remove,
    shutil_rmtree, os_rmdir, os_listdir, os_path_isfile, os_walk,
    sitk_read, sitk_write, print in *;
  match goal with
  | |- context [@run ?A ?E (call ?o) ?fs] =>
      change (@run A E (call o) fs) with (@run (res o) E (call o) fs);
      rewrite (run_call E o fs)
  end.

(** Rewrite with a run equation up to conversion of the program. *)
Ltac rewrite_run H :=
  lazymatch type of H with
  | @run ?A ?E ?c ?fs = _ =>
      match goal with
      | |- context [@run ?A' E ?c' fs] =>
          change (@run A' E c' fs) with (@run A E c fs); rewrite H
      end
  end.

(** Reduce the plumbing around runs without touching the programs. *)
Ltac run_simpl := cbv beta iota zeta; cbn [printed app fst snd].

Section run_statements.
Context (E : env).

Lemma run_print {A} e (c : prog A) fs :
  run E (bind (print e) (λ _, c)) fs =
    let '(v, fs2, l) := run E c fs in (v, fs2, e :: l).
Proof.
  rewrite run_bind. run_call. rewrite exec_print. simpl.
  by destruct (run E c fs) as [[??]?].
Qed.

(** The way every abort path after the extraction ends. *)
Lemma run_discard {A} w p fs :
  run E (bind (print w) (λ _, bind (shutil_rmtree p) (λ _, @return_ A))) fs =
    (inl Return, (exec E (Rmtree p) fs).2, [w]).
Proof.
  rewrite run_print, run_bind. run_call.
  pose proof (exec_rmtree_inr E p fs) as H.
  destruct (exec E (Rmtree p) fs) as [r fs1]. simpl in *. by subst r.
Qed.

(** The way both handlers of a failed extraction end. *)
Lemma run_discard_archive {A} w z p fs :
  run E (bind (print w) (λ _, bind (os_remove z) (λ _,
           bind (shutil_rmtree p) (λ _, @return_ A)))) fs =
    match exec E (Remove z) fs with
    | (inl e, fs1) => (inl (Exc e), fs1, [w])
    | (inr _, fs1) => (inl Return, (exec E (Rmtree p) fs1).2, [w])
    end.
Proof.
  rewrite run_print, run_bind. run_call.
  destruct (exec E (Remove z) fs) as [[e|[]] fs1]; run_simpl; [done|].
  rewrite run_bind. run_call. pose proof (exec_rmtree_inr E p fs1) as H.
  destruct (exec E (Rmtree p) fs1) as [r fs2]. simpl in *. by subst r.
Qed.

End run_statements.

Section more_string_facts.

Lemma volume_name_not_frame sid : endswith (lower (sid +:+ ".nii.gz")) ".dcm" = false.
Proof. rewrite lower_app. by rewrite endswith_app_short by (simpl; lia). Qed.

Lemma sidecar_name_not_frame sid : endswith (lower (sid +:+ ".json")) ".dcm" = false.
Proof. rewrite lower_app. by rewrite endswith_app_short by (simpl; lia). Qed.

Lemma collect_dcm_spec w p :
  p ∈ collect_dcm w →
  ∃ root fname, p = root ++ [fname] ∧ endswith (lower fname) ".dcm" = true.
Proof.
  unfold collect_dcm. rewrite list_elem_of_bind.
  intros ([[root dirs] files] & Hp & _).
  apply list_elem_of_fmap in Hp as (fname & -> & Hf).
  apply list_elem_of_filter in Hf as [Hf _]. eauto.
Qed.

Lemma collect_dcm_complete w root dirs files fname :
  (root, dirs, files) ∈ w → fname ∈ files →
  endswith (lower fname) ".dcm" = true →
  root ++ [fname] ∈ collect_dcm w.
Proof.
  intros Hw Hf Hd. unfold collect_dcm. apply list_elem_of_bind.
  exists (root, dirs, files). split; [|done].
  apply list_elem_of_fmap. exists fname. split; [done|].
  by apply list_elem_of_filter.
Qed.

(** A regular file below a directory is among the frames a walk of that
    directory collects, if it is named like one. *)
Lemma walk_collects td top n q x d :
  node_at (q ++ [x]) n = Some (File d) →
  endswith (lower x) ".dcm" = true →
  (top ++ q) ++ [x] ∈ collect_dcm (walk td top n).
Proof.
  intros Hf Hx. apply node_at_snoc_Some in Hf as (es & Hq & Hes).
  eapply collect_dcm_complete; [by apply walk_complete| |done].
  apply elem_of_filenames. eauto.
Qed.

Lemma file_at_back f fs fs' :
  (node_at f fs = None → node_at f fs' = None) →
  (dir_at f fs → dir_at f fs') →
  file_at f fs' → file_at f fs.
Proof.
  intros Habs Hdir [d Hf]. destruct (node_at f fs) as [[d0|es]|] eqn:H0.
  - by eexists.
  - destruct Hdir as [es' Hes']; [by eexists|]. congruence.
  - rewrite Habs in Hf; done.
Qed.

Lemma snoc_inj (p q : path) x y : p ++ [x] = q ++ [y] → p = q ∧ x = y.
Proof. intros H. by apply app_inj_tail in H. Qed.

Lemma volume_not_collected t w : volume_path t ∉ collect_dcm w.
Proof.
  intros (root & fname & Heq & Hf)%collect_dcm_spec.
  apply snoc_inj in Heq as [_ <-]. by rewrite volume_name_not_frame in Hf.
Qed.

End more_string_facts.

(* ================================================================== *)
(** * The pipeline, path by path *)

Section pipeline_facts.
Context (E : env).

(** The loop that deletes the frame files. *)
Lemma run_remove_frames (fl : list path) fs :
  ∃ fs' l,
    run E (for_ fl (λ dcm_file,
             try_ (os_remove dcm_file) (λ e, print (WarnRemoveDicom dcm_file)))) fs
      = (inr tt, fs', l)
    ∧ Forall (λ w, ∃ f, w = WarnRemoveDicom f) l
    ∧ (∀ q d, node_at q fs = Some (File d) → q ∉ fl → node_at q fs' = Some (File d))
    ∧ (∀ q, node_at q fs = None → node_at q fs' = None)
    ∧ (∀ q, dir_at q fs → dir_at q fs')
    ∧ (∀ f, f ∈ fl → node_at f fs' = None ∨ WarnRemoveDicom f ∈ l).
Proof.
  revert fs. induction fl as [|f fl IH]; intros fs.
  { exists fs, []. simpl. split_and!; auto. set_solver. }
  rewrite for_cons, run_bind, run_try. run_call.
  destruct (exec E (Remove f) fs) as [[e|[]] fs1] eqn:Hrm.
  - apply exec_raise_same in Hrm as ->; [|done].
    run_simpl. run_call. rewrite exec_print. run_simpl.
    destruct (IH fs) as (fs' & l & Hrun & Hl & Hfile & Hnone & Hdir & Hrem).
    exists fs', (WarnRemoveDicom f :: l). rewrite Hrun. split_and!; auto.
    + constructor; eauto.
    + intros q d Hq Hnin. apply Hfile; [done|]. set_solver.
    + intros f' [->|Hf']%elem_of_cons; [set_solver|].
      destruct (Hrem f' Hf'); set_solver.
  - destruct (IH fs1) as (fs' & l & Hrun & Hl & Hfile & Hnone & Hdir & Hrem).
    destruct (exec_remove_inr _ _ _ _ _ Hrm) as (Hgone & Hf1 & Hn1).
    exists fs', l. run_simpl. rewrite Hrun. split_and!; auto.
    + intros q d Hq Hnin. apply Hfile; [|set_solver]. apply Hf1; [done|set_solver].
    + intros q Hq. apply Hdir. by eapply (exec_dir_at E (Remove f)).
    + intros f' [->|Hf']%elem_of_cons; [left; by apply Hnone|by apply Hrem].
Qed.

Lemma process_series_runs t fs :
  process_series_post E t (run E (process_series t) fs).
Proof.
  destruct t as [[[[pf df] sid] ind] outd].
  unfold process_series.
  set (t := (pf, df, sid, ind, outd)).
  change ((outd ++ [pf; df]) ++ [sid]) with (staging_dir t).
  change (staging_dir t ++ [sid +:+ ".zip"]) with (archive_copy_path t).
  change (staging_dir t ++ [sid +:+ ".nii.gz"]) with (volume_path t).
  change (staging_dir t ++ [sid +:+ ".json"]) with (sidecar_copy_path t).
  assert (staging_dir t ≠ []) as HSne by (unfold staging_dir; simpl; by destruct outd).
  prog_unfold. rewrite run_def.
  (* os.makedirs(out_date_path) *)
  rewrite run_bind. run_call.
  destruct (exec E (Makedirs (outd ++ [pf; df])) fs) as [[e1|[]] fs1] eqn:H1; run_simpl.
  { by left. }
  (* os.makedirs(series_out_dir) *)
  rewrite run_bind. run_call.
  destruct (exec E (Makedirs (staging_dir t)) fs1) as [[e2|[]] fs2] eqn:H2; run_simpl.
  { by left. }
  pose proof (exec_makedirs_inr _ _ _ _ _ H2) as HS2.
  (* copy the archive *)
  rewrite run_bind, run_try. run_call.
  destruct (exec E (Copy2 _ (archive_copy_path t)) fs2) as [[e3|[]] fs3] eqn:H3; run_simpl.
  { rewrite run_print. cbn [run return_]. run_simpl.
    apply exec_raise_same in H3 as ->; [|done]. left. eauto. }
  assert (dir_at (staging_dir t) fs3) as HS3 by (by eapply (exec_dir_at E (Copy2 _ _))).
  (* extract it *)
  rewrite run_bind, run_try. run_call.
  destruct (exec E (ExtractAll _ (staging_dir t)) fs3) as [[e4|[]] fs4] eqn:H4; run_simpl.
  { assert (dir_at (staging_dir t) fs4) as HS4 by (by eapply (exec_dir_at E (ExtractAll _ _))).
    assert (∀ w, (w = WarnBadZip sid ∨ w = WarnUnzip (archive_copy_path t)) →
      process_series_post E t
        (match exec E (Remove (archive_copy_path t)) fs4 with
         | (inl e, fs1) => (inl (Exc e), fs1, [w])
         | (inr _, fs1) => (inr None, (exec E (Rmtree (staging_dir t)) fs1).2, [w])
         end)) as Hpost.
    { intros w Hw.
      destruct (exec E (Remove _) fs4) as [[e5|[]] fs5] eqn:H5; simpl.
      { destruct Hw as [->| ->]; auto. }
      right. exists w. split; [done|]. split.
      { unfold abort_warning, unit_id. simpl. tauto. }
      intros Hden. eapply exec_rmtree_gone; [done|done| |apply surjective_pairing].
      by eapply (exec_dir_at E (Remove _)). }
    destruct e4; rewrite run_discard_archive.
    all: match goal with |- context [[?w]] => specialize (Hpost w) end.
    all: destruct (exec E (Remove _) fs4) as [[e5|[]] fs5]; run_simpl; apply Hpost; auto. }
  assert (dir_at (staging_dir t) fs4) as HS4 by (by eapply (exec_dir_at E (ExtractAll _ _))).
  (* remove the copy *)
  rewrite run_bind. run_call.
  destruct (exec E (Remove (archive_copy_path t)) fs4) as [[e5|[]] fs5] eqn:H5; run_simpl.
  { by left. }
  assert (dir_at (staging_dir t) fs5) as HS5 by (by eapply (exec_dir_at E (Remove _))).
  destruct (exec_remove_inr _ _ _ _ _ H5) as (HZ5 & _ & _).
  (* collect the frames *)
  rewrite run_bind. run_call.
  destruct (exec_walk_inr E true (staging_dir t) fs5) as [w Hw]. rewrite Hw. run_simpl.
  set (dcm_files := collect_dcm w).
  assert (∀ w, abort_warning t w →
    process_series_post E t (inr None, (exec E (Rmtree (staging_dir t)) fs5).2, [w])) as Hdiscard.
  { intros w' Hw'. right. exists w'. split; [done|]. split; [done|].
    intros Hden. eapply exec_rmtree_gone; [done|done|done|apply surjective_pairing]. }
  rewrite run_bind. destruct (decide (length dcm_files = 0)) as [Hnil|Hnil].
  { rewrite run_discard. run_simpl. apply Hdiscard. unfold abort_warning, unit_id. simpl. tauto. }
  cbn [run]. run_simpl.
  (* decode *)
  rewrite run_bind, run_try. run_call.
  destruct (exec E (ReadSeries dcm_files) fs5) as [[e6|img] fs6] eqn:H6; run_simpl.
  { apply exec_raise_same in H6 as ->; [|done].
    rewrite run_discard. run_simpl. apply Hdiscard. unfold abort_warning, unit_id. simpl. tauto. }
  assert (fs6 = fs5) as ->.
  { revert H6. unfold exec. destruct (denied E _); [done|]. simpl.
    repeat case_match; by intros [= _ <-]. }
  (* encode *)
  rewrite run_bind, run_try. run_call.
  destruct (exec E (WriteImage img (volume_path t)) fs5) as [[e7|[]] fs7] eqn:H7; run_simpl.
  { apply exec_raise_same in H7 as ->; [|done].
    rewrite run_discard. run_simpl. apply Hdiscard. unfold abort_warning, unit_id. simpl. tauto. }
  assert (dir_at (staging_dir t) fs7) as HS7 by (by eapply (exec_dir_at E (WriteImage _ _))).
  destruct (exec_write_inr _ _ _ _ _ _ H7) as (HN7 & _ & Habs7g).
  pose proof Habs7g as Habs7.
  assert (archive_copy_path t ≠ volume_path t) as HZN.
  { unfold archive_copy_path, volume_path. intros [_ Heq]%snoc_inj.
    by apply (inj (String.app _)) in Heq. }
  specialize (Habs7 _ HZ5 HZN).
  (* delete the frames *)
  rewrite run_bind.
  destruct (run_remove_frames dcm_files fs7)
    as (fs8 & l8 & Hrun8 & Hl8 & Hfile8 & Habs8 & Hdir8 & Hrem8).
  unfold os_remove, print in Hrun8. rewrite Hrun8. run_simpl.
  destruct HN7 as [dN HN7].
  pose proof (Hfile8 _ _ HN7 (volume_not_collected t w)) as HN8.
  pose proof (Habs8 _ Habs7) as HZ8. pose proof (Hdir8 _ HS7) as HS8.
  (* copy the sidecar *)
  rewrite run_bind, run_try. run_call.
  assert (Forall (finalize_warning t) l8) as Hl8'.
  { eapply Forall_impl; [done|]. intros ? [f ->]. right. eauto. }
  (* a frame file that is still there was collected, and its removal failed *)
  assert (∀ q x, file_at ((staging_dir t ++ q) ++ [x]) fs8 →
            endswith (lower x) ".dcm" = true →
            WarnRemoveDicom ((staging_dir t ++ q) ++ [x]) ∈ l8) as Hframes8.
  { intros q x Hf8 Hx.
    assert (file_at ((staging_dir t ++ q) ++ [x]) fs7) as Hf7.
    { eapply file_at_back; [apply Habs8|apply Hdir8|done]. }
    assert (file_at ((staging_dir t ++ q) ++ [x]) fs5) as [d Hf5].
    { eapply file_at_back; [|by eapply (exec_dir_at E (WriteImage _ _))|done].
      intros Hn. apply Habs7g; [done|]. unfold volume_path.
      intros [_ ->]%snoc_inj. by rewrite volume_name_not_frame in Hx. }
    assert ((staging_dir t ++ q) ++ [x] ∈ dcm_files) as Hin.
    { destruct (exec_walk_cases _ _ _ _ _ Hw) as [->|(n & Hn & ->)].
      { by destruct Hnil. }
      rewrite <-(assoc_L (++)), node_at_app, Hn in Hf5. simpl in Hf5.
      by eapply walk_collects. }
    destruct (Hrem8 _ Hin) as [Hgone|?]; [|done].
    destruct Hf8 as [? Hf8]. congruence. }
  destruct (exec E (Copy2 _ (sidecar_copy_path t)) fs8) as [[e9|[]] fs9] eqn:H9; run_simpl.
  - apply exec_raise_same in H9 as ->; [|done].
    run_call. rewrite exec_print. run_simpl.
    rewrite run_print. cbn [run]. run_simpl.
    unfold process_series_post. split_and!; [done| |by eexists|done|done| |].
    + exists (l8 ++ [WarnCopyJson sid]). split; [by rewrite <-(assoc_L (++))|].
      apply Forall_app. split; [done|]. by repeat constructor.
    + left. set_solver.
    + intros q x Hf Hx. specialize (Hframes8 q x Hf Hx). set_solver.
  - rewrite run_print. cbn [run]. run_simpl.
    assert (dir_at (staging_dir t) fs9) as HS9 by (by eapply (exec_dir_at E (Copy2 _ _))).
    destruct (exec_copy2_inr _ _ _ _ _ _ H9) as (tg & Htg & Htgf & Hfile9 & Habs9).
    rewrite basename_snoc in Htg.
    assert (volume_path t ≠ tg ∧ archive_copy_path t ≠ tg) as [HNtg HZtg].
    { unfold volume_path, archive_copy_path, sidecar_copy_path in *.
      destruct Htg as [Ht|Ht]; subst tg; split; intros Heq.
      - apply snoc_inj in Heq as [_ Heq]. by apply (inj (String.app _)) in Heq.
      - apply snoc_inj in Heq as [_ Heq]. by apply (inj (String.app _)) in Heq.
      - apply (f_equal length) in Heq. rewrite !length_app in Heq. simpl in Heq. lia.
      - apply (f_equal length) in Heq. rewrite !length_app in Heq. simpl in Heq. lia. }
    unfold process_series_post. split_and!; [done| |by eexists; eauto|by eauto|done| |].
    + exists l8. split; [done|done].
    + right. destruct Htg as [Ht|Ht]; subst tg; auto.
    + intros q x Hf Hx.
      assert (file_at ((staging_dir t ++ q) ++ [x]) fs8) as Hf8.
      { eapply file_at_back; [|by eapply (exec_dir_at E (Copy2 _ _))|done].
        intros Hn. apply Habs9; [done|]. intros Heq. unfold sidecar_copy_path in Htg.
        destruct Htg as [Ht|Ht]; subst tg; apply snoc_inj in Heq as [_ ->];
          by rewrite sidecar_name_not_frame in Hx. }
      specialize (Hframes8 q x Hf8 Hx). set_solver.
Qed.

End pipeline_facts.

(* ================================================================== *)
(** * The unit locator *)

Section locator_facts.
Context (E : env).

Lemma endswith_refl s : endswith s s = true.
Proof. destruct s; simpl; [done|]. by rewrite Ascii.eqb_refl, String.eqb_refl. Qed.

Lemma endswith_tail s a suf : endswith s (String a suf) = true → endswith s suf = true.
Proof.
  induction s as [|c t IH].
  - simpl. done.
  - rewrite !endswith_cons.
    destruct (String.eqb (String c t) (String a suf)) eqn:Heq.
    + apply String.eqb_eq in Heq as [= -> ->]. intros _.
      rewrite endswith_refl. by destruct (String.eqb (String a suf) suf).
    + intros H. rewrite (IH H). by destruct (String.eqb (String c t) suf).
Qed.

Lemma endswith_one_char s a b :
  endswith s (String a "") = true → endswith s (String b "") = true → a = b.
Proof.
  induction s as [|c t IH]; [done|]. rewrite !endswith_cons.
  destruct t as [|c' t'].
  - simpl. destruct (Ascii.eqb_spec c a), (Ascii.eqb_spec c b); try done. congruence.
  - assert (∀ x, String.eqb (String c (String c' t')) (String x "") = false) as Hne.
    { intros x. simpl. by destruct (Ascii.eqb c x). }
    rewrite !Hne. apply IH.
Qed.

Lemma zip_is_not_json f : endswith f ".zip" = true → endswith f ".json" = false.
Proof.
  intros Hz. destruct (endswith f ".json") eqn:Hj; [|done].
  do 3 apply endswith_tail in Hz. do 4 apply endswith_tail in Hj.
  by pose proof (endswith_one_char _ _ _ Hz Hj).
Qed.

Lemma run_isfile p fs :
  @run bool E (os_path_isfile p) fs = (inr (isfile_answer E fs p), fs, []).
Proof.
  run_call. unfold isfile_answer.
  destruct (exec_isfile_inr E p fs) as [b ->]. done.
Qed.

(** The loop of [filter_series] adds to each set the stems of its kind. *)
Lemma run_filter_loop date_path listing zip_ids json_ids fs :
  run E (fold_ listing (zip_ids, json_ids) (λ '(zip_ids, json_ids) f,
    let fpath := date_path ++ [f] in
    is_zip ← (if endswith f ".zip" then os_path_isfile fpath else mret false);
    if is_zip : bool then mret (zip_ids ∪ {[ (splitext f).1 ]}, json_ids)
    else
      is_json ← (if endswith f ".json" then os_path_isfile fpath else mret false);
      if is_json : bool then mret (zip_ids, json_ids ∪ {[ (splitext f).1 ]})
      else mret (zip_ids, json_ids))) fs
  = (inr (zip_ids ∪ archive_stems E fs date_path listing,
          json_ids ∪ sidecar_stems E fs date_path listing), fs, []).
Proof.
  revert zip_ids json_ids. induction listing as [|f listing IH]; intros zip_ids json_ids.
  { cbn [fold_ run]. unfold archive_stems, sidecar_stems, stems. simpl.
    by rewrite !(right_id_L ∅ (∪)). }
  change (fold_ (f :: listing) ?s ?body) with (bind (body s f) (λ s', fold_ listing s' body)).
  prog_unfold. cbv beta iota zeta. rewrite !run_bind.
  unfold archive_stems, sidecar_stems, stems in *. rewrite !filter_cons.
  destruct (endswith f ".zip") eqn:Hzip; run_simpl.
  - rewrite run_isfile. run_simpl. rewrite (zip_is_not_json f Hzip).
    destruct (isfile_answer E fs (date_path ++ [f])) eqn:Hfile.
    + cbn [run]. run_simpl. rewrite IH.
      rewrite decide_True by done. rewrite decide_False by (intros [? _]; done).
      rewrite fmap_cons, list_to_set_cons. by rewrite !(assoc_L (∪)).
    + cbn [run]. run_simpl. rewrite run_bind. cbn [run]. run_simpl. rewrite IH.
      rewrite decide_False by (intros [_ ?]; done).
      rewrite decide_False by (intros [? _]; done). done.
  - cbn [run]. run_simpl. rewrite run_bind.
    rewrite decide_False by (intros [? _]; done).
    destruct (endswith f ".json") eqn:Hjson; run_simpl.
    + rewrite run_isfile. run_simpl.
      destruct (isfile_answer E fs (date_path ++ [f])) eqn:Hfile.
      * cbn [run]. run_simpl. rewrite IH. rewrite decide_True by done.
        rewrite fmap_cons, list_to_set_cons. by rewrite !(assoc_L (∪)).
      * cbn [run]. run_simpl. rewrite IH.
        rewrite decide_False by (intros [_ ?]; done). done.
    + cbn [run]. run_simpl. rewrite IH.
      rewrite decide_False by (intros [? _]; done). done.
Qed.

Lemma run_filter_series date_path fs listing :
  exec E (Listdir date_path) fs = (inr listing, fs) →
  run E (filter_series date_path) fs
  = (inr (archive_stems E fs date_path listing ∩ sidecar_stems E fs date_path listing),
     fs, []).
Proof.
  intros Hls. unfold filter_series. prog_unfold. rewrite run_bind. run_call.
  rewrite Hls. run_simpl. rewrite run_bind.
  pose proof (run_filter_loop date_path listing ∅ ∅ fs) as Hloop.
  prog_unfold. unfold os_path_isfile in Hloop. rewrite Hloop. run_simpl. cbn [run].
  run_simpl. by rewrite !(left_id_L ∅ (∪)).
Qed.

End locator_facts.

(* ================================================================== *)
(** * The sweep: from the loops to their closed forms *)

Section sweep_loops.
Context (E : env).

Lemma run_for_nil {X} (body : X → prog unit) fs :
  run E (for_ [] body) fs = (inr tt, fs, []).
Proof. reflexivity. Qed.

Lemma runs_to_nil {X} (body : X → prog unit) fs : runs_to E (for_ [] body) fs fs.
Proof. by exists []. Qed.

Lemma runs_to_bind (c : prog unit) (k : prog unit) fs fs1 fs2 :
  runs_to E c fs fs1 → runs_to E k fs1 fs2 → runs_to E (bind c (λ _, k)) fs fs2.
Proof.
  intros [l1 H1] [l2 H2]. exists (l1 ++ l2). rewrite run_bind, H1. run_simpl.
  by rewrite H2.
Qed.

Lemma runs_to_cons {X} (x : X) l (body : X → prog unit) fs fs1 fs2 :
  runs_to E (body x) fs fs1 → runs_to E (for_ l body) fs1 fs2 →
  runs_to E (for_ (x :: l) body) fs fs2.
Proof. rewrite for_cons. apply runs_to_bind. Qed.

Lemma runs_to_app {X} (l1 l2 : list X) (body : X → prog unit) fs fs1 fs2 :
  runs_to E (for_ l1 body) fs fs1 → runs_to E (for_ l2 body) fs1 fs2 →
  runs_to E (for_ (l1 ++ l2) body) fs fs2.
Proof.
  revert fs. induction l1 as [|x l1 IH]; intros fs.
  - intros [l H]. rewrite run_for_nil in H. by simplify_eq.
  - rewrite <-app_comm_cons, !for_cons. intros [l H] H2.
    rewrite run_bind in H.
    destruct (run E (body x) fs) as [[[s|[]] fs0] l0] eqn:Hx; [done|].
    destruct (run E (for_ l1 body) fs0) as [[[s|[]] fs0'] l0'] eqn:Hl1; [done|].
    simplify_eq. apply runs_to_bind with fs0; [by eexists|].
    apply IH; [by eexists|done].
Qed.

Lemma runs_to_print e fs : runs_to E (print e) fs fs.
Proof. exists [e]. run_call. by rewrite exec_print. Qed.

Lemma graft_snoc p x v es fs :
  node_at p fs = Some (Dir es) → is_Some (es !! x) →
  graft (p ++ [x]) v fs = subst p (Dir (partial_alter (λ _, v) x es)) fs.
Proof.
  intros Hp [c Hc]. destruct v as [n'|]; simpl.
  - rewrite (subst_app _ _ _ _ _ Hp). simpl. f_equal. f_equal.
    apply map_eq. intros y. destruct (decide (x = y)) as [->|].
    + by rewrite lookup_alter_eq, lookup_partial_alter_eq, Hc.
    + by rewrite lookup_alter_ne, lookup_partial_alter_ne.
  - by apply put_snoc.
Qed.

Lemma lookup_foldl_partial_alter (g : string → node → option node)
    (L : list (string * node)) (es0 : gmap string node) y :
  NoDup L.*1 →
  foldl (λ acc xc, partial_alter (λ _, g xc.1 xc.2) xc.1 acc) es0 L !! y =
    match list_find (λ xc, xc.1 = y) L with
    | Some (_, xc) => g xc.1 xc.2
    | None => es0 !! y
    end.
Proof.
  intros Hnd. revert es0. induction L as [|[x c] L IH]; intros es0; [done|].
  apply NoDup_cons in Hnd as [Hx Hnd]. simpl foldl. rewrite (IH Hnd). clear IH.
  simpl. destruct (decide (x = y)) as [->|Hxy].
  - destruct (list_find (λ xc, xc.1 = y) L) as [[i [x' c']]|] eqn:Hfind.
    + apply list_find_Some in Hfind as (Hi & Hx' & _). simpl in Hx'. subst x'.
      destruct Hx. apply list_elem_of_fmap. exists (y, c'). split; [done|].
      by eapply list_elem_of_lookup_2.
    + simpl. by rewrite lookup_partial_alter_eq.
  - destruct (list_find (λ xc, xc.1 = y) L) as [[i [x' c']]|] eqn:Hfind; simpl; [done|].
    by rewrite lookup_partial_alter_ne.
Qed.

Lemma foldl_partial_alter_map_to_list (g : string → node → option node) es :
  foldl (λ acc xc, partial_alter (λ _, g xc.1 xc.2) xc.1 acc) es (map_to_list es)
  = map_imap g es.
Proof.
  apply map_eq. intros y.
  rewrite lookup_foldl_partial_alter by apply NoDup_fst_map_to_list.
  rewrite map_lookup_imap.
  destruct (list_find (λ xc, xc.1 = y) (map_to_list es)) as [[i [x c]]|] eqn:Hfind.
  - apply list_find_Some in Hfind as (Hi & Hx & _). simpl in Hx. subst x.
    apply list_elem_of_lookup_2, elem_of_map_to_list in Hi. by rewrite Hi.
  - destruct (es !! y) as [c|] eqn:Hy; [|done]. exfalso.
    apply elem_of_map_to_list in Hy.
    eapply list_find_None in Hfind. rewrite Forall_forall in Hfind.
    by apply (Hfind _ Hy).
Qed.

(** The loop over the sub-directories of the directory at [p], given what
    the loop does on each of them. *)
Lemma children_loop_aux (body : path * list string * list string → prog unit)
    p (g : string → node → option node) (es : gmap string node)
    (L : list (string * node)) :
  (∀ x c fs', es !! x = Some c → node_at (p ++ [x]) fs' = Some c →
     runs_to E (for_ (walk false (p ++ [x]) c) body) fs'
       (graft (p ++ [x]) (g x c) fs')) →
  NoDup L.*1 →
  (∀ x c, (x, c) ∈ L → es !! x = Some c) →
  ∀ fs (es_cur : gmap string node),
    (∀ x c, (x, c) ∈ L → es_cur !! x = Some c) →
    node_at p fs = Some (Dir es_cur) →
    runs_to E
      (for_ (mjoin ((λ xc, walk false (p ++ [xc.1]) xc.2) <$> L)) body) fs
      (subst p (Dir (foldl (λ acc xc, partial_alter (λ _, g xc.1 xc.2) xc.1 acc)
                       es_cur L)) fs).
Proof.
  intros Hchild. induction L as [|[x c] L IH]; intros Hnd Hin fs es_cur Hcur Hp.
  - simpl. rewrite (subst_id _ _ _ Hp). apply runs_to_nil.
  - rewrite fmap_cons in Hnd. apply NoDup_cons in Hnd as [Hx Hnd].
    rewrite fmap_cons. cbn [mjoin list_join fst snd foldl].
    assert (es_cur !! x = Some c) as Hxc by (apply Hcur; left).
    assert (node_at (p ++ [x]) fs = Some c) as Hpx by (by rewrite node_at_snoc, Hp).
    eapply runs_to_app.
    { apply Hchild; [apply Hin; left|done]. }
    rewrite (graft_snoc _ _ _ _ _ Hp) by done.
    set (es1 := partial_alter (λ _, g x c) x es_cur).
    assert (∀ n, subst p n fs = subst p n (subst p (Dir es1) fs)) as Hs
      by (intros; by rewrite subst_subst).
    assert (node_at p (subst p (Dir es1) fs) = Some (Dir es1)) as Hp1
      by (apply node_at_subst_eq; by rewrite Hp).
    set (fs1 := subst p (Dir es1) fs) in *. rewrite Hs. fold fs1.
    clearbody fs1. apply IH; try done.
    + intros. apply Hin. by right.
    + intros x' c' Hin'. subst es1. rewrite lookup_partial_alter_ne.
      * apply Hcur. by right.
      * intros ->. apply Hx. apply list_elem_of_fmap. by exists (x', c').
Qed.

Lemma children_loop (body : path * list string * list string → prog unit)
    p (g : string → node → option node) (es : gmap string node) :
  (∀ x c fs', es !! x = Some c → node_at (p ++ [x]) fs' = Some c →
     runs_to E (for_ (walk false (p ++ [x]) c) body) fs'
       (graft (p ++ [x]) (g x c) fs')) →
  ∀ fs, node_at p fs = Some (Dir es) →
    runs_to E
      (for_ (mjoin ((λ xc, walk false (p ++ [xc.1]) xc.2) <$> map_to_list es)) body)
      fs (subst p (Dir (map_imap g es)) fs).
Proof.
  intros Hchild fs Hp. rewrite <-foldl_partial_alter_map_to_list.
  apply children_loop_aux with es; try done.
  - apply NoDup_fst_map_to_list.
  - intros. by apply elem_of_map_to_list.
  - intros. by apply elem_of_map_to_list.
Qed.

End sweep_loops.

Section sweep_passes.
Context (E : env).

Lemma NoDup_filenames es : NoDup (filenames es).
Proof.
  unfold filenames, names_where.
  eapply sublist_NoDup; [apply (NoDup_fst_map_to_list es)|].
  apply fmap_sublist, sublist_filter.
Qed.

Lemma lookup_foldl_delete (P : string → bool) (F : list string)
    (es0 : gmap string node) y :
  foldl (λ acc x, if P x then delete x acc else acc) es0 F !! y =
    if bool_decide (y ∈ F) && P y then None else es0 !! y.
Proof.
  revert es0. induction F as [|x F IH]; intros es0; simpl; [done|].
  rewrite IH. destruct (decide (y = x)) as [->|Hne].
  - rewrite (bool_decide_eq_true_2 (x ∈ x :: F)) by left. simpl.
    destruct (P x) eqn:HP.
    + rewrite lookup_delete_eq. by destruct (bool_decide _).
    + by rewrite andb_false_r.
  - assert (bool_decide (y ∈ x :: F) = bool_decide (y ∈ F)) as ->.
    { apply bool_decide_ext. set_solver. }
    destruct (bool_decide (y ∈ F) && P y); [done|].
    destruct (P x); [by rewrite lookup_delete_ne|done].
Qed.

(** One file of pass 1. *)
Lemma run_remove_if_invalid p x d es fs :
  node_at p fs = Some (Dir es) → es !! x = Some (File d) →
  runs_to E (remove_if_invalid p x) fs
    (subst p (Dir (if invalid_file x && negb (denied E (Remove (p ++ [x])))
                   then delete x es else es)) fs).
Proof.
  intros Hp Hx. unfold remove_if_invalid. cbv zeta.
  destruct (invalid_file x); cbn [andb negb].
  2:{ rewrite (subst_id _ _ _ Hp). by exists []. }
  assert (node_at (p ++ [x]) fs = Some (File d)) as Hpx by (by rewrite node_at_snoc, Hp).
  prog_unfold.
  destruct (denied E (Remove (p ++ [x]))) eqn:Hden; cbn [andb negb].
  - rewrite (subst_id _ _ _ Hp). eexists. rewrite run_try, run_bind. run_call.
    unfold exec at 1. rewrite Hden. cbn [refused]. run_simpl. run_call.
    by rewrite exec_print.
  - eexists. rewrite run_try, run_bind. run_call.
    unfold exec at 1. rewrite Hden. cbn [exec_ok].
    destruct (p ++ [x]) as [|y r] eqn:Hyr; [by destruct p|].
    rewrite Hpx. run_simpl. rewrite <-Hyr. run_call. rewrite exec_print. run_simpl.
    by rewrite (put_snoc _ _ _ _ _ Hp).
Qed.

(** The files of one directory in pass 1. *)
Lemma own_files_loop p (F : list string) :
  ∀ fs (es : gmap string node),
    node_at p fs = Some (Dir es) →
    (∀ x, x ∈ F → ∃ d, es !! x = Some (File d)) →
    NoDup F →
    runs_to E (for_ F (remove_if_invalid p)) fs
      (subst p (Dir (foldl (λ acc x,
                       if invalid_file x && negb (denied E (Remove (p ++ [x])))
                       then delete x acc else acc) es F)) fs).
Proof.
  induction F as [|x F IH]; intros fs es Hp HF Hnd.
  - simpl. rewrite (subst_id _ _ _ Hp). apply runs_to_nil.
  - apply NoDup_cons in Hnd as [Hx Hnd]. destruct (HF x) as [d Hd]; [left|].
    eapply runs_to_cons; [by eapply run_remove_if_invalid|].
    cbn [foldl].
    set (es1 := if invalid_file x && negb (denied E (Remove (p ++ [x])))
                then delete x es else es).
    assert (∀ n, subst p n fs = subst p n (subst p (Dir es1) fs)) as Hs
      by (intros; by rewrite subst_subst).
    assert (node_at p (subst p (Dir es1) fs) = Some (Dir es1)) as Hp1
      by (apply node_at_subst_eq; by rewrite Hp).
    set (fs1 := subst p (Dir es1) fs) in *. rewrite Hs. fold fs1. clearbody fs1.
    apply IH; try done.
    intros x' Hx'. destruct (HF x') as [d' Hd']; [by right|]. exists d'.
    subst es1. destruct (_ && _); [|done].
    rewrite lookup_delete_ne; [done|]. intros ->. done.
Qed.

(** Pass 1 on the tree [n] found at [p]. *)
Lemma pass1_node n :
  ∀ p fs, node_at p fs = Some n →
    runs_to E
      (for_ (walk false p n)
         (λ '(dirpath, dirnames, filenames),
            for_ filenames (remove_if_invalid dirpath)))
      fs (subst p (sweep_files E p n) fs).
Proof.
  induction n as [d|es IH] using node_ind'; intros p fs Hp.
  - simpl. rewrite (subst_id _ _ _ Hp). apply runs_to_nil.
  - rewrite walk_Dir. cbv zeta.
    set (g := λ x c, Some (sweep_files E (p ++ [x]) c)).
    eapply runs_to_app.
    { apply (children_loop E _ p g es); [|done].
      intros x c fs' Hx Hpx. by apply (IH x c Hx). }
    assert (node_at p (subst p (Dir (map_imap g es)) fs) = Some (Dir (map_imap g es)))
      as Hp1 by (apply node_at_subst_eq; by rewrite Hp).
    eapply runs_to_cons; [|apply runs_to_nil].
    assert (∀ n, subst p n fs = subst p n (subst p (Dir (map_imap g es)) fs)) as Hs
      by (intros; by rewrite subst_subst).
    set (fs1 := subst p (Dir (map_imap g es)) fs) in *. rewrite Hs. fold fs1. clearbody fs1.
    assert (sweep_files E p (Dir es) =
            Dir (foldl (λ acc x,
                   if invalid_file x && negb (denied E (Remove (p ++ [x])))
                   then delete x acc else acc) (map_imap g es) (filenames es))) as ->.
    { simpl. f_equal. apply map_eq. intros y.
      rewrite lookup_foldl_delete, !map_lookup_imap.
      destruct (es !! y) as [[d|es']|] eqn:Hy; simpl.
      - rewrite bool_decide_eq_true_2 by (apply elem_of_filenames; eauto). simpl.
        by destruct (_ && _).
      - rewrite bool_decide_eq_false_2; [done|].
        intros [d Hd]%elem_of_filenames. congruence.
      - by destruct (_ && _). }
    apply own_files_loop; [done| |apply NoDup_filenames].
    intros x [d Hd]%elem_of_filenames. exists d.
    by rewrite map_lookup_imap, Hd.
Qed.

(** One directory of pass 2. *)
Lemma run_remove_if_empty p es fs :
  node_at p fs = Some (Dir es) →
  runs_to E (remove_if_empty p) fs
    (if bool_decide (es = ∅) && can_rmdir E p then put p None fs else fs).
Proof.
  intros Hp. unfold remove_if_empty, can_rmdir. prog_unfold.
  destruct (denied E (Listdir p)) eqn:Hls.
  { eexists. rewrite run_try, run_bind. run_call. unfold exec at 1. rewrite Hls.
    cbn [refused]. run_simpl. run_call. rewrite exec_print. run_simpl.
    by rewrite andb_false_r, andb_false_l, andb_false_r. }
  destruct (decide ((map_to_list es).*1 = [])) as [Hnil|Hnil].
  - assert (es = ∅) as ->.
    { apply map_to_list_empty_iff. by destruct (map_to_list es). }
    rewrite bool_decide_eq_true_2 by done.
    destruct (denied E (Rmdir p)) eqn:Hrm.
    { eexists. rewrite run_try, run_bind. run_call. unfold exec at 1. rewrite Hls.
      cbn [exec_ok]. rewrite Hp. run_simpl. rewrite decide_True by done.
      rewrite run_bind. run_call. unfold exec at 1. rewrite Hrm.
      cbn [refused]. run_simpl. run_call. rewrite exec_print. run_simpl.
      by rewrite andb_false_r. }
    destruct p as [|y r].
    + eexists. rewrite run_try, run_bind. run_call. unfold exec at 1. rewrite Hls.
      cbn [exec_ok]. rewrite Hp. run_simpl. rewrite decide_True by done.
      rewrite run_bind. run_call. unfold exec at 1. rewrite Hrm.
      cbn [exec_ok]. rewrite Hp. run_simpl. run_call. rewrite exec_print. by run_simpl.
    + eexists. rewrite run_try, run_bind. run_call. unfold exec at 1. rewrite Hls.
      cbn [exec_ok]. rewrite Hp. run_simpl. rewrite decide_True by done.
      rewrite run_bind. run_call. unfold exec at 1. rewrite Hrm.
      cbn [exec_ok]. rewrite Hp. rewrite decide_True by done. run_simpl.
      run_call. rewrite exec_print. run_simpl.
      by rewrite bool_decide_eq_true_2.
  - rewrite bool_decide_eq_false_2.
    2:{ intros ->. by rewrite map_to_list_empty in Hnil. }
    eexists. rewrite run_try, run_bind. run_call. unfold exec at 1. rewrite Hls.
    cbn [exec_ok]. rewrite Hp. run_simpl. rewrite decide_False by done.
    cbn [run]. by run_simpl.
Qed.

Lemma put_None_subst p n' fs :
  p ≠ [] → is_Some (node_at p fs) → put p None (subst p n' fs) = put p None fs.
Proof.
  intros Hne [n Hn]. destruct (path_snoc_inv p Hne) as (P & x & ->).
  destruct (node_at_snoc_Some _ _ _ _ Hn) as (es & HP & Hx).
  rewrite (subst_app _ _ _ _ _ HP). simpl.
  rewrite (put_snoc P x None es fs HP).
  rewrite (put_snoc P x None (alter (λ _, n') x es)).
  2:{ apply node_at_subst_eq. by rewrite HP. }
  rewrite subst_subst. f_equal. f_equal. apply map_eq. intros y.
  destruct (decide (x = y)) as [->|].
  - by rewrite !lookup_partial_alter_eq.
  - by rewrite !lookup_partial_alter_ne, lookup_alter_ne.
Qed.

(** Pass 2 on the tree [n] found at [p]. *)
Lemma pass2_node n :
  ∀ p fs, node_at p fs = Some n →
    runs_to E
      (for_ (walk false p n)
         (λ '(dirpath, dirnames, filenames), remove_if_empty dirpath))
      fs (graft p (prune_dirs E p n) fs).
Proof.
  induction n as [d|es IH] using node_ind'; intros p fs Hp.
  - simpl. rewrite (subst_id _ _ _ Hp). apply runs_to_nil.
  - rewrite walk_Dir. cbv zeta.
    set (g := λ x c, prune_dirs E (p ++ [x]) c).
    eapply runs_to_app.
    { apply (children_loop E _ p g es); [|done].
      intros x c fs' Hx Hpx. by apply (IH x c Hx). }
    assert (node_at p (subst p (Dir (map_imap g es)) fs) = Some (Dir (map_imap g es)))
      as Hp1 by (apply node_at_subst_eq; by rewrite Hp).
    eapply runs_to_cons; [|apply runs_to_nil].
    cbn [prune_dirs]. fold g.
    pose proof (run_remove_if_empty p _ _ Hp1) as Hrun.
    destruct (bool_decide (map_imap g es = ∅) && can_rmdir E p) eqn:Hcond; simpl.
    + rewrite put_None_subst in Hrun; [done| |by rewrite Hp].
      apply andb_true_iff in Hcond as [_ Hc]. unfold can_rmdir in Hc.
      apply andb_true_iff in Hc as [Hc _]. apply andb_true_iff in Hc as [Hc _].
      by apply bool_decide_eq_true in Hc.
    + done.
Qed.

Lemma run_remove_invalid_files root fs :
  runs_to E (remove_invalid_files root) fs
    (if denied E (Walk false root) then fs
     else match node_at root fs with
          | Some n => subst root (sweep_files E root n) fs
          | None => fs
          end).
Proof.
  unfold remove_invalid_files. prog_unfold.
  destruct (denied E (Walk false root)) eqn:Hden.
  - eexists. rewrite run_bind. run_call. unfold exec at 1. rewrite Hden.
    cbn [refused]. run_simpl. by rewrite run_for_nil.
  - destruct (node_at root fs) as [n|] eqn:Hn.
    + destruct (pass1_node n root fs Hn) as [l Hl].
      exists l. rewrite run_bind. run_call. unfold exec at 1. rewrite Hden.
      cbn [exec_ok]. rewrite Hn. run_simpl. by rewrite_run Hl.
    + eexists. rewrite run_bind. run_call. unfold exec at 1. rewrite Hden.
      cbn [exec_ok]. rewrite Hn. run_simpl. by rewrite run_for_nil.
Qed.

Lemma run_remove_empty_dirs root fs :
  runs_to E (remove_empty_dirs root) fs
    (if denied E (Walk false root) then fs
     else match node_at root fs with
          | Some n => graft root (prune_dirs E root n) fs
          | None => fs
          end).
Proof.
  unfold remove_empty_dirs. prog_unfold.
  destruct (denied E (Walk false root)) eqn:Hden.
  - eexists. rewrite run_bind. run_call. unfold exec at 1. rewrite Hden.
    cbn [refused]. run_simpl. by rewrite run_for_nil.
  - destruct (node_at root fs) as [n|] eqn:Hn.
    + destruct (pass2_node n root fs Hn) as [l Hl].
      exists l. rewrite run_bind. run_call. unfold exec at 1. rewrite Hden.
      cbn [exec_ok]. rewrite Hn. run_simpl. by rewrite_run Hl.
    + eexists. rewrite run_bind. run_call. unfold exec at 1. rewrite Hden.
      cbn [exec_ok]. rewrite Hn. run_simpl. by rewrite run_for_nil.
Qed.

(** The sweep never raises and leaves the file system [swept]. *)
Lemma run_sweep root fs :
  runs_to E (remove_invalid_files_and_empty_dirs root) fs (swept E root fs).
Proof.
  unfold remove_invalid_files_and_empty_dirs, swept. prog_unfold.
  eapply runs_to_bind; [apply run_remove_invalid_files|].
  apply run_remove_empty_dirs.
Qed.

End sweep_passes.

(* ================================================================== *)
(** * The sweep: properties of the closed forms *)

Section sweep_closed_forms.

Lemma files_valid_child es x c :
  files_valid (Dir es) → es !! x = Some c → files_valid c.
Proof.
  intros Hv Hx q y d Hq. apply (Hv (x :: q) y d). simpl. by rewrite Hx.
Qed.

Lemma dirs_nonempty_child es x c :
  dirs_nonempty (Dir es) → es !! x = Some c → dirs_nonempty c.
Proof.
  intros Hv Hx q y d Hq. apply (Hv (x :: q) y d). simpl. by rewrite Hx.
Qed.

Lemma sweep_files_is_dir E p n : is_dir (sweep_files E p n) = is_dir n.
Proof. by destruct n. Qed.

(** A tree whose files all pass the test is left as it is by pass 1,
    whatever the system refuses. *)
Lemma sweep_files_id E n : ∀ p, files_valid n → sweep_files E p n = n.
Proof.
  induction n as [d|es IH] using node_ind'; intros p Hv; [done|].
  simpl. f_equal. apply map_eq. intros y. rewrite map_lookup_imap.
  destruct (es !! y) as [c|] eqn:Hy; simpl; [|done].
  destruct c as [d|es']; cbv beta iota.
  - rewrite (Hv [] y d); [done|]. simpl. by rewrite Hy.
  - f_equal. apply (IH y); [done|]. by eapply files_valid_child.
Qed.

(** When nothing is refused, pass 1 leaves only files that pass the test. *)
Lemma sweep_files_valid E n : ∀ p, no_refusal E → files_valid (sweep_files E p n).
Proof.
  induction n as [d|es IH] using node_ind'; intros p HE q x d' Hq.
  { simpl in Hq. apply mk_is_Some, node_at_File_inv in Hq. by destruct q. }
  destruct q as [|y q]; simpl in Hq; rewrite map_lookup_imap in Hq.
  - destruct (es !! x) as [c|] eqn:Hx; simpl in Hq; [|done].
    destruct c as [d|es']; cbv beta iota in Hq; [|done].
    rewrite HE in Hq. simpl in Hq. rewrite andb_true_r in Hq.
    by destruct (invalid_file x).
  - destruct (es !! y) as [c|] eqn:Hy; simpl in Hq; [|done].
    destruct c as [d|es']; cbv beta iota in Hq.
    + destruct (_ && _); [done|]. by destruct q.
    + by apply (IH y _ Hy (p ++ [y]) HE q x d').
Qed.

(** Pass 2 neither creates nor moves a file. *)
Lemma prune_dirs_file E n : ∀ p n' q d,
  prune_dirs E p n = Some n' →
  node_at q n' = Some (File d) → node_at q n = Some (File d).
Proof.
  induction n as [d0|es IH] using node_ind'; intros p n' q d Hpr Hq.
  { simpl in Hpr. by simplify_eq. }
  simpl in Hpr. destruct (_ && _); [done|]. simplify_eq.
  destruct q as [|y q]; [done|]. simpl in *. rewrite map_lookup_imap in Hq.
  destruct (es !! y) as [c|] eqn:Hy; simpl in Hq; [|done].
  destruct (prune_dirs E (p ++ [y]) c) as [c'|] eqn:Hc; [|done].
  by eapply (IH y c Hy).
Qed.

Lemma prune_dirs_valid E p n n' :
  prune_dirs E p n = Some n' → files_valid n → files_valid n'.
Proof.
  intros Hpr Hv q x d Hq. apply (Hv q x d). by eapply prune_dirs_file.
Qed.

(** When nothing is refused, pass 2 leaves no empty directory, except
    possibly the root [/] itself. *)
Lemma prune_dirs_nonempty E n : ∀ p n',
  no_refusal E → prune_dirs E p n = Some n' →
  dirs_nonempty n' ∧ (p ≠ [] → ∀ es, n' = Dir es → es ≠ ∅).
Proof.
  induction n as [d0|es IH] using node_ind'; intros p n' HE Hpr.
  { simpl in Hpr. simplify_eq. split; [|done].
    intros q x es Hq. apply mk_is_Some, node_at_File_inv in Hq. by destruct q. }
  simpl in Hpr.
  set (es' := map_imap (λ x c, prune_dirs E (p ++ [x]) c) es) in *.
  destruct (bool_decide (es' = ∅) && can_rmdir E p) eqn:Hcond; [done|].
  simplify_eq. split.
  - intros q x e Hq. destruct q as [|y q]; simpl in Hq.
    + subst es'. rewrite map_lookup_imap in Hq.
      destruct (es !! x) as [c|] eqn:Hx; simpl in Hq; [|done].
      destruct (prune_dirs E (p ++ [x]) c) as [c'|] eqn:Hc; [|done].
      simplify_eq.
      destruct (IH x c Hx _ _ HE Hc) as [_ Hne]. apply Hne; [by destruct p|done].
    + subst es'. rewrite map_lookup_imap in Hq.
      destruct (es !! y) as [c|] eqn:Hy; simpl in Hq; [|done].
      destruct (prune_dirs E (p ++ [y]) c) as [c'|] eqn:Hc; [|done].
      destruct (IH y c Hy _ _ HE Hc) as [Hd _]. by apply (Hd q x e).
  - intros Hp e [= <-] He.
    apply andb_false_iff in Hcond as [Hc|Hc].
    + by apply bool_decide_eq_false in Hc.
    + unfold can_rmdir in Hc. rewrite !HE in Hc. simpl in Hc.
      rewrite !andb_true_r in Hc. by apply bool_decide_eq_false in Hc.
Qed.

(** A tree without empty directories is left as it is by pass 2,
    whatever the system refuses. *)
Lemma prune_dirs_id E n : ∀ p,
  dirs_nonempty n →
  (∀ es, n = Dir es → es = ∅ → can_rmdir E p = false) →
  prune_dirs E p n = Some n.
Proof.
  induction n as [d0|es IH] using node_ind'; intros p Hd Htop; [done|].
  simpl.
  assert (map_imap (λ x c, prune_dirs E (p ++ [x]) c) es = es) as ->.
  { apply map_eq. intros y. rewrite map_lookup_imap.
    destruct (es !! y) as [c|] eqn:Hy; simpl; [|done].
    apply (IH y c Hy); [by eapply dirs_nonempty_child|].
    intros e -> ->. destruct (Hd [] y ∅); [|done]. simpl. by rewrite Hy. }
  destruct (bool_decide (es = ∅)) eqn:He; [|done].
  apply bool_decide_eq_true in He. by rewrite (Htop es eq_refl He).
Qed.

(** A file the test condemns is gone after pass 1 unless the system
    refused to delete it. *)
Lemma sweep_files_removes E n : ∀ p q x d,
  node_at (q ++ [x]) n = Some (File d) →
  invalid_file x = true →
  denied E (Remove ((p ++ q) ++ [x])) = false →
  node_at (q ++ [x]) (sweep_files E p n) = None.
Proof.
  induction n as [d0|es IH] using node_ind'; intros p q x d Hq Hinv Hden.
  { apply mk_is_Some, node_at_File_inv in Hq. by destruct q. }
  destruct q as [|y q]; simpl in *; rewrite map_lookup_imap.
  - destruct (es !! x) as [c|] eqn:Hx; simpl; [|done].
    destruct c as [d1|es']; cbv beta iota; [|done].
    rewrite app_nil_r in Hden. by rewrite Hinv, Hden.
  - destruct (es !! y) as [c|] eqn:Hy; simpl; [|done].
    destruct c as [d1|es']; cbv beta iota.
    + by destruct q.
    + apply (IH y _ Hy (p ++ [y]) q x d); [done|done|].
      by rewrite <-(assoc_L (++) p [y] q).
Qed.

(** Pass 2 brings nothing back. *)
Lemma prune_dirs_absent E n : ∀ p n' q,
  prune_dirs E p n = Some n' → node_at q n = None → node_at q n' = None.
Proof.
  induction n as [d0|es IH] using node_ind'; intros p n' q Hpr Hq.
  { simpl in Hpr. by simplify_eq. }
  simpl in Hpr. destruct (_ && _); [done|]. simplify_eq.
  destruct q as [|y q]; [done|]. simpl in *. rewrite map_lookup_imap.
  destruct (es !! y) as [c|] eqn:Hy; simpl; [|done].
  destruct (prune_dirs E (p ++ [y]) c) as [c'|] eqn:Hc; [|done].
  by eapply (IH y c Hy).
Qed.

End sweep_closed_forms.

Section swept_facts.

Lemma can_rmdir_root E : can_rmdir E [] = false.
Proof. unfold can_rmdir. by rewrite bool_decide_eq_false_2 by (by intros ?). Qed.

Lemma swept_absent E root fs : node_at root fs = None → swept E root fs = fs.
Proof.
  intros Hn. unfold swept. destruct (denied E _); [done|]. by rewrite !Hn.
Qed.

(** A tree that is already tidy is a fixed point of the sweep. *)
Lemma swept_tidy E root fs n :
  node_at root fs = Some n →
  files_valid n → dirs_nonempty n →
  (∀ es, n = Dir es → es = ∅ → root = []) →
  swept E root fs = fs.
Proof.
  intros Hn Hv Hd Htop. unfold swept. destruct (denied E _); [done|].
  rewrite Hn, (sweep_files_id E n root Hv), (subst_id _ _ _ Hn), Hn.
  rewrite prune_dirs_id; [by apply subst_id|done|].
  intros es -> ->. rewrite (Htop ∅); [apply can_rmdir_root|done..].
Qed.

Lemma swept_twice E1 E2 root fs :
  no_refusal E1 → swept E2 root (swept E1 root fs) = swept E1 root fs.
Proof.
  intros HE. destruct (node_at root fs) as [n|] eqn:Hn.
  2:{ rewrite (swept_absent E1) by done. by apply swept_absent. }
  unfold swept at 2 3. rewrite HE, Hn.
  set (n1 := sweep_files E1 root n).
  assert (node_at root (subst root n1 fs) = Some n1) as Hn1
    by (apply node_at_subst_eq; by rewrite Hn).
  rewrite Hn1. set (fs1 := subst root n1 fs) in *. clearbody fs1.
  assert (files_valid n1) as Hv1 by (by apply sweep_files_valid).
  destruct (prune_dirs E1 root n1) as [n2|] eqn:Hpr; simpl.
  - destruct (prune_dirs_nonempty E1 n1 root n2 HE Hpr) as [Hd2 Htop].
    apply swept_tidy with n2.
    + apply node_at_subst_eq. by rewrite Hn1.
    + by eapply prune_dirs_valid.
    + done.
    + intros es -> ->. destruct root as [|y r]; [done|]. by destruct (Htop ltac:(done) ∅).
  - apply swept_absent. destruct n1 as [d|es1]; [done|]. simpl in Hpr.
    destruct (bool_decide _ && can_rmdir E1 root) eqn:Hc; [|done].
    apply andb_true_iff in Hc as [_ Hc]. unfold can_rmdir in Hc.
    apply andb_true_iff in Hc as [Hc _]. apply andb_true_iff in Hc as [Hc _].
    apply bool_decide_eq_true in Hc. by eapply unlink_dir_gone.
Qed.

End swept_facts.

(* ================================================================== *)
(** * Updates seen from a path apart *)

Lemma apart_sym p q : apart p q → apart q p.
Proof. intros [??]. by split. Qed.

Lemma apart_diverge p q :
  apart p q → ∃ c x y p' q', x ≠ y ∧ p = c ++ x :: p' ∧ q = c ++ y :: q'.
Proof. intros [Hp Hq]. by destruct (path_cases p q) as [?|[?|?]]. Qed.

Lemma apart_below p q r : apart p q → apart p (q ++ r).
Proof.
  intros (c & x & y & p' & q' & Hxy & -> & ->)%apart_diverge.
  rewrite <-(assoc_L (++)). simpl. split.
  - intros [k Hk]. rewrite <-!(assoc_L (++)) in Hk. simplify_list_eq.
  - intros [k Hk]. rewrite <-!(assoc_L (++)) in Hk. simplify_list_eq.
Qed.

Lemma apart_above p q q' : apart p q → q' `prefix_of` q → ¬ p `prefix_of` q'.
Proof. intros [Hp _] Hq' Hpq'. apply Hp. by etrans. Qed.

Lemma node_at_subst_apart p q n' fs :
  apart p q → node_at q (subst p n' fs) = node_at q fs.
Proof.
  intros (c & x & y & p' & q' & Hxy & -> & ->)%apart_diverge.
  by apply node_at_subst_diverge.
Qed.

Lemma node_at_above_dir q r fs :
  r ≠ [] → is_Some (node_at (q ++ r) fs) → dir_at q fs.
Proof.
  intros Hr Hs. rewrite node_at_app in Hs.
  destruct (node_at q fs) as [[d|es]|] eqn:Hq; simpl in Hs.
  - destruct r; [done|]. by destruct Hs.
  - by eexists.
  - by destruct Hs.
Qed.

Lemma file_at_subst_above q p n' fs :
  is_Some (node_at p fs) → q `prefix_of` p → q ≠ p →
  file_at q (subst p n' fs) ↔ file_at q fs.
Proof.
  intros Hp [r ->] Hne.
  assert (r ≠ []) as Hr by (intros ->; by rewrite (right_id_L [] (++)) in Hne).
  split; intros Hf; exfalso.
  - eapply dir_at_file_at_excl; [|exact Hf]. by apply node_at_subst_above.
  - eapply dir_at_file_at_excl; [|exact Hf]. by eapply node_at_above_dir.
Qed.

(* ================================================================== *)
(** * [os.makedirs] seen from elsewhere *)

Lemma node_at_empty_dir q : q ≠ [] → node_at q (Dir ∅) = None.
Proof. by destruct q. Qed.

Lemma mkdirs_None p fs :
  mkdirs p fs = None ↔ ∃ q, q `prefix_of` p ∧ file_at q fs.
Proof.
  revert fs. induction p as [|x p IH]; intros [d|es].
  - split; [|done]. intros _. exists []. split; [done|]. by exists d.
  - split; [done|]. intros (q & Hq%prefix_nil_inv & [d Hd]). by subst q.
  - split; [|done]. intros _. exists []. split; [apply prefix_nil|]. by exists d.
  - simpl. destruct (mkdirs p (default (Dir ∅) (es !! x))) as [c|] eqn:Hc.
    + split; [done|]. intros ([|y q] & Hq & [d Hd]); [done|].
      apply prefix_cons_inv_1 in Hq as Hxy. apply prefix_cons_inv_2 in Hq. subst y.
      simpl in Hd. assert (mkdirs p (default (Dir ∅) (es !! x)) = None) as Hn; [|congruence].
      apply IH. exists q. split; [done|]. exists d.
      destruct (es !! x) as [c0|]; done.
    + split; [|done]. intros _. apply IH in Hc as (q & Hq & [d Hd]).
      exists (x :: q). split; [by apply prefix_cons|]. exists d. simpl.
      destruct (es !! x) as [c0|]; [done|]. simpl in Hd.
      destruct q; [done|]. done.
Qed.

Lemma mkdirs_elsewhere p fs fs' q :
  mkdirs p fs = Some fs' → ¬ q `prefix_of` p → node_at q fs' = node_at q fs.
Proof.
  revert fs fs' q. induction p as [|x p IH]; intros [d|es] fs' q; simpl; try done.
  - by intros [= <-].
  - destruct (mkdirs p _) as [c|] eqn:Hc; [|done]. intros [= <-] Hq.
    destruct q as [|y q]; [by destruct Hq; apply prefix_nil|]. simpl.
    destruct (decide (x = y)) as [->|Hxy]; [|by rewrite lookup_insert_ne].
    rewrite lookup_insert_eq.
    assert (¬ q `prefix_of` p) as Hq' by (intros ?; by apply Hq, prefix_cons).
    rewrite (IH _ _ q Hc Hq').
    destruct (es !! y) as [c0|]; [done|]. simpl. apply node_at_empty_dir.
    intros ->. apply Hq', prefix_nil.
Qed.

Lemma mkdirs_target p fs fs' :
  mkdirs p fs = Some fs' → node_at p fs' = Some (default (Dir ∅) (node_at p fs)).
Proof.
  revert fs fs'. induction p as [|x p IH]; intros [d|es] fs'; simpl; try done.
  destruct (mkdirs p _) as [c|] eqn:Hc; [|done]. intros [= <-]. simpl.
  rewrite lookup_insert_eq, (IH _ _ Hc).
    destruct (es !! x) as [c0|]; [done|]. simpl. by destruct p.
Qed.

Lemma mkdirs_files p fs fs' q :
  mkdirs p fs = Some fs' → file_at q fs' ↔ file_at q fs.
Proof.
  intros Hm. split.
  - intros Hf. destruct (decide (q `prefix_of` p)) as [[r ->]|Hq].
    + exfalso. eapply dir_at_file_at_excl; [|exact Hf].
      pose proof (mkdirs_dir_at _ _ _ Hm) as [es Hes].
      destruct r as [|y r]; [rewrite (right_id_L [] (++)) in Hes; by eexists|].
      eapply node_at_above_dir; [|by rewrite Hes]. done.
    + unfold file_at in *. by rewrite <-(mkdirs_elsewhere _ _ _ _ Hm Hq).
  - intros [d Hd]. exists d. by apply (mkdirs_keeps _ _ _ q Hm).
Qed.

Lemma mkdirs_existing p fs : dir_at p fs → mkdirs p fs = Some fs.
Proof.
  revert fs. induction p as [|x p IH]; intros [d|es] [es' H]; simpl in *; try done.
  destruct (es !! x) as [c|] eqn:Hx; [|done]. simpl.
  rewrite IH by (by eexists). by rewrite insert_id.
Qed.

(* ================================================================== *)
(** * Updates below a directory, seen from that directory *)

Lemma put_under S q v n fs :
  node_at S fs = Some n → q ≠ [] → put (S ++ q) v fs = subst S (put q v n) fs.
Proof.
  revert fs. induction S as [|y S IH]; intros fs.
  - simpl. by intros [= ->].
  - destruct fs as [d|es]; [done|]. simpl node_at.
    destruct (es !! y) as [c|] eqn:Hy; [|done].
    intros H Hq. rewrite <-app_comm_cons, put_cons by (by destruct S, q). simpl.
    f_equal. apply map_eq. intros k. rewrite !lookup_alter.
    case_decide; [|done]. rewrite Hy. simpl. f_equal. by apply IH.
Qed.

Lemma mkdirs_under S q n fs :
  node_at S fs = Some n →
  mkdirs (S ++ q) fs = (λ n', subst S n' fs) <$> mkdirs q n.
Proof.
  revert fs. induction S as [|y S IH]; intros fs.
  - simpl. intros [= ->]. by destruct (mkdirs q n).
  - destruct fs as [d|es]; [done|]. simpl node_at.
    destruct (es !! y) as [c|] eqn:Hy; [|done].
    intros H. simpl. rewrite Hy. simpl. rewrite (IH _ H).
    destruct (mkdirs q n) as [n'|]; [|done]. simpl. do 2 f_equal.
    apply map_eq. intros k. rewrite lookup_alter.
    destruct (decide (k = y)) as [->|Hk].
    + rewrite lookup_insert_eq. case_decide; [|done]. by rewrite Hy.
    + rewrite lookup_insert_ne by done. by case_decide.
Qed.

Lemma write_file_snoc P x d fs :
  write_file (P ++ [x]) d fs =
    match node_at P fs, node_at (P ++ [x]) fs with
    | Some (Dir _), Some (Dir _) => None
    | Some (Dir _), _ => Some (put (P ++ [x]) (Some (File d)) fs)
    | _, _ => None
    end.
Proof.
  unfold write_file. rewrite parent_snoc. by destruct P.
Qed.

Lemma write_file_under S q d n fs :
  node_at S fs = Some n → q ≠ [] →
  write_file (S ++ q) d fs = (λ n', subst S n' fs) <$> write_file q d n.
Proof.
  intros Hn Hq. destruct (path_snoc_inv q Hq) as (Q & x & ->).
  rewrite (assoc_L (++)), !write_file_snoc, <-(assoc_L (++)).
  rewrite !(node_at_app S _ fs), Hn. simpl.
  destruct (node_at Q n) as [[?|?]|]; [done| |done].
  destruct (node_at (Q ++ [x]) n) as [[?|?]|]; simpl; try done.
  - by rewrite (put_under _ _ _ _ _ Hn).
  - by rewrite (put_under _ _ _ _ _ Hn).
Qed.

Lemma write_file_on_dir p d fs : dir_at p fs → write_file p d fs = None.
Proof.
  intros [es Hes]. unfold write_file. destruct p as [|y p]; [done|].
  rewrite Hes. by destruct (node_at (parent (y :: p)) fs) as [[?|?]|].
Qed.

Lemma extract_member_under S m es fs :
  node_at S fs = Some (Dir es) →
  extract_member S m fs = (λ n', subst S n' fs) <$> extract_member [] m (Dir es).
Proof.
  intros Hn. destruct m as [mp [d|]]; unfold extract_member; cbn [fst snd app].
  - destruct (decide (mp = [])) as [->|Hmp].
    + rewrite (right_id_L [] (++)).
      change (mkdirs (parent []) (Dir es)) with (Some (Dir es)). cbn [write_file fmap option_fmap option_map].
      destruct (mkdirs (parent S) fs) as [fs1|] eqn:H1; [|done].
      apply write_file_on_dir. apply (mkdirs_keeps _ _ _ S H1). by eexists.
    + destruct (path_snoc_inv mp Hmp) as (Q & x & ->).
      rewrite (assoc_L (++)), !parent_snoc, (mkdirs_under _ _ _ _ Hn).
      destruct (mkdirs Q (Dir es)) as [n1|]; [|done]. simpl.
      rewrite <-(assoc_L (++)).
      rewrite (write_file_under S (Q ++ [x]) d n1);
        [|apply node_at_subst_eq; by rewrite Hn|by destruct Q].
      destruct (write_file (Q ++ [x]) d n1) as [n2|]; [|done].
      simpl. by rewrite subst_subst.
  - by rewrite (mkdirs_under _ _ _ _ Hn).
Qed.

Lemma extract_members_under S ms es fs :
  node_at S fs = Some (Dir es) →
  extract_members S ms fs =
    (subst S (extract_members [] ms (Dir es)).1 fs, (extract_members [] ms (Dir es)).2).
Proof.
  revert es fs. induction ms as [|m ms IH]; intros es fs Hn; cbn [extract_members].
  - simpl. by rewrite subst_id.
  - rewrite (extract_member_under _ _ _ _ Hn).
    destruct (extract_member [] m (Dir es)) as [n1|] eqn:H1; simpl.
    + destruct (extract_member_dir [] m (Dir es) n1 [] H1) as [es1 [= ->]]; [by eexists|].
      rewrite (IH es1) by (apply node_at_subst_eq; by rewrite Hn).
      by rewrite subst_subst.
    + by rewrite subst_id.
Qed.

(* ================================================================== *)
(** * The view of a unit *)

Lemma same_view_refl t fs : same_view t fs fs.
Proof. by split. Qed.

Lemma same_view_sym t fs1 fs2 : same_view t fs1 fs2 → same_view t fs2 fs1.
Proof. intros [H1 H2 H3 H4]. split; try done. intros q Hq. by rewrite H4. Qed.

Lemma same_view_trans t fs1 fs2 fs3 :
  same_view t fs1 fs2 → same_view t fs2 fs3 → same_view t fs1 fs3.
Proof.
  intros [H1 H2 H3 H4] [G1 G2 G3 G4]. split; try congruence.
  intros q Hq. by rewrite H4, G4.
Qed.

Lemma same_view_below t q fs1 fs2 :
  same_view t fs1 fs2 →
  node_at (staging_dir t ++ q) fs1 = node_at (staging_dir t ++ q) fs2.
Proof. intros [H ???]. by rewrite !node_at_app, H. Qed.

Lemma staging_dir_snoc t : ∃ P x, staging_dir t = P ++ [x].
Proof. destruct t as [[[[pid date] sid] inp] outp]. by eexists _, _. Qed.

Lemma staging_dir_nonempty t : staging_dir t ≠ [].
Proof. destruct (staging_dir_snoc t) as (P & x & ->). by destruct P. Qed.

(** Replacing the staging directory of [t] in both. *)
Lemma same_view_subst t n' fs1 fs2 :
  inputs_clear t t → same_view t fs1 fs2 →
  is_Some (node_at (staging_dir t) fs1) →
  same_view t (subst (staging_dir t) n' fs1) (subst (staging_dir t) n' fs2).
Proof.
  intros [Ha Hj] [H1 H2 H3 H4] Hs.
  assert (is_Some (node_at (staging_dir t) fs2)) as Hs2 by (by rewrite <-H1).
  split.
  - by rewrite !node_at_subst_eq.
  - by rewrite !node_at_subst_apart by (by apply apart_sym).
  - by rewrite !node_at_subst_apart by (by apply apart_sym).
  - intros q Hq. destruct (decide (q = staging_dir t)) as [->|Hne].
    + unfold file_at. by rewrite !node_at_subst_eq.
    + rewrite !file_at_subst_above by done. by apply H4.
Qed.

(** Unlinking a directory, seen from the paths that do not lead through it. *)
Lemma unlink_frame S es fs q :
  S ≠ [] → node_at S fs = Some (Dir es) → ¬ S `prefix_of` q →
  (file_at q (put S None fs) ↔ file_at q fs)
  ∧ (¬ q `prefix_of` S → node_at q (put S None fs) = node_at q fs).
Proof.
  intros HS Hes Hq. destruct (path_snoc_inv S HS) as (P & x & ->).
  destruct (node_at_snoc_Some _ _ _ _ Hes) as (esP & HP & _).
  destruct (node_at_put_cases P x None esP fs q HP) as [(r & -> & _)|[(Hp & Hd & Hd')|Heq]].
  - destruct Hq. exists r. by rewrite <-(assoc_L (++)).
  - split.
    + split; intros Hf; exfalso.
      * exact (dir_at_file_at_excl _ _ Hd' Hf).
      * exact (dir_at_file_at_excl _ _ Hd Hf).
    + intros Hn. destruct Hn. etrans; [done|]. by eexists.
  - unfold file_at. by rewrite Heq.
Qed.

(** What a call of another unit leaves of the view of [t]. *)
Lemma same_view_touch t t' fs fs' :
  separate t t' → touches t' fs fs' → same_view t fs fs'.
Proof.
  intros [[HS HS'] [[Ha Ha'] [Hj Hj']]] [->|[(n' & Hs & ->)|[(Hne & [es Hes] & ->)|(p & Hp & Hm)]]].
  - apply same_view_refl.
  - split.
    + by rewrite node_at_subst_apart.
    + by rewrite node_at_subst_apart.
    + by rewrite node_at_subst_apart.
    + intros q Hq. destruct (path_cases q (staging_dir t')) as [Hq'|[Hq'|Hq']].
      * rewrite file_at_subst_above; [done..|]. intros ->. by apply HS'.
      * destruct HS'. by etrans.
      * unfold file_at. rewrite node_at_subst_apart; [done|].
        destruct Hq' as (c & x & y & p' & q' & Hxy & -> & ->).
        split; intros [k Hk]; rewrite <-!(assoc_L (++)) in Hk; simplify_list_eq.
  - split.
    + symmetry. by apply (unlink_frame _ _ _ _ Hne Hes).
    + symmetry. by apply (unlink_frame _ _ _ _ Hne Hes).
    + symmetry. by apply (unlink_frame _ _ _ _ Hne Hes).
    + intros q Hq. symmetry. apply (unlink_frame _ _ _ _ Hne Hes).
      intros Hq'. apply HS'. by etrans.
  - split.
    + symmetry. apply (mkdirs_elsewhere _ _ _ _ Hm). intros ?. apply HS. by etrans.
    + symmetry. apply (mkdirs_elsewhere _ _ _ _ Hm). intros ?. apply Ha. by etrans.
    + symmetry. apply (mkdirs_elsewhere _ _ _ _ Hm). intros ?. apply Hj. by etrans.
    + intros q Hq. symmetry. by apply (mkdirs_files _ _ _ _ Hm).
Qed.

(* ================================================================== *)
(** * A call of a unit depends on its view only *)

Lemma write_file_absent S q d fs :
  node_at S fs = None → q ≠ [] → write_file (S ++ q) d fs = None.
Proof.
  intros Hn Hq. destruct (path_snoc_inv q Hq) as (Q & x & ->).
  by rewrite (assoc_L (++)), write_file_snoc, node_at_app, Hn.
Qed.

Lemma write_file_below S q d fs fs' :
  q ≠ [] → write_file (S ++ q) d fs = Some fs' →
  ∃ n', is_Some (node_at S fs) ∧ fs' = subst S n' fs.
Proof.
  intros Hq Hw. destruct (node_at S fs) as [n|] eqn:Hn.
  - rewrite (write_file_under _ _ _ _ _ Hn Hq) in Hw.
    destruct (write_file q d n) as [n'|]; [|done]. simplify_eq/=. by eexists.
  - by rewrite write_file_absent in Hw.
Qed.

Lemma mapM_ext_Forall {A B} (f g : A → option B) l :
  Forall (λ x, f x = g x) l → mapM f l = mapM g l.
Proof. induction 1 as [|x l Hx _ IH]; simpl; [done|]. by rewrite Hx, IH. Qed.

Lemma exec_ok_remove E p fs :
  p ≠ [] →
  exec_ok E (Remove p) fs =
    match node_at p fs with
    | Some (File _) => (inr tt, put p None fs)
    | Some _ => (inl IsADirectoryError, fs)
    | None => (inl FileNotFoundError, fs)
    end.
Proof. by destruct p. Qed.

Lemma exec_ok_rmtree E p fs :
  p ≠ [] →
  exec_ok E (Rmtree p) fs =
    match node_at p fs with
    | Some (Dir _) => (inr tt, put p None fs)
    | _ => (inr tt, fs)
    end.
Proof. by destruct p. Qed.

Section own_calls.
Context (E : env) (t : task).
Context (Hclear : inputs_clear t t).

#[local] Arguments node_at : simpl never.
#[local] Arguments put : simpl never.
#[local] Arguments mkdirs : simpl never.
#[local] Arguments write_file : simpl never.
#[local] Arguments extract_members : simpl never.


Lemma write_file_same_view q d fs1 fs2 :
  same_view t fs1 fs2 → q ≠ [] →
  match write_file (staging_dir t ++ q) d fs1, write_file (staging_dir t ++ q) d fs2 with
  | Some a, Some b => same_view t a b
  | None, None => True
  | _, _ => False
  end.
Proof using Hclear.
  intros Hv Hq. pose proof (view_staging _ _ _ Hv) as Hs.
  destruct (node_at (staging_dir t) fs1) as [n|] eqn:Hn.
  - rewrite (write_file_under _ _ _ _ fs1 Hn Hq), (write_file_under _ _ _ n fs2) by done.
    destruct (write_file q d n) as [n'|]; [|done]. simpl.
    apply same_view_subst; [done..|]. by rewrite Hn.
  - by rewrite !write_file_absent.
Qed.

Lemma makedirs_same_view p fs1 fs2 :
  p `prefix_of` staging_dir t → same_view t fs1 fs2 →
  agree t (exec_ok E (Makedirs p) fs1) (exec_ok E (Makedirs p) fs2).
Proof using Hclear.
  intros Hp Hv. destruct Hclear as [[Ha _] [Hj _]]. cbn [exec_ok].
  destruct (mkdirs p fs1) as [a|] eqn:H1, (mkdirs p fs2) as [b|] eqn:H2.
  - split; [done|]. simpl. split.
    + destruct (decide (p = staging_dir t)) as [->|Hne].
      * rewrite (mkdirs_target _ _ _ H1), (mkdirs_target _ _ _ H2).
        by rewrite (view_staging _ _ _ Hv).
      * assert (¬ staging_dir t `prefix_of` p) as Hn.
        { intros Hq. apply Hne. by apply (anti_symm prefix). }
        rewrite (mkdirs_elsewhere _ _ _ _ H1 Hn), (mkdirs_elsewhere _ _ _ _ H2 Hn).
        apply Hv.
    + rewrite (mkdirs_elsewhere _ _ _ _ H1), (mkdirs_elsewhere _ _ _ _ H2);
        [apply Hv|intros ?; apply Ha; by etrans..].
    + rewrite (mkdirs_elsewhere _ _ _ _ H1), (mkdirs_elsewhere _ _ _ _ H2);
        [apply Hv|intros ?; apply Hj; by etrans..].
    + intros q Hq. rewrite (mkdirs_files _ _ _ q H1), (mkdirs_files _ _ _ q H2).
      by apply Hv.
  - exfalso. apply mkdirs_None in H2 as (q & Hq & Hf).
    assert (mkdirs p fs1 = None) as Hn; [|congruence].
    apply mkdirs_None. exists q. split; [done|]. apply (view_above _ _ _ Hv); [by etrans|done].
  - exfalso. apply mkdirs_None in H1 as (q & Hq & Hf).
    assert (mkdirs p fs2 = None) as Hn; [|congruence].
    apply mkdirs_None. exists q. split; [done|]. apply (view_above _ _ _ Hv); [by etrans|done].
  - split; [|done]. cbn [fst].
    destruct (view_above _ _ _ Hv p Hp) as [H12 H21]. unfold file_at in H12, H21.
    destruct (node_at p fs1) as [[d1|?]|], (node_at p fs2) as [[d2|?]|]; try done;
      try (by destruct H12 as [? ?]; [eexists|]); by destruct H21 as [? ?]; [eexists|].
Qed.

Lemma copy2_same_view src x fs1 fs2 :
  src = archive_path t ∨ src = sidecar_path t → same_view t fs1 fs2 →
  agree t (exec_ok E (Copy2 src (staging_dir t ++ [x])) fs1)
        (exec_ok E (Copy2 src (staging_dir t ++ [x])) fs2).
Proof using Hclear.
  intros Hsrc Hv. cbn [exec_ok].
  assert (node_at src fs1 = node_at src fs2) as ->.
  { destruct Hsrc as [-> | ->]; apply Hv. }
  destruct (node_at src fs2) as [[d|?]|]; [|by split..].
  rewrite (same_view_below t [x] fs1 fs2 Hv).
  assert (∀ q, q ≠ [] →
    agree t (if decide (staging_dir t ++ q = src) then (inl SameFileError, fs1)
           else match write_file (staging_dir t ++ q) d fs1 with
                | Some fs' => (inr tt, fs')
                | None => (@inl exn unit OSError, fs1)
                end)
          (if decide (staging_dir t ++ q = src) then (inl SameFileError, fs2)
           else match write_file (staging_dir t ++ q) d fs2 with
                | Some fs' => (inr tt, fs')
                | None => (inl OSError, fs2)
                end)) as Hw.
  { intros q Hq. case_decide; [by split|].
    pose proof (write_file_same_view q d fs1 fs2 Hv Hq) as H'.
    destruct (write_file _ d fs1), (write_file _ d fs2); by split. }
  destruct (node_at (staging_dir t ++ [x]) fs2) as [[?|?]|].
  - by apply Hw.
  - rewrite <-(assoc_L (++)). by apply Hw.
  - by apply Hw.
Qed.

Lemma extractall_same_view x fs1 fs2 :
  same_view t fs1 fs2 →
  agree t (exec_ok E (ExtractAll (staging_dir t ++ [x]) (staging_dir t)) fs1)
        (exec_ok E (ExtractAll (staging_dir t ++ [x]) (staging_dir t)) fs2).
Proof using Hclear.
  intros Hv. cbn [exec_ok]. rewrite (same_view_below t [x] fs1 fs2 Hv).
  destruct (node_at (staging_dir t ++ [x]) fs2) as [[d|?]|] eqn:Hz; [|by split..].
  destruct (node_at_snoc_Some _ _ _ _ Hz) as (es & H2 & _).
  pose proof (view_staging _ _ _ Hv) as H1. rewrite H2 in H1.
  destruct (unzip E d) as [ms status].
  rewrite (extract_members_under _ ms es fs1 H1), (extract_members_under _ ms es fs2 H2).
  destruct (extract_members [] ms (Dir es)) as [n' w]. cbn [fst snd].
  assert (same_view t (subst (staging_dir t) n' fs1) (subst (staging_dir t) n' fs2)).
  { apply same_view_subst; [done..|]. by rewrite H1. }
  destruct w; [destruct status|]; by split.
Qed.

Lemma remove_same_view q fs1 fs2 :
  q ≠ [] → same_view t fs1 fs2 →
  agree t (exec_ok E (Remove (staging_dir t ++ q)) fs1)
        (exec_ok E (Remove (staging_dir t ++ q)) fs2).
Proof using Hclear.
  intros Hq Hv. rewrite !exec_ok_remove by (by destruct (staging_dir t), q).
  rewrite (same_view_below t q fs1 fs2 Hv).
  destruct (node_at (staging_dir t ++ q) fs2) as [[d|?]|] eqn:Hz; [|by split..].
  destruct (node_at_prefix_Some (staging_dir t) (staging_dir t ++ q) fs2) as [n H2];
    [by eexists|by rewrite Hz|].
  pose proof (view_staging _ _ _ Hv) as H1. rewrite H2 in H1.
  rewrite (put_under _ _ _ _ fs1 H1 Hq), (put_under _ _ _ _ fs2 H2 Hq).
  split; [done|]. apply same_view_subst; [done..|]. by rewrite H1.
Qed.

Lemma rmtree_same_view fs1 fs2 :
  same_view t fs1 fs2 →
  agree t (exec_ok E (Rmtree (staging_dir t)) fs1) (exec_ok E (Rmtree (staging_dir t)) fs2).
Proof using Hclear.
  intros Hv. pose proof (staging_dir_nonempty t) as Hne.
  rewrite !exec_ok_rmtree by done.
  pose proof (view_staging _ _ _ Hv) as H1.
  destruct (node_at (staging_dir t) fs2) as [[?|es]|] eqn:H2; rewrite H1; [by split| |by split].
  destruct Hclear as [[Ha Ha'] [Hj Hj']].
  split; [done|]. cbn [snd]. split.
  - by rewrite !(unlink_dir_gone _ es).
  - rewrite (proj2 (unlink_frame _ es fs1 _ Hne H1 Ha')) by done.
    rewrite (proj2 (unlink_frame _ es fs2 _ Hne H2 Ha')) by done. apply Hv.
  - rewrite (proj2 (unlink_frame _ es fs1 _ Hne H1 Hj')) by done.
    rewrite (proj2 (unlink_frame _ es fs2 _ Hne H2 Hj')) by done. apply Hv.
  - intros q Hq. destruct (decide (q = staging_dir t)) as [->|Hq'].
    + unfold file_at. by rewrite !(unlink_dir_gone _ es).
    + assert (¬ staging_dir t `prefix_of` q) as Hn.
      { intros ?. apply Hq'. by apply (anti_symm prefix). }
      rewrite (proj1 (unlink_frame _ es fs1 q Hne H1 Hn)).
      rewrite (proj1 (unlink_frame _ es fs2 q Hne H2 Hn)). by apply Hv.
Qed.

Lemma read_same_view files fs1 fs2 :
  Forall (λ p, staging_dir t `prefix_of` p) files → same_view t fs1 fs2 →
  agree t (exec_ok E (ReadSeries files) fs1) (exec_ok E (ReadSeries files) fs2).
Proof.
  intros Hf Hv. cbn [exec_ok].
  rewrite (mapM_ext_Forall (file_data fs1) (file_data fs2)).
  - destruct (mapM (file_data fs2) files) as [ds|]; [|by split].
    by destruct (decode E ds).
  - eapply Forall_impl; [done|]. intros p [q ->]. unfold file_data.
    by rewrite (same_view_below t q fs1 fs2 Hv).
Qed.

(** The same call of the unit on two file systems it cannot tell apart
    gives the same answer and leaves two it cannot tell apart. *)
Lemma exec_same_view o fs1 fs2 :
  owns t o → same_view t fs1 fs2 → agree t (exec E o fs1) (exec E o fs2).
Proof using Hclear.
  intros Ho Hv. unfold exec. destruct (denied E o); [by split|].
  destruct o as [p|src dst|zip dest|p|p|p|p|p|td top|files|img p|e]; simpl in Ho; try done.
  - by apply makedirs_same_view.
  - destruct Ho as [Hsrc [x ->]]. by apply copy2_same_view.
  - destruct Ho as [-> [x ->]]. by apply extractall_same_view.
  - destruct Ho as (q & Hq & ->). by apply remove_same_view.
  - subst p. by apply rmtree_same_view.
  - subst top. cbn [exec_ok]. rewrite (view_staging _ _ _ Hv). by split.
  - by apply read_same_view.
  - destruct Ho as [x ->]. cbn [exec_ok].
    pose proof (write_file_same_view [x] (encode E img) fs1 fs2 Hv ltac:(done)) as H'.
    destruct (write_file _ _ fs1), (write_file _ _ fs2); by split.
Qed.

End own_calls.

(* ================================================================== *)
(** * A call of a unit and the views of the others *)

Section footprint.
Context (E : env) (t : task).

#[local] Arguments node_at : simpl never.
#[local] Arguments put : simpl never.
#[local] Arguments mkdirs : simpl never.
#[local] Arguments write_file : simpl never.
#[local] Arguments extract_members : simpl never.

Lemma exec_touches o fs : owns t o → touches t fs (exec E o fs).2.
Proof.
  intros Ho. unfold exec. destruct (denied E o); [by left|].
  destruct o as [p|src dst|zip dest|p|p|p|p|p|td top|files|img p|e];
    simpl in Ho; try done; try (by left).
  - cbn [exec_ok]. destruct (mkdirs p fs) as [fs'|] eqn:Hm; [|by left].
    do 3 right. by exists p.
  - destruct Ho as [_ [x ->]]. cbn [exec_ok].
    destruct (node_at src fs) as [[d|?]|]; [|by left..].
    assert (∀ q, q ≠ [] →
      touches t fs
        (if decide (staging_dir t ++ q = src) then (@inl exn unit SameFileError, fs)
         else match write_file (staging_dir t ++ q) d fs with
              | Some fs' => (inr tt, fs')
              | None => (inl OSError, fs)
              end).2) as Hw.
    { intros q Hq. case_decide; [by left|].
      destruct (write_file _ d fs) as [fs'|] eqn:Hw; [|by left].
      right; left. destruct (write_file_below _ _ _ _ _ Hq Hw) as (n' & ? & ->). by exists n'. }
    destruct (node_at (staging_dir t ++ [x]) fs) as [[?|?]|].
    + by apply Hw.
    + rewrite <-(assoc_L (++)). by apply Hw.
    + by apply Hw.
  - destruct Ho as [-> [x ->]]. cbn [exec_ok].
    destruct (node_at (staging_dir t ++ [x]) fs) as [[d|?]|] eqn:Hz; [|by left..].
    destruct (node_at_snoc_Some _ _ _ _ Hz) as (es & Hs & _).
    destruct (unzip E d) as [ms status].
    rewrite (extract_members_under _ ms es fs Hs).
    destruct (extract_members [] ms (Dir es)) as [n' w]. cbn [fst snd].
    assert (touches t fs (subst (staging_dir t) n' fs)).
    { right; left. exists n'. by rewrite Hs. }
    destruct w; [destruct status|]; done.
  - destruct Ho as (q & Hq & ->).
    rewrite exec_ok_remove by (by destruct (staging_dir t), q).
    destruct (node_at (staging_dir t ++ q) fs) as [[d|?]|] eqn:Hz; [|by left..].
    destruct (node_at_prefix_Some (staging_dir t) (staging_dir t ++ q) fs) as [n Hs];
      [by eexists|by rewrite Hz|].
    rewrite (put_under _ _ _ _ fs Hs Hq). right; left. exists (put q None n). by rewrite Hs.
  - subst p. pose proof (staging_dir_nonempty t) as Hne. rewrite exec_ok_rmtree by done.
    destruct (node_at (staging_dir t) fs) as [[?|es]|] eqn:Hs; [by left| |by left].
    do 2 right; left. split; [done|]. split; [by eexists|done].
  - cbn [exec_ok]. destruct (mapM (file_data fs) files) as [ds|]; [|by left].
    destruct (decode E ds); by left.
  - destruct Ho as [x ->]. cbn [exec_ok].
    destruct (write_file _ _ fs) as [fs'|] eqn:Hw; [|by left].
    right; left. destruct (write_file_below _ [x] _ _ _ ltac:(done) Hw) as (n' & ? & ->).
    by exists n'.
Qed.

(** A call of the unit [t] leaves the view of a unit that works elsewhere
    as it was. *)
Lemma exec_other_view t' o fs :
  owns t o → separate t' t → same_view t' fs (exec E o fs).2.
Proof. intros Ho Hsep. eapply same_view_touch; [done|]. by apply exec_touches. Qed.

End footprint.

(* ================================================================== *)
(** * Whole calls *)

Lemma run_Do {A} E o (k : exn + res o → prog A) fs :
  run E (Do o k) fs =
    (let '(v, fs2, l) := run E (k (exec E o fs).1) (exec E o fs).2 in
     (v, fs2, printed o ++ l)).
Proof. simpl. by destruct (exec E o fs). Qed.

(** What the rest of a call returns and prints, and the view it leaves,
    depend on the view only. *)
Lemma run_same_view {A} E t (c : prog A) :
  inputs_clear t t → confined t c →
  ∀ fs1 fs2, same_view t fs1 fs2 →
    future E c fs1 = future E c fs2
    ∧ same_view t (run E c fs1).1.2 (run E c fs2).1.2.
Proof.
  intros Hclear. induction 1 as [a|s|o k Ho Hk IH]; intros fs1 fs2 Hv; [done..|].
  destruct (exec_same_view E t Hclear o fs1 fs2 Ho Hv) as [Hr Hv'].
  unfold future. rewrite !run_Do.
  destruct (IH E fs1 _ _ Hv') as [Hf Hv'']. unfold future in Hf.
  rewrite <-Hr.
  destruct (run E (k (exec E o fs1).1) (exec E o fs1).2) as [[v1 g1] l1].
  destruct (run E (k (exec E o fs1).1) (exec E o fs2).2) as [[v2 g2] l2].
  simpl in *. by simplify_eq.
Qed.

(** A whole call of a unit leaves the view of a unit that works
    elsewhere as it was. *)
Lemma run_other_view {A} E t t' (c : prog A) :
  separate t' t → confined t c → ∀ fs, same_view t' fs (run E c fs).1.2.
Proof.
  intros Hsep. induction 1 as [a|s|o k Ho Hk IH]; intros fs;
    [apply same_view_refl..|].
  rewrite run_Do.
  pose proof (IH E fs (exec E o fs).2) as Hv.
  destruct (run E (k (exec E o fs).1) (exec E o fs).2) as [[v g] l].
  eapply same_view_trans; [|exact Hv]. by apply (exec_other_view E t).
Qed.

(* ================================================================== *)
(** * [process_series] keeps to its unit *)

Lemma walk_roots td top n :
  Forall (λ '(root, _, _), top `prefix_of` root) (walk td top n).
Proof.
  revert top. induction n as [d|es IH] using node_ind'; intros top; [constructor|].
  rewrite walk_Dir. cbv zeta.
  assert (Forall (λ '(root, _, _), top `prefix_of` root)
            (mjoin ((λ xc, walk td (top ++ [xc.1]) xc.2) <$> map_to_list es))) as Hbelow.
  { apply Forall_forall. intros [[root dirs] files] Hin.
    apply list_elem_of_join in Hin as (l & Hin & Hl).
    apply list_elem_of_fmap in Hl as ([x c] & -> & Hxc).
    apply elem_of_map_to_list in Hxc.
    pose proof (IH x c Hxc (top ++ [x])) as Hall.
    rewrite Forall_forall in Hall. specialize (Hall _ Hin). simpl in Hall.
    etrans; [|exact Hall]. by eexists. }
  destruct td.
  - by constructor.
  - apply Forall_app. split; [done|]. by repeat constructor.
Qed.

Lemma collect_dcm_under S w p :
  Forall (λ '(root, _, _), S `prefix_of` root) w →
  p ∈ collect_dcm w → ∃ q, q ≠ [] ∧ p = S ++ q.
Proof.
  intros Hw. unfold collect_dcm. rewrite list_elem_of_bind.
  intros ([[root dirs] files] & Hp & Hin).
  apply list_elem_of_fmap in Hp as (fname & -> & _).
  rewrite Forall_forall in Hw. destruct (Hw _ Hin) as [r ->].
  exists (r ++ [fname]). split; [by destruct r|]. by rewrite (assoc_L (++)).
Qed.

Section confinement.
Context (t : task).

Lemma confined_bind {A B} (c : prog A) (f : A → prog B) :
  confined t c → (∀ a, confined t (f a)) → confined t (bind c f).
Proof.
  intros Hc Hf. induction Hc as [a|s|o k Ho Hk IH].
  - apply Hf.
  - constructor.
  - change (bind (Do o k) f) with (Do o (λ r, bind (k r) f)). by constructor.
Qed.

Lemma confined_try {A} (c : prog A) (h : exn → prog A) :
  confined t c → (∀ e, confined t (h e)) → confined t (try_ c h).
Proof.
  intros Hc Hh. induction Hc as [a|[e|]|o k Ho Hk IH].
  - constructor.
  - apply Hh.
  - constructor.
  - change (try_ (Do o k) h) with (Do o (λ r, try_ (k r) h)). by constructor.
Qed.

Lemma confined_def {A} (c : prog (option A)) : confined t c → confined t (def_ c).
Proof.
  induction 1 as [a|[e|]|o k Ho Hk IH]; [constructor..|].
  change (def_ (Do o k)) with (Do o (λ r, def_ (k r))). by constructor.
Qed.

Lemma confined_call o : owns t o → confined t (call o).
Proof.
  intros Ho. constructor; [done|]. intros E fs.
  destruct (exec E o fs).1; constructor.
Qed.

Lemma confined_for {X} (l : list X) (body : X → prog unit) :
  (∀ x, x ∈ l → confined t (body x)) → confined t (for_ l body).
Proof.
  induction l as [|x l IH]; intros Hb; [constructor|].
  rewrite for_cons. apply confined_bind.
  - apply Hb. by left.
  - intros _. apply IH. intros y Hy. apply Hb. by right.
Qed.

Lemma confined_bind_walk {B} td (f : _ → prog B) :
  (∀ w, Forall (λ '(root, _, _), staging_dir t `prefix_of` root) w → confined t (f w)) →
  confined t (bind (os_walk td (staging_dir t)) f).
Proof.
  intros Hf. unfold os_walk, call.
  change (bind (Do ?o ?k) f) with (Do o (λ r, bind (k r) f)).
  constructor; [done|]. intros E fs.
  destruct (exec_walk_inr E td (staging_dir t) fs) as [w Hw]. rewrite Hw. cbn [fst].
  change (bind (Ret w) f) with (f w). apply Hf.
  destruct (exec_walk_cases _ _ _ _ _ Hw) as [->|(n & Hn & ->)]; [constructor|].
  apply walk_roots.
Qed.

End confinement.

Ltac confined_step :=
  match goal with
  | |- confined _ (bind (os_walk _ _) _) => apply confined_bind_walk; intros ? ?
  | |- confined _ (bind _ _) => apply confined_bind; [|intros ?]
  | |- confined _ (try_ _ _) => apply confined_try; [|intros ?]
  | |- confined _ (def_ _) => apply confined_def
  | |- confined _ (for_ _ _) => apply confined_for; intros ? ?
  | |- confined _ (if decide _ then _ else _) => case_decide
  | |- confined _ (match ?e with BadZipFile => _ | _ => _ end) => destruct e
  | |- confined _ (Ret _) => constructor
  | |- confined _ return_ => constructor
  | |- confined _ (Throw _) => constructor
  | |- confined _ _ =>
      unfold os_makedirs, shutil_copy2, zipfile_extractall, os_remove,
        shutil_rmtree, sitk_read, sitk_write, print;
      apply confined_call
  end.

Ltac owns_step S :=
  lazymatch goal with
  | |- owns _ (Makedirs _) => first [by exists []; rewrite (right_id_L [] (++))|by eexists]
  | |- owns _ (Copy2 _ _) => split; [by (left + right)|by eexists]
  | |- owns _ (ExtractAll _ _) => split; [done|by eexists]
  | |- owns _ (Remove (_ ++ [_])) => eexists [_]; by split
  | |- owns _ (Rmtree _) => done
  | |- owns _ (WriteImage _ _) => by eexists
  | |- owns _ (Print _) => done
  end.

(** Every call [process_series t] makes is a call of the unit [t]. *)
Lemma confined_process_series t : confined t (process_series t).
Proof.
  destruct t as [[[[pid date] sid] inp] outp].
  unfold process_series. prog_unfold.
  set (t := (pid, date, sid, inp, outp)).
  change ((outp ++ [pid; date]) ++ [sid]) with (staging_dir t).
  repeat confined_step; try owns_step t.
  - apply Forall_forall. intros p Hp.
    destruct (collect_dcm_under _ _ _ H Hp) as (q & _ & ->). by eexists.
  - by apply (collect_dcm_under _ w).
  - exact (confined_call t (Print _) I).
  - exact (confined_call t (Print _) I).
Qed.

(* ================================================================== *)
(** * The tasks of [main] work in different places *)

Section layout.
Context (input_dir output_dir : path).
Context (Hroots : apart input_dir output_dir).

Lemma apart_roots_below r r' : apart (input_dir ++ r) (output_dir ++ r').
Proof using Hroots. apply apart_below, apart_sym, apart_below, apart_sym, Hroots. Qed.

Lemma rooted_clear t t' :
  rooted input_dir output_dir t → rooted input_dir output_dir t' → inputs_clear t t'.
Proof using Hroots.
  destruct t as [[[[pid date] sid] inp] outp], t' as [[[[pid' date'] sid'] inp'] outp'].
  intros [H1 H2] [H1' H2']. simpl in *. subst.
  split; simpl; rewrite <-!(assoc_L (++)); apply apart_roots_below.
Qed.

Lemma rooted_separate t t' :
  rooted input_dir output_dir t → rooted input_dir output_dir t' → t ≠ t' →
  separate t t'.
Proof using Hroots.
  intros Ht Ht' Hne. split; [|by apply rooted_clear].
  destruct t as [[[[pid date] sid] inp] outp], t' as [[[[pid' date'] sid'] inp'] outp'].
  destruct Ht as [H1 H2], Ht' as [H1' H2']. simpl in *. subst.
  split; intros Hp; apply prefix_length_eq in Hp;
    try (rewrite !length_app; simpl; lia);
    rewrite <-!(assoc_L (++)) in Hp; simplify_list_eq; done.
Qed.

End layout.

(* ================================================================== *)
(** * The serial loop, unit by unit *)

Lemma run_future {A} E (c : prog A) fs :
  run E c fs = ((future E c fs).1, (run E c fs).1.2, (future E c fs).2).
Proof. unfold future. by destruct (run E c fs) as [[??]?]. Qed.

(** In the serial loop every unit returns and prints what it returns and
    prints when processed alone on the file system the loop started from. *)
Lemma serial_map_alone E input_dir output_dir fs0 tasks :
  apart input_dir output_dir →
  Forall (rooted input_dir output_dir) tasks → NoDup tasks →
  ∀ fs, (∀ t, t ∈ tasks → same_view t fs0 fs) →
    raised (serial_map E tasks fs) = None →
    inr <$> yielded (serial_map E tasks fs) = (λ t, (alone E fs0 t).1) <$> tasks
    ∧ lines (serial_map E tasks fs) = mjoin ((λ t, (alone E fs0 t).2) <$> tasks).
Proof.
  intros Hroots Hall Hnd. induction tasks as [|t rest IH]; intros fs Hv; [done|].
  apply Forall_cons in Hall as [Ht Hall]. apply NoDup_cons in Hnd as [Hnin Hnd].
  cbn [serial_map].
  destruct (run_same_view E t (process_series t)
              (rooted_clear _ _ Hroots _ _ Ht Ht) (confined_process_series t)
              fs0 fs (Hv t ltac:(by left))) as [Hf _].
  pose proof (λ t' Hsep, run_other_view E t t' (process_series t) Hsep
                (confined_process_series t)) as Hother.
  rewrite (run_future E (process_series t) fs), <-Hf.
  fold (alone E fs0 t). rewrite !fmap_cons. cbn [mjoin list_join].
  destruct (alone E fs0 t) as [[s|v] l]; cbn [fst snd]; [done|].
  intros Hr. cbn [raised] in Hr.
  destruct (IH Hall Hnd (run E (process_series t) fs).1.2) as [IH1 IH2]; [|done|].
  - intros t' Ht'. eapply same_view_trans; [apply Hv; by right|].
    apply Hother.
    apply (rooted_separate _ _ Hroots); [|done|by intros ->].
    rewrite Forall_forall in Hall. by apply Hall.
  - cbn [yielded lines]. by rewrite fmap_cons, IH1, IH2.
Qed.

(* ================================================================== *)
(** * The pool, step by step *)

Lemma running_insert {X} (ws : list (option X)) i w x :
  ws !! i = Some w →
  omap id (<[i := Some x]> ws) ≡ₚ x :: omap id (<[i := None]> ws).
Proof.
  revert i. induction ws as [|a ws IH]; intros [|i] Hi; simplify_eq/=; [done|].
  destruct a as [y|]; simpl.
  - rewrite (IH i Hi). apply Permutation_swap.
  - by apply IH.
Qed.

Lemma running_lookup {X} (ws : list (option X)) i x :
  ws !! i = Some (Some x) → omap id ws ≡ₚ x :: omap id (<[i := None]> ws).
Proof.
  intros Hi. rewrite <-(running_insert ws i (Some x) x Hi). by rewrite list_insert_id.
Qed.

Lemma confined_inv t {A} (c : prog A) :
  confined t c →
  match c with
  | Do o k => owns t o ∧ ∀ E fs, confined t (k (exec E o fs).1)
  | _ => True
  end.
Proof. by intros [a|s|o k Ho Hk]. Qed.

Section units.
Context (E : env) (input_dir output_dir : path).
Context (Hroots : apart input_dir output_dir).
Context (R : list (signal + value)) (L : list event).
Context (HR : Forall (λ r, is_Some (returned r)) R).

Lemma units_inv_perm ys fs l lv lv' :
  lv ≡ₚ lv' →
  units_inv E input_dir output_dir R L ys fs l lv →
  units_inv E input_dir output_dir R L ys fs l lv'.
Proof.
  intros Hp [H1 H2 H3 H4 H5]. split.
  - by rewrite <-Hp.
  - by rewrite <-Hp.
  - by rewrite <-Hp.
  - unfold pending. by rewrite <-Hp.
  - unfold pending. by rewrite <-Hp.
Qed.

Lemma units_inv_ret ys fs l t v rest :
  units_inv E input_dir output_dir R L ys fs l ((t, Ret v) :: rest) →
  units_inv E input_dir output_dir R L (ys ++ [v]) fs l rest.
Proof.
  intros [H1 H2 H3 H4 H5].
  apply Forall_cons in H1 as [_ H1]. apply Forall_cons in H2 as [_ H2].
  rewrite fmap_cons in H3. apply NoDup_cons in H3 as [_ H3].
  split; try done.
  rewrite fmap_app, <-(assoc_L (++)). exact H4.
Qed.

Lemma units_inv_throw ys fs l t s rest :
  units_inv E input_dir output_dir R L ys fs l ((t, Throw s) :: rest) → False.
Proof using HR.
  intros [_ _ _ H4 _]. rewrite Forall_forall in HR.
  destruct (HR (inl s)) as [? [=]]. rewrite <-H4.
  apply elem_of_app. right. by left.
Qed.

Lemma units_inv_do ys fs l t o k rest :
  units_inv E input_dir output_dir R L ys fs l ((t, Do o k) :: rest) →
  units_inv E input_dir output_dir R L ys (exec E o fs).2 (l ++ printed o)
    ((t, k (exec E o fs).1) :: rest).
Proof using Hroots.
  intros [H1 H2 H3 H4 H5].
  apply Forall_cons in H1 as [Hc H1]. apply Forall_cons in H2 as [Ht H2].
  rewrite fmap_cons in H3. apply NoDup_cons in H3 as H3'. destruct H3' as [Hnin H3'].
  apply confined_inv in Hc as [Ho Hk]. cbn [fst snd] in *.
  assert (pending E (exec E o fs).2 rest = pending E fs rest) as Hrest.
  { unfold pending. apply Forall_fmap_ext, Forall_forall. intros [t' c'] Hin.
    rewrite Forall_forall in H1, H2.
    pose proof (H1 _ Hin) as Hc'. pose proof (H2 _ Hin) as Ht'. cbn [fst snd] in *.
    symmetry. eapply run_same_view; [by eapply rooted_clear|done|].
    apply (exec_other_view E t); [done|].
    eapply rooted_separate; [done..|]. intros ->. apply Hnin.
    apply list_elem_of_fmap. by exists (t, c'). }
  assert (future E (Do o k) fs =
          ((future E (k (exec E o fs).1) (exec E o fs).2).1,
           printed o ++ (future E (k (exec E o fs).1) (exec E o fs).2).2)) as Hhead.
  { unfold future. rewrite run_Do.
    by destruct (run E (k (exec E o fs).1) (exec E o fs).2) as [[??]?]. }
  unfold pending in H4, H5. rewrite !fmap_cons in H4. rewrite !fmap_cons in H5.
  cbn [fst snd] in H4, H5. rewrite Hhead in H4, H5.
  cbn [fst snd mjoin list_join] in H4, H5.
  split.
  - constructor; [apply Hk|done].
  - by constructor.
  - rewrite fmap_cons. by apply NoDup_cons.
  - unfold pending at 1. rewrite !fmap_cons. fold (pending E (exec E o fs).2 rest).
    by rewrite Hrest.
  - unfold pending at 1. rewrite !fmap_cons. fold (pending E (exec E o fs).2 rest).
    rewrite Hrest. cbn [fst snd mjoin list_join].
    fold (pending E fs rest) in H5. by rewrite <-!(assoc_L (++)) in *.
Qed.

End units.

Lemma omap_replicate_None {X} n : omap id (replicate n (@None X)) = [].
Proof. induction n; simpl; done. Qed.

Lemma idle_running {X} (ws : list (option X)) :
  forallb (λ w, negb (bool_decide (is_Some w))) ws = true → omap id ws = [].
Proof.
  induction ws as [|[x|] ws IH]; simpl; done.
Qed.

Lemma pool_done_live st : pool_done st = true → live st = [].
Proof.
  destruct st as [q ws d]. unfold pool_done, live. simpl.
  intros [Hq Hws]%andb_true_iff. apply bool_decide_eq_true in Hq as ->.
  by rewrite idle_running.
Qed.

Lemma pool_run_app E s1 s2 st :
  pool_run E (s1 ++ s2) st = pool_run E s2 (pool_run E s1 st).
Proof. apply foldl_app. Qed.

Section pool.
Context (E : env) (input_dir output_dir : path).
Context (Hroots : apart input_dir output_dir).
Context (R : list (signal + value)) (L : list event).
Context (HR : Forall (λ r, is_Some (returned r)) R).

Lemma pool_inv_step st i :
  pool_inv E input_dir output_dir R L st →
  pool_inv E input_dir output_dir R L (pool_step E st i).
Proof using Hroots HR.
  destruct st as [q ws [ys ex fs l]]. intros [Hex Hinv]. simpl in Hex. subst ex.
  unfold live in Hinv. cbn [seen yielded disk lines slots queue] in Hinv.
  cbn [pool_step].
  destruct (ws !! i) as [[[t c]|]|] eqn:Hi; [| |by split].
  - eapply units_inv_perm in Hinv;
      [|apply Permutation_app_tail, (running_lookup _ _ _ Hi)].
    rewrite <-app_comm_cons in Hinv.
    destruct c as [v|s|o k].
    + split; [done|]. by eapply units_inv_ret.
    + exfalso. by eapply units_inv_throw.
    + apply (units_inv_do _ _ _ Hroots) in Hinv.
      destruct (exec E o fs) as [r fs'] eqn:He. cbn [fst snd] in Hinv.
      split; [done|]. unfold live. cbn [seen yielded disk lines slots queue].
      eapply units_inv_perm; [|exact Hinv]. symmetry.
      rewrite app_comm_cons. apply Permutation_app_tail.
      by eapply running_insert.
  - destruct q as [|t q']; [by split|]. split; [done|].
    unfold live. cbn [seen yielded disk lines slots queue].
    eapply units_inv_perm; [|exact Hinv].
    rewrite (running_insert _ _ _ _ Hi), (list_insert_id _ _ _ Hi), fmap_cons.
    rewrite <-app_comm_cons. symmetry. apply Permutation_middle.
Qed.

Lemma pool_inv_run schedule st :
  pool_inv E input_dir output_dir R L st →
  pool_inv E input_dir output_dir R L (pool_run E schedule st).
Proof using Hroots HR.
  revert st. induction schedule as [|i schedule IH]; intros st Hinv; [done|].
  apply IH. by apply pool_inv_step.
Qed.

End pool.

Lemma pool_inv_start E input_dir output_dir nprocs tasks fs :
  Forall (rooted input_dir output_dir) tasks → NoDup tasks →
  pool_inv E input_dir output_dir
    ((λ t, (alone E fs t).1) <$> tasks) (mjoin ((λ t, (alone E fs t).2) <$> tasks))
    (pool_start nprocs tasks fs).
Proof.
  intros Hall Hnd. split; [done|].
  unfold live, pool_start. cbn [seen yielded disk lines slots queue].
  rewrite omap_replicate_None, app_nil_l. split.
  - apply Forall_fmap, Forall_forall. intros t _. apply confined_process_series.
  - by apply Forall_fmap.
  - by rewrite <-list_fmap_compose, list_fmap_id.
  - unfold pending. by rewrite <-!list_fmap_compose.
  - unfold pending. by rewrite <-!list_fmap_compose.
Qed.

(* ================================================================== *)
(** * The pool comes to an end *)

Lemma worker_finishes E q ws (t : task) (c : prog value) :
  ∀ ys fs l, ∃ schedule d,
    pool_run E schedule (Pool q (Some (t, c) :: ws) (Dispatch ys None fs l))
    = Pool q (None :: ws) d.
Proof.
  induction c as [v|s|o k IH]; intros ys fs l.
  - by exists [0], (Dispatch (ys ++ [v]) None fs l).
  - by exists [0], (Dispatch ys (Some s) fs l).
  - destruct (IH (exec E o fs).1 ys (exec E o fs).2 (l ++ printed o)) as (sch & d & Hrun).
    exists (0 :: sch), d. rewrite <-Hrun. unfold pool_run. cbn [foldl pool_step].
    cbn [lookup list_lookup]. by destruct (exec E o fs).
Qed.

Lemma pool_run_raised E schedule q ws ys s fs l :
  pool_run E schedule (Pool q ws (Dispatch ys (Some s) fs l))
  = Pool q ws (Dispatch ys (Some s) fs l).
Proof. induction schedule as [|i sch IH]; [done|]. exact IH. Qed.

Lemma pool_run_over E schedule st :
  is_Some (raised (seen st)) → pool_run E schedule st = st.
Proof.
  destruct st as [q ws [ys ex fs l]]. intros [s Hs]. simpl in Hs. subst ex.
  apply pool_run_raised.
Qed.

Lemma queue_finishes E ws q :
  ∀ d, ∃ schedule d',
    pool_run E schedule (Pool q (None :: ws) d) = Pool [] (None :: ws) d'
    ∨ (is_Some (raised d')
       ∧ ∃ q', pool_run E schedule (Pool q (None :: ws) d) = Pool q' (None :: ws) d').
Proof.
  induction q as [|t q IH]; intros [ys ex fs l].
  - exists [], (Dispatch ys ex fs l). by left.
  - destruct ex as [s|].
    { exists [], (Dispatch ys (Some s) fs l). right. split; [by eexists|]. by eexists. }
    destruct (worker_finishes E q ws t (process_series t) ys fs l) as (s1 & d1 & H1).
    destruct (IH d1) as (s2 & d2 & H2).
    exists (0 :: s1 ++ s2), d2.
    assert (pool_run E (0 :: s1 ++ s2) (Pool (t :: q) (None :: ws) (Dispatch ys None fs l))
            = pool_run E s2 (Pool q (None :: ws) d1)) as ->.
    { rewrite <-H1, <-pool_run_app. done. }
    destruct H2 as [H2|[Hr [q' H2]]]; [by left|right]. split; [done|]. by exists q'.
Qed.

Lemma omap_returned_inr (vs : list value) : omap returned (inr <$> vs) = vs.
Proof. induction vs as [|v vs IH]; simpl; [done|]. by f_equal. Qed.

Lemma pool_done_idle n d : pool_done (Pool [] (replicate n None) d) = true.
Proof. unfold pool_done. simpl. induction n; simpl; done. Qed.

(** The serial branch of [main] is [serial_map] with the values dropped. *)
Lemma organize_serial_map E tasks fs :
  run E (organize_serial tasks) fs =
    (match raised (serial_map E tasks fs) with Some s => inl s | None => inr tt end,
     disk (serial_map E tasks fs), lines (serial_map E tasks fs)).
Proof.
  revert fs. unfold organize_serial.
  induction tasks as [|t rest IH]; intros fs; [done|].
  rewrite for_cons. prog_unfold. rewrite !run_bind. cbn [serial_map].
  destruct (run E (process_series t) fs) as [[[s|v] fs1] l]; cbn [raised disk lines].
  - done.
  - cbn [run]. run_simpl. rewrite IH. by rewrite app_nil_r.
Qed.

(* ================================================================== *)
(** * What a unit leaves alone *)

Lemma touches_elsewhere t fs fs' q :
  touches t fs fs' → ¬ staging_dir t `prefix_of` q →
  (¬ q `prefix_of` staging_dir t → node_at q fs' = node_at q fs)
  ∧ (∀ d, node_at q fs = Some (File d) → node_at q fs' = Some (File d)).
Proof.
  intros [->|[(n' & Hs & ->)|[(Hne & [es Hes] & ->)|(p & Hp & Hm)]]] Hq.
  - done.
  - split.
    + intros Hq'. by apply node_at_subst_apart.
    + intros d Hd. destruct (decide (q `prefix_of` staging_dir t)) as [Hq'|Hq'].
      * exfalso. destruct Hq' as [r Hr].
        assert (r ≠ []) as Hr'.
        { intros ->. rewrite (right_id_L [] (++)) in Hr. apply Hq. by rewrite Hr. }
        rewrite Hr in Hs. destruct (node_at_above_dir q r fs Hr' Hs) as [es Hes].
        congruence.
      * by rewrite node_at_subst_apart.
  - pose proof (unlink_frame _ _ _ q Hne Hes Hq) as [Hf Heq]. split; [done|].
    intros d Hd. destruct (proj2 Hf) as [d' Hd']; [by exists d|].
    destruct (decide (q `prefix_of` staging_dir t)) as [[r Hr]|Hq'].
    + exfalso. assert (r ≠ []) as Hr'.
      { intros ->. rewrite (right_id_L [] (++)) in Hr. apply Hq. by rewrite Hr. }
      rewrite Hr in Hes.
      destruct (node_at_above_dir q r fs Hr' ltac:(by rewrite Hes)) as [es' Hes'].
      congruence.
    + by rewrite Heq.
  - split.
    + intros Hq'. apply (mkdirs_elsewhere _ _ _ _ Hm). intros ?. apply Hq'. by etrans.
    + intros d Hd. by apply (mkdirs_keeps _ _ _ q Hm).
Qed.

Lemma run_elsewhere {A} E t (c : prog A) q :
  confined t c → ¬ staging_dir t `prefix_of` q →
  ∀ fs,
    (¬ q `prefix_of` staging_dir t → node_at q (run E c fs).1.2 = node_at q fs)
    ∧ (∀ d, node_at q fs = Some (File d) → node_at q (run E c fs).1.2 = Some (File d)).
Proof.
  intros Hc Hq. induction Hc as [a|s|o k Ho Hk IH]; intros fs; [done..|].
  rewrite run_Do.
  destruct (touches_elsewhere t fs (exec E o fs).2 q (exec_touches E t o fs Ho) Hq)
    as [H1 H2].
  destruct (IH E fs (exec E o fs).2) as [G1 G2].
  destruct (run E (k (exec E o fs).1) (exec E o fs).2) as [[v g] l]. cbn [fst snd] in *.
  split.
  - intros Hq'. by rewrite G1, H1.
  - intros d Hd. by apply G2, H2.
Qed.

Lemma exec_listdir_same E p fs : (exec E (Listdir p) fs).2 = fs.
Proof.
  unfold exec. destruct (denied E _); [done|]. simpl.
  by destruct (node_at p fs) as [[?|?]|].
Qed.

(* ================================================================== *)
(** * The sweep: what is kept and what is not brought about *)

Lemma run_sweep_disk E root fs :
  (run E (remove_invalid_files_and_empty_dirs root) fs).1.2 = swept E root fs.
Proof. destruct (run_sweep E root fs) as [l Hl]. by rewrite Hl. Qed.

(** Pass 1 neither creates nor alters a file. *)
Lemma sweep_files_file E n : ∀ p q d,
  node_at q (sweep_files E p n) = Some (File d) → node_at q n = Some (File d).
Proof.
  induction n as [d0|es IH] using node_ind'; intros p q d Hq; [done|].
  destruct q as [|y q]; [done|]. simpl in *. rewrite map_lookup_imap in Hq.
  destruct (es !! y) as [c|] eqn:Hy; simpl in Hq; [|done].
  destruct c as [d1|es']; cbv beta iota in Hq.
  - by destruct (_ && _).
  - by apply (IH y _ Hy (p ++ [y])).
Qed.

Lemma sweep_files_absent E n : ∀ p q,
  node_at q n = None → node_at q (sweep_files E p n) = None.
Proof.
  induction n as [d0|es IH] using node_ind'; intros p q Hq; [done|].
  destruct q as [|y q]; [done|]. simpl in *. rewrite map_lookup_imap.
  destruct (es !! y) as [c|] eqn:Hy; simpl; [|done].
  destruct c as [d1|es']; cbv beta iota.
  - by destruct (_ && _).
  - by apply (IH y _ Hy (p ++ [y])).
Qed.

(** Pass 1 keeps every file that passes the test. *)
Lemma sweep_files_keeps E n : ∀ p q x d,
  node_at (q ++ [x]) n = Some (File d) → invalid_file x = false →
  node_at (q ++ [x]) (sweep_files E p n) = Some (File d).
Proof.
  induction n as [d0|es IH] using node_ind'; intros p q x d Hq Hinv.
  { apply mk_is_Some, node_at_File_inv in Hq. by destruct q. }
  destruct q as [|y q]; simpl in *; rewrite map_lookup_imap.
  - destruct (es !! x) as [c|] eqn:Hx; simpl; [|done].
    destruct c as [d1|es']; cbv beta iota; [|done]. by rewrite Hinv.
  - destruct (es !! y) as [c|] eqn:Hy; simpl; [|done].
    destruct c as [d1|es']; cbv beta iota.
    + by destruct q.
    + by apply (IH y _ Hy (p ++ [y]) q x d).
Qed.

(** Pass 2 keeps every file, and with it the directories on the way. *)
Lemma prune_dirs_keeps E n : ∀ p q d,
  node_at q n = Some (File d) →
  ∃ n', prune_dirs E p n = Some n' ∧ node_at q n' = Some (File d).
Proof.
  induction n as [d0|es IH] using node_ind'; intros p q d Hq.
  { exists (File d0). by split. }
  destruct q as [|y q]; [done|]. simpl in Hq.
  destruct (es !! y) as [c|] eqn:Hy; [|done].
  destruct (IH y c Hy (p ++ [y]) q d Hq) as (c' & Hc & Hq').
  simpl.
  assert (map_imap (λ x c, prune_dirs E (p ++ [x]) c) es !! y = Some c') as Hy'.
  { rewrite map_lookup_imap, Hy. simpl. done. }
  rewrite bool_decide_false; [|intros He; by rewrite He in Hy'].
  eexists. split; [done|]. simpl. by rewrite Hy'.
Qed.

Lemma prune_dirs_None_dir E p n :
  prune_dirs E p n = None → p ≠ [] ∧ ∃ es, n = Dir es.
Proof.
  destruct n as [d|es]; [done|]. simpl.
  destruct (bool_decide _ && can_rmdir E p) eqn:Hc; [|done]. intros _.
  apply andb_true_iff in Hc as [_ Hc]. unfold can_rmdir in Hc.
  apply andb_true_iff in Hc as [Hc _]. apply andb_true_iff in Hc as [Hc _].
  apply bool_decide_eq_true in Hc. split; [done|]. by eexists.
Qed.

(** The file system after the sweep: as before, or with the tree at the
    root replaced, or with the root unlinked. *)
Lemma swept_cases E root fs :
  (swept E root fs = fs
   ∧ (denied E (Walk false root) = true ∨ node_at root fs = None))
  ∨ ∃ n, node_at root fs = Some n
      ∧ ((∃ n2, prune_dirs E root (sweep_files E root n) = Some n2
                ∧ swept E root fs = subst root n2 fs)
         ∨ (prune_dirs E root (sweep_files E root n) = None
            ∧ root ≠ [] ∧ (∃ es, n = Dir es)
            ∧ swept E root fs = put root None fs)).
Proof.
  unfold swept. destruct (denied E (Walk false root)); [left; split; [done|by left]|].
  destruct (node_at root fs) as [n|] eqn:Hn; [|rewrite Hn; left; split; [done|by right]].
  right. exists n. split; [done|].
  rewrite node_at_subst_eq by (by rewrite Hn).
  destruct (prune_dirs E root (sweep_files E root n)) as [n2|] eqn:Hp; simpl.
  - left. exists n2. split; [done|]. by rewrite subst_subst.
  - right. destruct (prune_dirs_None_dir _ _ _ Hp) as [Hroot [es Hes]].
    split; [done|]. split; [done|]. split.
    + destruct n as [d|es']; [done|]. by eexists.
    + apply put_None_subst; [done|]. by rewrite Hn.
Qed.

Lemma swept_leaves_tidy E root_dir fs q :
  no_refusal E → root_dir ≠ [] →
  (∀ x d, node_at ((root_dir ++ q) ++ [x]) (swept E root_dir fs) = Some (File d) →
          invalid_file x = false)
  ∧ node_at (root_dir ++ q) (swept E root_dir fs) ≠ Some (Dir ∅).
Proof.
  intros HE Hroot.
  destruct (swept_cases E root_dir fs)
    as [[-> [Hden|Hn]]|(n & Hn & [(n2 & Hp & ->)|(Hp & _ & [es ->] & ->)])].
  - by rewrite HE in Hden.
  - split.
    + intros x d. by rewrite <-(assoc_L (++)), node_at_app, Hn.
    + by rewrite node_at_app, Hn.
  - pose proof (prune_dirs_valid E _ _ _ Hp (sweep_files_valid E n root_dir HE)) as Hv.
    destruct (prune_dirs_nonempty E _ _ _ HE Hp) as [Hd Htop].
    split.
    + intros x d. rewrite <-(assoc_L (++)), node_at_subst_under by (by rewrite Hn).
      apply Hv.
    + rewrite node_at_subst_under by (by rewrite Hn).
      destruct (decide (q = [])) as [->|Hq].
      * simpl. intros [= ->]. by apply (Htop Hroot ∅).
      * destruct (path_snoc_inv q Hq) as (Q & y & ->). intros Hy.
        by apply (Hd Q y ∅).
  - split.
    + intros x d. by rewrite <-(assoc_L (++)), node_at_app, (unlink_dir_gone _ es).
    + by rewrite node_at_app, (unlink_dir_gone _ es).
Qed.

Lemma swept_apart E root_dir fs q :
  apart root_dir q → node_at q (swept E root_dir fs) = node_at q fs.
Proof.
  intros Hq.
  destruct (swept_cases E root_dir fs)
    as [[-> _]|(n & Hn & [(n2 & Hp & ->)|(Hp & Hroot & [es ->] & ->)])]; [done| |].
  - by apply node_at_subst_apart.
  - destruct Hq as [Hq Hq']. by apply (unlink_frame _ es).
Qed.

(* ================================================================== *)
(** * The extension [os.path.splitext] returns has one dot *)

Lemma substring_full s : String.substring 0 (String.length s) s = s.
Proof. induction s as [|a t IH]; simpl; [done|]. by rewrite IH. Qed.

Lemma slice_cons i j a t :
  (0 ≤ i)%Z → slice (i + 1) (j + 1) (String a t) = slice i j t.
Proof.
  intros Hi. unfold slice.
  replace (Z.to_nat (i + 1)) with (S (Z.to_nat i)) by lia.
  replace (j + 1 - (i + 1))%Z with (j - i)%Z by lia. done.
Qed.

Lemma slice_from_rfind c s :
  (0 ≤ rfind c s)%Z →
  rfind c (slice (rfind c s) (Z.of_nat (String.length s)) s) = 0%Z.
Proof.
  induction s as [|a t IH]; [simpl; lia|]. intros Hr.
  cbn [rfind] in *. cbn [String.length].
  destruct (Z.leb_spec 0 (rfind c t)) as [Ht|Ht].
  - replace (Z.of_nat (S (String.length t))) with (Z.of_nat (String.length t) + 1)%Z by lia.
    rewrite slice_cons by done. by apply IH.
  - destruct (Ascii.eqb a c) eqn:Hac; [|lia].
    unfold slice. rewrite Z.sub_0_r, Nat2Z.id. change (Z.to_nat 0) with 0.
    change (S (String.length t)) with (String.length (String a t)).
    rewrite (substring_full (String a t)). cbn [rfind].
    destruct (Z.leb_spec 0 (rfind c t)); [lia|]. by rewrite Hac.
Qed.

Lemma lower_ascii_dot a : Ascii.eqb (lower_ascii a) "." = Ascii.eqb a ".".
Proof. by destruct a as [[] [] [] [] [] [] [] []]. Qed.

Lemma rfind_dot_lower s : rfind "." (lower s) = rfind "." s.
Proof.
  induction s as [|a t IH]; [done|]. cbn [lower rfind].
  by rewrite IH, lower_ascii_dot.
Qed.

Lemma splitext_ext_dot f :
  (splitext f).2 = "" ∨ rfind "." (splitext f).2 = 0%Z.
Proof.
  unfold splitext. destruct (_ && _) eqn:Hc; [|by left]. right. cbn [snd].
  apply slice_from_rfind. apply andb_true_iff in Hc as [Hc _].
  apply Z.ltb_lt in Hc. pose proof (rfind_lower_bound "/" f). lia.
Qed.

(* ================================================================== *)
(** * The scan, statement by statement *)

Section scan_facts.
Context (W : scan_env).

Lemma scan_bind_eq {A B} (c : scan A) (f : A → scan B) fs :
  (x ← c; f x) fs =
    match c fs with
    | (inr a, fs1, l1) => let '(r, fs2, l2) := f a fs1 in (r, fs2, l1 ++ l2)
    | (inl s, fs1, l1) => (inl s, fs1, l1)
    end.
Proof. done. Qed.

Lemma yields_ret {A} (a : A) fs (Good : A → Prop) Bad :
  Good a → yields (mret a) fs Good Bad.
Proof. by split. Qed.

Lemma yields_bind {A B} (c : scan A) (f : A → scan B) fs
    (G1 : A → Prop) (G2 : B → Prop) (Bad : Prop) :
  yields c fs G1 Bad →
  (∀ a, G1 a → yields (f a) fs G2 Bad) →
  yields (x ← c; f x) fs G2 Bad.
Proof.
  intros [Hfs Hc] Hf. unfold yields. rewrite scan_bind_eq.
  destruct (c fs) as [[[s|a] fs1] l1]; cbn [fst snd] in *; subst fs1; [done|].
  destruct (Hf a Hc) as [Hfs' Hr].
  by destruct (f a fs) as [[r fs2] l2].
Qed.

Lemma yields_say {A} ln (c : scan A) fs Good (Bad : Prop) :
  (¬ stdout_sound W → Bad) →
  yields c fs Good Bad → yields (say W ln;; c) fs Good Bad.
Proof.
  intros Hbad Hc. apply (yields_bind _ _ _ (λ _, True)); [|intros _ _; exact Hc].
  unfold yields, say. destruct (say_raises W ln) as [e|] eqn:He; [|done].
  split; [done|]. apply Hbad. intros Hall. by rewrite Hall in He.
Qed.

Lemma yields_weaken {A} (c : scan A) fs (G1 G2 : A → Prop) (B1 B2 : Prop) :
  yields c fs G1 B1 → (∀ a, G1 a → G2 a) → (B1 → B2) → yields c fs G2 B2.
Proof.
  intros [Hfs Hc] HG HB. split; [done|].
  destruct ((c fs).1.1); auto.
Qed.

Lemma keep_dirs_yields p names fs Bad :
  yields (keep_dirs W p names) fs
    (λ ds, ds = filter (λ d, isdir_answer W fs (p ++ [d]) = true) names) Bad.
Proof.
  induction names as [|d rest IH]; [by split|].
  cbn [keep_dirs].
  apply (yields_bind _ _ _ (λ b, b = isdir_answer W fs (p ++ [d]))); [by split|].
  intros b Hb.
  eapply yields_bind; [exact IH|]. intros ds ->. apply yields_ret.
  rewrite filter_cons. subst b.
  destruct (isdir_answer W fs (p ++ [d])); by case_decide.
Qed.

Lemma in_prog_listdir p fs :
  in_prog W (os_listdir p) fs =
    (match (exec (calls W) (Listdir p) fs).1 with
     | inl e => inl (Exc e)
     | inr names => inr names
     end, fs, []).
Proof.
  unfold in_prog. run_call.
  pose proof (exec_listdir_same (calls W) p fs) as Hfs.
  destruct (exec (calls W) (Listdir p) fs) as [[e|names] fs']; simpl in *; by subst.
Qed.

Lemma subdirs_yields p fs :
  yields (subdirs W p) fs
    (λ ds, listable W fs p ∧ ds = subdirs_of W fs p) (¬ listable W fs p).
Proof.
  unfold subdirs. eapply yields_bind.
  - instantiate (1 := λ names, (exec (calls W) (Listdir p) fs).1 = inr names).
    unfold yields. rewrite in_prog_listdir. cbn [fst snd]. split; [done|].
    unfold listable. destruct ((exec (calls W) (Listdir p) fs).1); [|done].
    by intros [? ?].
  - intros names Hn. eapply yields_weaken; [apply keep_dirs_yields| |done].
    intros ds ->. unfold subdirs_of, listing_of, listable. rewrite Hn.
    split; [by eexists|done].
Qed.

Lemma each_yields {X} (g : X → list task) (ok : X → Prop) (B : Prop)
    (body : list task → X → scan (list task)) l fs :
  (∀ s x, yields (body s x) fs (λ s', s' = s ++ g x ∧ ok x) (¬ ok x ∨ B)) →
  ∀ s, yields (each l s body) fs
         (λ s', s' = s ++ (l ≫= g) ∧ Forall ok l) (¬ Forall ok l ∨ B).
Proof.
  intros Hbody. induction l as [|x l IH]; intros s.
  { apply yields_ret. by rewrite app_nil_r. }
  cbn [each]. eapply yields_bind.
  - eapply yields_weaken; [apply Hbody|done|].
    intros [Hx|?]; [left|by right]. intros HF. apply Hx. by apply Forall_cons in HF as [??].
  - intros s' [-> Hx]. eapply yields_weaken; [apply IH| |].
    + intros s'' [-> Hl]. split; [|by constructor].
      by rewrite bind_cons, (assoc_L (++)).
    + intros [Hl|?]; [left|by right]. intros HF. apply Hl. by apply Forall_cons in HF as [??].
Qed.

End scan_facts.

Lemma run_filter_series_any E date_path fs :
  run E (filter_series date_path) fs =
    (match (exec E (Listdir date_path) fs).1 with
     | inl e => inl (Exc e)
     | inr listing =>
         inr (archive_stems E fs date_path listing ∩ sidecar_stems E fs date_path listing)
     end, fs, []).
Proof.
  pose proof (exec_listdir_same E date_path fs) as Hfs.
  destruct (exec E (Listdir date_path) fs) as [[e|listing] fs'] eqn:He;
    cbn [fst snd] in *; subst fs'.
  - unfold filter_series. prog_unfold. rewrite run_bind. run_call. by rewrite He.
  - by apply run_filter_series.
Qed.

Section scan_loops.
Context (W : scan_env) (input_dir output_dir : path).

Lemma date_tasks_yields pf df fs :
  yields (in_prog W (date_tasks pf df input_dir output_dir)) fs
    (λ found,
       listable W fs ((input_dir ++ [pf]) ++ [df])
       ∧ found = (λ sid, (pf, df, sid, input_dir, output_dir))
                   <$> elements (series_of W fs ((input_dir ++ [pf]) ++ [df])))
    (¬ listable W fs ((input_dir ++ [pf]) ++ [df])).
Proof.
  unfold yields, in_prog, date_tasks. prog_unfold.
  rewrite run_bind, run_filter_series_any.
  unfold listable, series_of, listing_of.
  destruct ((exec (calls W) (Listdir ((input_dir ++ [pf]) ++ [df])) fs).1)
    as [e|listing]; cbn [run fst snd].
  - split; [done|]. by intros [? ?].
  - split; [done|]. split; [by eexists|done].
Qed.

Lemma scan_date_yields pf tasks df fs :
  yields (scan_date W pf input_dir output_dir tasks df) fs
    (λ tasks', tasks' = tasks ++ tasks_of_date W fs input_dir output_dir pf df
               ∧ date_ok W fs (input_dir ++ [pf]) df)
    (¬ date_ok W fs (input_dir ++ [pf]) df ∨ ¬ stdout_sound W).
Proof.
  unfold scan_date, tasks_of_date, date_ok.
  destruct (strptime_ok W df).
  - eapply yields_bind.
    + eapply yields_weaken; [apply date_tasks_yields|done|].
      intros Hn. left. intros Hok. by apply Hn, Hok.
    + intros found [Hl ->]. by apply yields_ret.
  - apply yields_say; [by right|]. apply yields_ret. by rewrite app_nil_r.
Qed.

Lemma scan_patient_yields tasks pf fs :
  yields (scan_patient W input_dir output_dir tasks pf) fs
    (λ tasks', tasks' = tasks ++ tasks_of_patient W fs input_dir output_dir pf
               ∧ patient_ok W fs input_dir pf)
    (¬ patient_ok W fs input_dir pf ∨ ¬ stdout_sound W).
Proof.
  unfold scan_patient, tasks_of_patient, patient_ok.
  destruct (recognized pf); cbn [negb].
  - apply yields_say; [by right|]. eapply yields_bind.
    + eapply yields_weaken; [apply subdirs_yields|done|].
      intros Hn. left. intros Hok. by apply Hn, Hok.
    + intros ds [Hl ->].
      eapply yields_weaken;
        [apply (each_yields _ _ _ _ _ _ (λ s x, scan_date_yields pf s x fs))| |].
      * intros tasks' [-> Hall]. done.
      * intros [Hn|?]; [left|by right]. intros Hok. by apply Hn, Hok.
  - apply yields_say; [by right|]. apply yields_ret. by rewrite app_nil_r.
Qed.

Lemma scan_input_yields fs :
  yields (scan_input W input_dir output_dir) fs
    (λ tasks, tasks = tasks_of_input W fs input_dir output_dir
              ∧ listable W fs input_dir
              ∧ Forall (patient_ok W fs input_dir) (subdirs_of W fs input_dir))
    (¬ (listable W fs input_dir
        ∧ Forall (patient_ok W fs input_dir) (subdirs_of W fs input_dir))
     ∨ ¬ stdout_sound W).
Proof.
  unfold scan_input. apply yields_say; [by right|]. eapply yields_bind.
  - eapply yields_weaken; [apply subdirs_yields|done|].
    intros Hn. left. intros [Hl _]. by apply Hn.
  - intros ds [Hl ->]. eapply yields_bind.
    + eapply yields_weaken;
        [apply (each_yields _ _ _ _ _ _ (λ s x, scan_patient_yields s x fs))|done|].
      intros [Hn|?]; [left|by right]. intros [_ Hall]. by apply Hn.
    + intros tasks [-> Hall]. apply yields_say; [by right|]. apply yields_ret. done.
Qed.

End scan_loops.

(* ================================================================== *)
(** * The tasks the scan builds *)

Section scan_tasks.
Context (W : scan_env) (fs : node) (input_dir output_dir : path).

Lemma NoDup_listing_of p : NoDup (listing_of W fs p).
Proof.
  unfold listing_of, exec. destruct (denied (calls W) _); [constructor|].
  simpl. destruct (node_at p fs) as [[?|es]|]; simpl; try constructor.
  apply NoDup_fst_map_to_list.
Qed.

Lemma NoDup_subdirs_of p : NoDup (subdirs_of W fs p).
Proof. apply NoDup_filter, NoDup_listing_of. Qed.

Lemma elem_of_tasks_of_date pf df t :
  t ∈ tasks_of_date W fs input_dir output_dir pf df ↔
  ∃ sid, t = (pf, df, sid, input_dir, output_dir)
         ∧ strptime_ok W df = true
         ∧ sid ∈ series_of W fs ((input_dir ++ [pf]) ++ [df]).
Proof.
  unfold tasks_of_date. destruct (strptime_ok W df).
  - rewrite list_elem_of_fmap. split.
    + intros (sid & -> & Hsid%elem_of_elements). by exists sid.
    + intros (sid & -> & _ & Hsid). exists sid. by rewrite elem_of_elements.
  - rewrite elem_of_nil. split; [done|]. by intros (? & _ & ? & _).
Qed.

Lemma elem_of_tasks_of_patient pf t :
  t ∈ tasks_of_patient W fs input_dir output_dir pf ↔
  ∃ df sid, t = (pf, df, sid, input_dir, output_dir)
            ∧ recognized pf = true
            ∧ df ∈ subdirs_of W fs (input_dir ++ [pf])
            ∧ strptime_ok W df = true
            ∧ sid ∈ series_of W fs ((input_dir ++ [pf]) ++ [df]).
Proof.
  unfold tasks_of_patient. destruct (recognized pf).
  - rewrite list_elem_of_bind. setoid_rewrite elem_of_tasks_of_date. split.
    + intros (df & (sid & -> & ? & ?) & ?). by exists df, sid.
    + intros (df & sid & -> & _ & ? & ? & ?). exists df. split; [by exists sid|done].
  - rewrite elem_of_nil. split; [done|]. by intros (? & ? & _ & ? & _).
Qed.

Lemma elem_of_tasks_of_input t :
  t ∈ tasks_of_input W fs input_dir output_dir ↔
  ∃ pf df sid, t = (pf, df, sid, input_dir, output_dir)
               ∧ pf ∈ subdirs_of W fs input_dir
               ∧ recognized pf = true
               ∧ df ∈ subdirs_of W fs (input_dir ++ [pf])
               ∧ strptime_ok W df = true
               ∧ sid ∈ series_of W fs ((input_dir ++ [pf]) ++ [df]).
Proof.
  unfold tasks_of_input. rewrite list_elem_of_bind.
  setoid_rewrite elem_of_tasks_of_patient. split.
  - intros (pf & (df & sid & -> & ? & ? & ? & ?) & ?). by exists pf, df, sid.
  - intros (pf & df & sid & -> & ? & ? & ? & ? & ?). exists pf.
    split; [by exists df, sid|done].
Qed.

Lemma NoDup_tasks_of_input : NoDup (tasks_of_input W fs input_dir output_dir).
Proof.
  unfold tasks_of_input. apply NoDup_bind; [| |apply NoDup_subdirs_of].
  - intros pf1 pf2 t _ _ H1 H2.
    apply elem_of_tasks_of_patient in H1 as (? & ? & -> & _).
    apply elem_of_tasks_of_patient in H2 as (? & ? & [= <-] & _). done.
  - intros pf _. unfold tasks_of_patient. destruct (recognized pf); [|constructor].
    apply NoDup_bind; [| |apply NoDup_subdirs_of].
    + intros df1 df2 t _ _ H1 H2.
      apply elem_of_tasks_of_date in H1 as (? & -> & _).
      apply elem_of_tasks_of_date in H2 as (? & [= <-] & _). done.
    + intros df _. unfold tasks_of_date. destruct (strptime_ok W df); [|constructor].
      apply NoDup_fmap_2_strong; [|apply NoDup_elements].
      by intros sid1 sid2 _ _ [= ->].
Qed.

(** What the scan needs to get through, folder by folder. *)
Lemma scanned_listable :
  (listable W fs input_dir
   ∧ Forall (patient_ok W fs input_dir) (subdirs_of W fs input_dir))
  ↔ ∀ p, scanned W fs input_dir p → listable W fs p.
Proof.
  split.
  - intros [Hroot Hall] p [->|[(pf & -> & Hpf & Hrec)|(pf & df & -> & Hpf & Hrec & Hdf & Hok)]].
    + done.
    + rewrite Forall_forall in Hall. by apply (Hall pf Hpf Hrec).
    + rewrite Forall_forall in Hall. destruct (Hall pf Hpf Hrec) as [_ Hdates].
      rewrite Forall_forall in Hdates. by apply (Hdates df Hdf).
  - intros Hall. split; [apply Hall; by left|].
    apply Forall_forall. intros pf Hpf Hrec. split.
    + apply Hall. right; left. by exists pf.
    + apply Forall_forall. intros df Hdf Hok. apply Hall. right; right. by exists pf, df.
Qed.

End scan_tasks.

(* ================================================================== *)
(** * The whole of [main] *)

Lemma serial_map_elsewhere E tasks q :
  Forall (λ t, apart (staging_dir t) q) tasks →
  ∀ fs, node_at q (disk (serial_map E tasks fs)) = node_at q fs.
Proof.
  induction 1 as [|t rest [Ht Ht'] _ IH]; intros fs; [done|].
  cbn [serial_map].
  destruct (run_elsewhere E t (process_series t) q (confined_process_series t) Ht fs)
    as [Heq _].
  destruct (run E (process_series t) fs) as [[[s|v] fs1] l]; cbn [fst snd disk] in *.
  - by apply Heq.
  - rewrite IH. by apply Heq.
Qed.

(** The file system [organize_and_clean] leaves: that of the serial loop
    when the loop raised, swept otherwise. *)
Lemma organize_and_clean_disk E tasks output_dir fs :
  (run E (organize_and_clean tasks output_dir) fs).1.2 =
    match raised (serial_map E tasks fs) with
    | Some _ => disk (serial_map E tasks fs)
    | None => swept E output_dir (disk (serial_map E tasks fs))
    end
  ∧ ((run E (organize_and_clean tasks output_dir) fs).1.1 = inr tt →
     raised (serial_map E tasks fs) = None).
Proof.
  unfold organize_and_clean. prog_unfold.
  rewrite run_bind, organize_serial_map.
  destruct (raised (serial_map E tasks fs)) as [s|]; [done|].
  rewrite run_print. rewrite run_bind.
  destruct (run_sweep E output_dir (disk (serial_map E tasks fs))) as [l Hl].
  rewrite_run Hl. run_simpl. run_call. rewrite exec_print. done.
Qed.

Lemma main_serial_disk W input_dir output_dir fs :
  (main_serial W input_dir output_dir fs).1.2 =
    match (scan_input W input_dir output_dir fs).1.1 with
    | inl _ => fs
    | inr tasks => (run (calls W) (organize_and_clean tasks output_dir) fs).1.2
    end
  ∧ ((main_serial W input_dir output_dir fs).1.1 = inr tt →
     ∃ tasks, (scan_input W input_dir output_dir fs).1.1 = inr tasks
              ∧ (run (calls W) (organize_and_clean tasks output_dir) fs).1.1 = inr tt).
Proof.
  unfold main_serial. rewrite scan_bind_eq.
  destruct (scan_input_yields W input_dir output_dir fs) as [Hfs _].
  destruct (scan_input W input_dir output_dir fs) as [[[s|tasks] fs1] l1];
    cbn [fst snd] in *; subst fs1; [done|].
  unfold in_prog.
  destruct (run (calls W) (organize_and_clean tasks output_dir) fs)
    as [[r fs2] l2] eqn:Hrun.
  cbn [fst snd]. split; [done|]. intros ->. exists tasks. by rewrite Hrun.
Qed.

(* ================================================================== *)
(** * Calls that cannot fail *)

Section sure_calls.
Context (E : env).

Lemma exec_makedirs_ok p fs :
  denied E (Makedirs p) = false →
  (∀ q, q `prefix_of` p → ¬ file_at q fs) →
  ∃ fs', exec E (Makedirs p) fs = (inr tt, fs') ∧ mkdirs p fs = Some fs'.
Proof.
  intros Hden Hfree. unfold exec. rewrite Hden. simpl.
  destruct (mkdirs p fs) as [fs'|] eqn:Hm; [by exists fs'|].
  apply mkdirs_None in Hm as (q & Hq & Hf). by destruct (Hfree q Hq).
Qed.

Lemma exec_copy2_target src dst fs fs' :
  exec E (Copy2 src dst) fs = (inr tt, fs') → ¬ dir_at dst fs → file_at dst fs'.
Proof.
  unfold exec. destruct (denied E _); [done|]. simpl.
  destruct (node_at src fs) as [[d|?]|]; [|done..].
  intros H Hdst.
  assert (match node_at dst fs with
          | Some (Dir _) => dst ++ [basename src]
          | _ => dst
          end = dst) as Htarget.
  { destruct (node_at dst fs) as [[?|es]|] eqn:Hd; [done| |done].
    destruct Hdst. by exists es. }
  rewrite Htarget in H. case_decide; [done|].
  destruct (write_file dst d fs) as [fs1|] eqn:Hw; [|done].
  destruct (write_file_facts _ _ _ _ Hw) as [Ht _].
  injection H as <-. by exists d.
Qed.

Lemma write_file_file_stays t d fs fs' q :
  write_file t d fs = Some fs' → file_at q fs → file_at q fs'.
Proof.
  intros Hw [d' Hq]. destruct (write_file_facts _ _ _ _ Hw) as (Ht & Hother & _).
  destruct (decide (q = t)) as [->|Hne]; [by exists d|]. exists d'. by apply Hother.
Qed.

Lemma extract_member_file_stays dest m fs fs' q :
  extract_member dest m fs = Some fs' → file_at q fs → file_at q fs'.
Proof.
  unfold extract_member. destruct m as [mp [d|]]; simpl.
  - destruct (mkdirs _ fs) as [fs1|] eqn:H1; [|done]. intros H2 [d' Hq].
    eapply write_file_file_stays; [done|]. exists d'. by apply (mkdirs_keeps _ _ _ q H1).
  - intros H1 [d' Hq]. exists d'. by apply (mkdirs_keeps _ _ _ q H1).
Qed.

Lemma extract_members_file_stays dest ms fs q :
  file_at q fs → file_at q (extract_members dest ms fs).1.
Proof.
  revert fs. induction ms as [|m ms IH]; intros fs Hq; simpl; [done|].
  destruct (extract_member dest m fs) as [fs1|] eqn:H1; [|done].
  apply IH. by eapply extract_member_file_stays.
Qed.

Lemma exec_extract_file_stays z dest fs q :
  file_at q fs → file_at q (exec E (ExtractAll z dest) fs).2.
Proof.
  intros Hq. unfold exec. destruct (denied E _); [done|]. simpl.
  destruct (node_at z fs) as [[d|?]|]; [|done..].
  destruct (unzip E d) as [ms status].
  pose proof (extract_members_file_stays dest ms fs q Hq) as H.
  destruct (extract_members dest ms fs) as [fs' w]. simpl in H.
  destruct w; [destruct status|]; done.
Qed.

Lemma exec_remove_ok p fs :
  denied E (Remove p) = false → p ≠ [] → file_at p fs →
  ∃ fs', exec E (Remove p) fs = (inr tt, fs').
Proof.
  intros Hden Hp [d Hd]. unfold exec. rewrite Hden, exec_ok_remove, Hd by done.
  by eexists.
Qed.

End sure_calls.

(* ================================================================== *)
(** * With the three calls able to raise *)

Section strict.
Context (E : env) (F : faults).

Lemma exec_strict_quiet o fs : quiet F → exec_strict E F o fs = exec E o fs.
Proof.
  intros (Hp & Hw & Hr). destruct o; simpl; rewrite ?Hp, ?Hw, ?Hr; done.
Qed.

Lemma printed_by_exec o fs : printed_by o (exec E o fs).1 = printed o.
Proof.
  destruct o; try (by unfold printed_by, printed; destruct ((exec E _ fs).1)).
  by rewrite exec_print.
Qed.

(** Where none of the three raises, the programs run as under [exec]. *)
Lemma run_strict_quiet {A} (c : prog A) fs :
  quiet F → run_strict E F c fs = run E c fs.
Proof.
  intros HF. revert fs. induction c as [a|s|o k IH]; intros fs; [done..|].
  cbn [run_strict run]. rewrite exec_strict_quiet by done.
  pose proof (printed_by_exec o fs) as Hpr.
  destruct (exec E o fs) as [r fs1]. cbn [fst] in Hpr. by rewrite IH, Hpr.
Qed.

End strict.

(** The calls of [process_series] that [exec] lets fail are all inside a
    [try], but for the two [os.makedirs] and the [os.remove] of the
    archive copy. *)
Lemma process_series_runs_through E t fs :
  denied E (Makedirs (parent (staging_dir t))) = false →
  denied E (Makedirs (staging_dir t)) = false →
  denied E (Remove (archive_copy_path t)) = false →
  (∀ q, q `prefix_of` staging_dir t → ¬ file_at q fs) →
  ¬ dir_at (archive_copy_path t) fs →
  ∃ v, (run E (process_series t) fs).1.1 = inr v.
Proof.
  destruct t as [[[[pf df] sid] ind] outd].
  unfold process_series.
  set (t := (pf, df, sid, ind, outd)).
  change ((outd ++ [pf; df]) ++ [sid]) with (staging_dir t).
  change (staging_dir t ++ [sid +:+ ".zip"]) with (archive_copy_path t).
  change (staging_dir t ++ [sid +:+ ".nii.gz"]) with (volume_path t).
  change (staging_dir t ++ [sid +:+ ".json"]) with (sidecar_copy_path t).
  intros Hd1 Hd2 Hd5 Hfree Hzip.
  assert (parent (staging_dir t) = outd ++ [pf; df]) as Hparent.
  { change (staging_dir t) with ((outd ++ [pf; df]) ++ [sid]). apply parent_snoc. }
  rewrite Hparent in Hd1.
  assert (outd ++ [pf; df] `prefix_of` staging_dir t) as Hpre by (by exists [sid]).
  assert (¬ archive_copy_path t `prefix_of` staging_dir t) as Hzip_S.
  { intros H%prefix_length. unfold archive_copy_path in H.
    rewrite length_app in H. simpl in H. lia. }
  assert (archive_copy_path t ≠ []) as Hzne.
  { unfold archive_copy_path. by destruct (staging_dir t). }
  prog_unfold. rewrite run_def.
  (* os.makedirs(out_date_path) *)
  destruct (exec_makedirs_ok E (outd ++ [pf; df]) fs Hd1) as (fs1 & H1 & Hm1).
  { intros q Hq. apply Hfree. by etrans. }
  rewrite run_bind. run_call. rewrite H1. run_simpl.
  (* os.makedirs(series_out_dir) *)
  destruct (exec_makedirs_ok E (staging_dir t) fs1 Hd2) as (fs2 & H2 & Hm2).
  { intros q Hq. rewrite (mkdirs_files _ _ _ q Hm1). by apply Hfree. }
  rewrite run_bind. run_call. rewrite H2. run_simpl.
  assert (¬ dir_at (archive_copy_path t) fs2) as Hzip2.
  { unfold dir_at. rewrite (mkdirs_elsewhere _ _ _ _ Hm2 Hzip_S).
    rewrite (mkdirs_elsewhere _ _ _ _ Hm1); [done|].
    intros H. apply Hzip_S. by etrans. }
  (* copy the archive *)
  rewrite run_bind, run_try. run_call.
  destruct (exec E (Copy2 _ (archive_copy_path t)) fs2) as [[e3|[]] fs3] eqn:H3; run_simpl.
  { rewrite run_print. cbn [run return_]. run_simpl. by eexists. }
  pose proof (exec_copy2_target E _ _ _ _ H3 Hzip2) as Hfile3.
  (* extract it *)
  rewrite run_bind, run_try. run_call.
  pose proof (exec_extract_file_stays E (archive_copy_path t) (staging_dir t) fs3 _ Hfile3)
    as Hfile4.
  destruct (exec E (ExtractAll _ (staging_dir t)) fs3) as [[e4|[]] fs4] eqn:H4;
    cbn [snd] in Hfile4; run_simpl.
  { destruct (exec_remove_ok E _ fs4 Hd5 Hzne Hfile4) as [fs5 H5].
    destruct e4; rewrite run_discard_archive, H5; run_simpl; by eexists. }
  (* remove the copy *)
  destruct (exec_remove_ok E _ fs4 Hd5 Hzne Hfile4) as [fs5 H5].
  rewrite run_bind. run_call. rewrite H5. run_simpl.
  (* collect the frames *)
  rewrite run_bind. run_call.
  destruct (exec_walk_inr E true (staging_dir t) fs5) as [w Hw]. rewrite Hw. run_simpl.
  set (dcm_files := collect_dcm w).
  rewrite run_bind. destruct (decide (length dcm_files = 0)) as [Hnil|Hnil].
  { rewrite run_discard. run_simpl. by eexists. }
  cbn [run]. run_simpl.
  (* decode *)
  rewrite run_bind, run_try. run_call.
  destruct (exec E (ReadSeries dcm_files) fs5) as [[e6|img] fs6] eqn:H6; run_simpl.
  { rewrite run_discard. run_simpl. by eexists. }
  (* encode *)
  rewrite run_bind, run_try. run_call.
  destruct (exec E (WriteImage img (volume_path t)) fs6) as [[e7|[]] fs7] eqn:H7; run_simpl.
  { rewrite run_discard. run_simpl. by eexists. }
  (* delete the frames *)
  rewrite run_bind.
  destruct (run_remove_frames E dcm_files fs7) as (fs8 & l8 & Hrun8 & _).
  unfold os_remove, print in Hrun8. rewrite Hrun8. run_simpl.
  (* copy the sidecar *)
  rewrite run_bind, run_try. run_call.
  destruct (exec E (Copy2 _ (sidecar_copy_path t)) fs8) as [[e9|[]] fs9] eqn:H9; run_simpl.
  - run_call. rewrite exec_print. run_simpl.
    rewrite run_print. cbn [run]. run_simpl. by eexists.
  - rewrite run_print. cbn [run]. run_simpl. by eexists.
Qed.


(* ================================================================== *)
(** * The pipeline: what is left on disk and what is returned *)

Section pipeline_claims.
Context (E : env).

(** The abort of a unit, for the calls that return.  Whenever
    [process_series] returns after a failure of the extraction (stage 2),
    of the frame search (stage 3) or of the conversion (stage 4) -- the
    paths that print one of the five abort warnings -- and the operating
    system carries out the [rmtree], the unit's staging directory is
    gone, the call returns [None] (the skip), and the serial dispatcher
    goes on with the remaining units from the file system this unit
    left. *)
Theorem abort_discards_staging t fs r fs' l w rest :
  run E (process_series t) fs = (inr r, fs', l) →
  w ∈ l → abort_warning t w →
  denied E (Rmtree (staging_dir t)) = false →
  r = None
  ∧ l = [w]
  ∧ node_at (staging_dir t) fs' = None
  ∧ run E (organize_serial (t :: rest)) fs =
      (let '(v, fs'', l') := run E (organize_serial rest) fs' in (v, fs'', l ++ l')).
Proof.
  intros Hrun Hw Habort Hden.
  pose proof (process_series_runs E t fs) as Hpost. rewrite Hrun in Hpost.
  assert (r = None ∧ l = [w] ∧ node_at (staging_dir t) fs' = None) as (-> & -> & Hgone).
  { destruct r as [id|]; simpl in Hpost.
    - destruct Hpost as (_ & (l5 & -> & Hl5) & _). exfalso.
      apply elem_of_app in Hw as [Hw|Hw%list_elem_of_singleton].
      + rewrite Forall_forall in Hl5. specialize (Hl5 _ Hw).
        destruct Hl5 as [?|[f ?]]; destruct Habort as [?|[?|[?|[?|?]]]]; congruence.
      + destruct Habort as [?|[?|[?|[?|?]]]]; congruence.
    - destruct Hpost as [(zin & -> & _)|(w' & -> & _ & Hgone)].
      + apply list_elem_of_singleton in Hw.
        destruct Habort as [?|[?|[?|[?|?]]]]; congruence.
      + apply list_elem_of_singleton in Hw as ->. auto. }
  split_and!; try done.
  unfold organize_serial. rewrite for_cons. prog_unfold.
  rewrite !run_bind, Hrun. run_simpl. cbn [run]. run_simpl.
  by destruct (run E (for_ rest _) fs') as [[??]?].
Qed.


(** C7, as the code has it.  The value [process_series] returns tells a
    completed unit (the unit's triple) from a skipped one ([None]) and no
    more; which skip it was shows only in the one warning the call
    printed.  The dispatcher drops the value ([organize_serial] yields
    [()] whatever the units returned). *)
Theorem returned_value_and_warning t fs r fs' l :
  run E (process_series t) fs = (inr r, fs', l) →
  (r = Some (patient_of t, date_of t, unit_id t)
   ∧ last l = Some (Finished (unit_id t) (patient_of t) (date_of t)))
  ∨ (r = None
     ∧ ∃ w, l = [w] ∧ ((∃ zin, w = WarnCopyZip zin) ∨ abort_warning t w)).
Proof.
  intros Hrun.
  pose proof (process_series_runs E t fs) as Hpost. rewrite Hrun in Hpost.
  destruct r as [id|]; simpl in Hpost.
  - left. destruct Hpost as (-> & (l5 & -> & _) & _). by rewrite last_snoc.
  - right. split; [done|]. destruct Hpost as [(zin & -> & _)|(w & -> & Hw & _)]; eauto.
Qed.

(** C2, as the code has it.  After [process_series] returns:
    - after an abort of stages 2 to 4 the staging directory is gone, if
      the [rmtree] was carried out;
    - after a failed copy of the archive it is there;
    - after completion it is there and holds the volume, no copy of the
      archive, the sidecar if its copy succeeded (inside a directory of
      the sidecar's name, should the archive have unpacked one), and no
      frame file but those whose deletion was reported as failed.
    What else the archive unpacked stays there for the sweep. *)
Theorem staging_after_return t fs r fs' l :
  run E (process_series t) fs = (inr r, fs', l) →
  match r with
  | None =>
      ((∃ zin, l = [WarnCopyZip zin]) ∧ dir_at (staging_dir t) fs')
      ∨ ((∃ w, l = [w] ∧ abort_warning t w)
         ∧ (denied E (Rmtree (staging_dir t)) = false →
            node_at (staging_dir t) fs' = None))
  | Some _ =>
      dir_at (staging_dir t) fs'
      ∧ file_at (volume_path t) fs'
      ∧ node_at (archive_copy_path t) fs' = None
      ∧ (WarnCopyJson (unit_id t) ∈ l
         ∨ file_at (sidecar_copy_path t) fs'
         ∨ file_at (sidecar_copy_path t ++ [unit_id t +:+ ".json"]) fs')
      ∧ (∀ q x, file_at ((staging_dir t ++ q) ++ [x]) fs' →
                endswith (lower x) ".dcm" = true →
                WarnRemoveDicom ((staging_dir t ++ q) ++ [x]) ∈ l)
  end.
Proof.
  intros Hrun.
  pose proof (process_series_runs E t fs) as Hpost. rewrite Hrun in Hpost.
  destruct r as [id|]; simpl in Hpost.
  - by destruct Hpost as (_ & _ & ? & ? & ? & ? & ?).
  - destruct Hpost as [(zin & -> & ?)|(w & -> & ? & ?)]; [left|right]; eauto.
Qed.

(** C5, where the code falls short.  A refused [os.makedirs] is not
    caught: the exception leaves [process_series], and with it the serial
    dispatch and the rest of [main]; no later unit is processed and the
    sweep does not run. *)
Theorem makedirs_failure_escapes t rest fs :
  denied E (Makedirs (parent (staging_dir t))) = true →
  run E (process_series t) fs = (inl (Exc PermissionError), fs, [])
  ∧ run E (organize_and_clean (t :: rest) (t.2)) fs
    = (inl (Exc PermissionError), fs, []).
Proof.
  intros Hden. destruct t as [[[[pf df] sid] ind] outd].
  unfold staging_dir in Hden. rewrite parent_snoc in Hden.
  assert (run E (process_series (pf, df, sid, ind, outd)) fs
          = (inl (Exc PermissionError), fs, [])) as Hrun.
  { unfold process_series. prog_unfold. rewrite run_def, run_bind. run_call.
    unfold exec. by rewrite Hden. }
  split; [done|].
  unfold organize_and_clean, organize_serial. prog_unfold.
  by rewrite run_bind, for_cons, !run_bind, Hrun.
Qed.

End pipeline_claims.

(* ================================================================== *)
(** * The abort of a unit whose archive copy cannot be removed *)

(** C3, where the code falls short.  The two handlers of the extraction
    (stage 2) print their warning, then call [os.remove] on the archive
    copy outside any [try], and only then [shutil.rmtree].  Whenever the
    call of [process_series] raises after one of the two warnings, the
    staging directory is still there and still holds what stands at the
    path of the archive copy; the exception leaves the serial dispatch
    with the same file system, no later unit is processed and the sweep
    does not run. *)
Theorem remove_failure_keeps_staging E t rest output_dir fs s fs' l :
  run E (process_series t) fs = (inl s, fs', l) →
  WarnBadZip (unit_id t) ∈ l ∨ WarnUnzip (archive_copy_path t) ∈ l →
  dir_at (staging_dir t) fs'
  ∧ is_Some (node_at (archive_copy_path t) fs')
  ∧ run E (organize_and_clean (t :: rest) output_dir) fs = (inl s, fs', l).
Proof.
  intros Hrun Hw.
  assert (run E (organize_and_clean (t :: rest) output_dir) fs = (inl s, fs', l)) as Hmain.
  { unfold organize_and_clean, organize_serial. prog_unfold.
    by rewrite run_bind, for_cons, !run_bind, Hrun. }
  cut (dir_at (staging_dir t) fs' ∧ is_Some (node_at (archive_copy_path t) fs')).
  { intros [? ?]. done. }
  clear Hmain.
  revert Hrun. destruct t as [[[[pf df] sid] ind] outd].
  unfold process_series.
  set (t := (pf, df, sid, ind, outd)).
  change ((outd ++ [pf; df]) ++ [sid]) with (staging_dir t).
  change (staging_dir t ++ [sid +:+ ".zip"]) with (archive_copy_path t).
  change (staging_dir t ++ [sid +:+ ".nii.gz"]) with (volume_path t).
  change (staging_dir t ++ [sid +:+ ".json"]) with (sidecar_copy_path t).
  assert (∀ l0 : list event, l0 = [] → l = l0 → False) as Hnone.
  { intros l0 -> ->. destruct Hw as [Hw|Hw]; by apply elem_of_nil in Hw. }
  prog_unfold. rewrite run_def.
  (* os.makedirs(out_date_path) *)
  rewrite run_bind. run_call.
  destruct (exec E (Makedirs (outd ++ [pf; df])) fs) as [[e1|[]] fs1] eqn:H1; run_simpl.
  { intros [= _ _ Hl]. exfalso. by eapply Hnone. }
  (* os.makedirs(series_out_dir) *)
  rewrite run_bind. run_call.
  destruct (exec E (Makedirs (staging_dir t)) fs1) as [[e2|[]] fs2] eqn:H2; run_simpl.
  { intros [= _ _ Hl]. exfalso. by eapply Hnone. }
  pose proof (exec_makedirs_inr _ _ _ _ _ H2) as HS2.
  (* copy the archive *)
  rewrite run_bind, run_try. run_call.
  destruct (exec E (Copy2 _ (archive_copy_path t)) fs2) as [[e3|[]] fs3] eqn:H3; run_simpl.
  { rewrite run_print. cbn [run return_]. run_simpl. by intros [=]. }
  assert (dir_at (staging_dir t) fs3) as HS3 by (by eapply (exec_dir_at E (Copy2 _ _))).
  assert (dir_at (archive_copy_path t) fs3 ∨ file_at (archive_copy_path t) fs3) as HZ3.
  { destruct (node_at (archive_copy_path t) fs2) as [[d|es]|] eqn:Hz2.
    - right. apply (exec_copy2_target E _ _ _ _ H3). intros [? ?]. congruence.
    - left. apply (exec_dir_at E (Copy2 _ _) _ _ _ _ I H3). by exists es.
    - right. apply (exec_copy2_target E _ _ _ _ H3). intros [? ?]. congruence. }
  (* extract it *)
  rewrite run_bind, run_try. run_call.
  pose proof (exec_extract_file_stays E (archive_copy_path t) (staging_dir t) fs3
                (archive_copy_path t)) as Hstays.
  destruct (exec E (ExtractAll _ (staging_dir t)) fs3) as [[e4|[]] fs4] eqn:H4;
    cbn [snd] in Hstays; run_simpl.
  { assert (dir_at (staging_dir t) fs4) as HS4
      by (by eapply (exec_dir_at E (ExtractAll _ _))).
    assert (is_Some (node_at (archive_copy_path t) fs4)) as HZ4.
    { destruct HZ3 as [Hd|Hf].
      - destruct (exec_dir_at E (ExtractAll _ _) _ _ _ _ I H4 Hd) as [es Hes]. by eexists.
      - destruct (Hstays Hf) as [d Hd]. by eexists. }
    destruct e4; rewrite run_discard_archive;
      destruct (exec E (Remove _) fs4) as [[e5|[]] fs5] eqn:H5; run_simpl;
      try (by intros [=]);
      apply exec_raise_same in H5 as ->; try done;
      by intros [= _ <- _]. }
  (* remove the copy *)
  rewrite run_bind. run_call.
  destruct (exec E (Remove (archive_copy_path t)) fs4) as [[e5|[]] fs5] eqn:H5; run_simpl.
  { intros [= _ _ Hl]. exfalso. by eapply Hnone. }
  (* collect the frames *)
  rewrite run_bind. run_call.
  destruct (exec_walk_inr E true (staging_dir t) fs5) as [w Hw5]. rewrite Hw5. run_simpl.
  set (dcm_files := collect_dcm w).
  rewrite run_bind. destruct (decide (length dcm_files = 0)) as [Hnil|Hnil].
  { rewrite run_discard. run_simpl. by intros [=]. }
  cbn [run]. run_simpl.
  (* decode *)
  rewrite run_bind, run_try. run_call.
  destruct (exec E (ReadSeries dcm_files) fs5) as [[e6|img] fs6] eqn:H6; run_simpl.
  { rewrite run_discard. run_simpl. by intros [=]. }
  (* encode *)
  rewrite run_bind, run_try. run_call.
  destruct (exec E (WriteImage img (volume_path t)) fs6) as [[e7|[]] fs7] eqn:H7; run_simpl.
  { rewrite run_discard. run_simpl. by intros [=]. }
  (* delete the frames *)
  rewrite run_bind.
  destruct (run_remove_frames E dcm_files fs7) as (fs8 & l8 & Hrun8 & _).
  unfold os_remove, print in Hrun8. rewrite Hrun8. run_simpl.
  (* copy the sidecar *)
  rewrite run_bind, run_try. run_call.
  destruct (exec E (Copy2 _ (sidecar_copy_path t)) fs8) as [[e9|[]] fs9] eqn:H9; run_simpl.
  - run_call. rewrite exec_print. run_simpl.
    rewrite run_print. cbn [run]. run_simpl. by intros [=].
  - rewrite run_print. cbn [run]. run_simpl. by intros [=].
Qed.

Section abort_examples.

Lemma remove_failure_keeps_staging_witness :
  let E := sample_env removal_refused in
  let fs' := (run E (process_series (sample_task "s2")) sample_fs).1.2 in
  dir_at (staging_dir (sample_task "s2")) fs'
  ∧ is_Some (node_at (archive_copy_path (sample_task "s2")) fs')
  ∧ run E (organize_and_clean [sample_task "s2"; sample_task "s1"] ["out"]) sample_fs
    = (inl (Exc PermissionError), fs', [WarnBadZip "s2"]).
Proof.
  apply (remove_failure_keeps_staging (sample_env removal_refused) (sample_task "s2")
           [sample_task "s1"] ["out"] sample_fs).
  - vm_compute. reflexivity.
  - left. apply list_elem_of_singleton. reflexivity.
Defined.

(** What the corrupt unit leaves when the system refuses [os.remove]:
    the staging directory with the copy of the archive in it. *)
Example refused_removal_leaves_archive_copy :
  let out := run (sample_env removal_refused) (process_series (sample_task "s2")) sample_fs in
  out.1.1 = inl (Exc PermissionError)
  ∧ out.2 = [WarnBadZip "s2"]
  ∧ node_at (archive_copy_path (sample_task "s2")) out.1.2 = Some (File "garbage").
Proof. split; [vm_compute; reflexivity|]. split; vm_compute; reflexivity. Qed.

(** The same with nothing refused, on a tree with a directory at the
    path of the archive copy: the copy goes into that directory, the
    extraction fails on it, and so does the [os.remove] of the handler.
    The unit after it is not processed. *)
Example occupied_archive_path_ends_dispatch :
  let out := run nominal (organize_and_clean [sample_task "s1"; sample_task "s3"] ["out"])
               occupied_fs in
  out.1.1 = inl (Exc IsADirectoryError)
  ∧ out.2 = [WarnUnzip (archive_copy_path (sample_task "s1"))]
  ∧ node_at (archive_copy_path (sample_task "s1") ++ ["s1.zip"]) out.1.2
    = Some (File "PK-frames")
  ∧ node_at (staging_dir (sample_task "s3")) out.1.2 = None.
Proof.
  split; [vm_compute; reflexivity|]. split; [vm_compute; reflexivity|].
  split; vm_compute; reflexivity.
Qed.

End abort_examples.

(* ================================================================== *)
(** * The pipeline on the sample tree *)

Section pipeline_examples.

Let out (E : env) (sid : string) := run E (process_series (sample_task sid)) sample_fs.

(** The sound unit: the frames are converted and deleted, the text file
    and the emptied sub-directory of the archive stay. *)
Example run_s1 :
  (out nominal "s1").1.1 = inr (Some ("ISPY2-100", "01-02-2003", "s1"))
  ∧ (out nominal "s1").2 = [Finished "s1" "ISPY2-100" "01-02-2003"]
  ∧ filter (λ e, ["out"] `prefix_of` e.1) (ls_R [] (out nominal "s1").1.2) =
      [ (["out"], None);
        (["out"; "ISPY2-100"], None);
        (["out"; "ISPY2-100"; "01-02-2003"], None);
        (["out"; "ISPY2-100"; "01-02-2003"; "s1"], None);
        (["out"; "ISPY2-100"; "01-02-2003"; "s1"; "sub"], None);
        (["out"; "ISPY2-100"; "01-02-2003"; "s1"; "s1.nii.gz"], Some "frame-a+frame-b");
        (["out"; "ISPY2-100"; "01-02-2003"; "s1"; "s1.json"], Some "{1}");
        (["out"; "ISPY2-100"; "01-02-2003"; "s1"; "readme.txt"], Some "notes") ].
Proof. by vm_compute. Qed.

Lemma abort_discards_staging_witness :
  (out nominal "s2").1.1 = inr None
  ∧ (out nominal "s2").2 = [WarnBadZip "s2"]
  ∧ node_at (staging_dir (sample_task "s2")) (out nominal "s2").1.2 = None.
Proof.
  destruct (abort_discards_staging nominal (sample_task "s2") sample_fs None
              (out nominal "s2").1.2 (out nominal "s2").2 (WarnBadZip "s2") [])
    as (_ & H2 & H3 & _).
  - by vm_compute.
  - vm_compute. set_solver.
  - left. reflexivity.
  - reflexivity.
  - split; [by vm_compute|]. split; [exact H2|exact H3].
Defined.


Lemma returned_value_and_warning_witness :
  (out nominal "s3").1.1 = inr None
  ∧ (out nominal "s3").2 = [WarnNoDicom "s3"].
Proof.
  destruct (returned_value_and_warning nominal (sample_task "s3") sample_fs None
              (out nominal "s3").1.2 (out nominal "s3").2) as [[H _]|[_ (w & Hw & _)]].
  - by vm_compute.
  - discriminate H.
  - split; by vm_compute.
Defined.

(** C7, counterexample.  No reading of the returned value tells the
    variants apart: the same unit on the same tree returns [None] both
    when its archive cannot be copied and when its archive is corrupt. *)
Lemma returned_value_does_not_identify_variant :
  ¬ ∃ identify : option (string * string * string) → UnitOutcome,
      ∀ E fs r fs' l,
        run E (process_series (sample_task "s2")) fs = (inr r, fs', l) →
        outcome_of_run (sample_task "s2") l = Some (identify r).
Proof.
  intros [identify H].
  pose proof (H nominal sample_fs None (out nominal "s2").1.2
                [WarnBadZip "s2"] ltac:(by vm_compute)) as H1.
  pose proof (H (sample_env sample_refusals) sample_fs None
                (out (sample_env sample_refusals) "s2").1.2
                [WarnCopyZip ["in"; "ISPY2-100"; "01-02-2003"; "s2.zip"]]
                ltac:(by vm_compute)) as H2.
  vm_compute in H1, H2. congruence.
Qed.

Lemma staging_after_return_witness :
  let fs' := (out nominal "s1").1.2 in
  file_at (volume_path (sample_task "s1")) fs'
  ∧ node_at (archive_copy_path (sample_task "s1")) fs' = None.
Proof.
  pose proof (staging_after_return nominal (sample_task "s1") sample_fs
                (Some ("ISPY2-100", "01-02-2003", "s1"))
                (out nominal "s1").1.2 (out nominal "s1").2 ltac:(by vm_compute)) as H.
  cbv beta iota in H. destruct H as (_ & H1 & H2 & _). exact (conj H1 H2).
Defined.

(** C2, counterexample.  After the sound unit of the sample tree has been
    processed, its staging directory also holds the text file that came
    with the archive. *)
Lemma staging_keeps_other_extracted_files :
  (out nominal "s1").1.1 = inr (Some ("ISPY2-100", "01-02-2003", "s1"))
  ∧ file_at (staging_dir (sample_task "s1") ++ ["readme.txt"]) (out nominal "s1").1.2
  ∧ ¬ staging_as_specified (sample_task "s1") (out nominal "s1").1.2.
Proof.
  split; [by vm_compute|]. split; [exists "notes"; by vm_compute|].
  unfold staging_as_specified.
  destruct (node_at (staging_dir (sample_task "s1")) (out nominal "s1").1.2)
    as [[d|es]|] eqn:Hs; [by vm_compute in Hs| |by vm_compute in Hs].
  intros [_ Hall]. destruct (Hall "readme.txt") as [H|H]; [|by vm_compute in H..].
  assert (node_at (staging_dir (sample_task "s1") ++ ["readme.txt"]) (out nominal "s1").1.2
          = Some (File "notes")) as Hf by (by vm_compute).
  rewrite node_at_snoc, Hs in Hf. by rewrite Hf.
Qed.

Lemma makedirs_failure_escapes_witness :
  run (sample_env read_only_output)
      (organize_and_clean [sample_task "s1"; sample_task "s2"] ["out"]) sample_fs
  = (inl (Exc PermissionError), sample_fs, []).
Proof.
  apply (makedirs_failure_escapes (sample_env read_only_output)
           (sample_task "s1") [sample_task "s2"] sample_fs).
  reflexivity.
Defined.

(** The same happens when the copied archive cannot be removed after a
    successful extraction. *)
Example archive_removal_failure_escapes :
  (run (sample_env (λ o, match o with Remove _ => true | _ => false end))
       (organize_and_clean [sample_task "s1"; sample_task "s2"] ["out"]) sample_fs).1.1
  = inl (Exc PermissionError).
Proof. by vm_compute. Qed.

End pipeline_examples.

(* ================================================================== *)
(** * The unit locator: one task per stem with both files *)

(** C6.  For a date directory that can be listed, [main] builds exactly
    one task per stem that is both the stem of a regular [.zip] file and
    the stem of a regular [.json] file of that directory: the unit ids of
    the tasks are the intersection of the two stem sets, each once; stems
    of one kind only yield nothing, silently. *)
Theorem tasks_are_stem_intersection E fs patient_folder date_folder
    input_dir output_dir listing :
  let date_path := (input_dir ++ [patient_folder]) ++ [date_folder] in
  let both := archive_stems E fs date_path listing ∩ sidecar_stems E fs date_path listing in
  exec E (Listdir date_path) fs = (inr listing, fs) →
  ∃ tasks,
    run E (date_tasks patient_folder date_folder input_dir output_dir) fs
      = (inr tasks, fs, [])
    ∧ NoDup tasks
    ∧ list_to_set (unit_id <$> tasks) = both
    ∧ length tasks = size both
    ∧ ∀ t, t ∈ tasks →
        t = (patient_folder, date_folder, unit_id t, input_dir, output_dir).
Proof.
  intros date_path both Hls.
  exists ((λ sid, (patient_folder, date_folder, sid, input_dir, output_dir))
            <$> elements both).
  split_and!.
  - unfold date_tasks. prog_unfold. rewrite run_bind.
    fold date_path. rewrite (run_filter_series E _ _ _ Hls). run_simpl. by cbn [run].
  - apply NoDup_fmap_2; [|apply NoDup_elements]. by intros ?? [= ->].
  - rewrite <-list_fmap_compose. apply set_eq. intros x.
    rewrite elem_of_list_to_set, list_elem_of_fmap. split.
    + intros (sid & -> & Hsid). by apply elem_of_elements in Hsid.
    + intros Hx. exists x. split; [done|]. by apply elem_of_elements.
  - by rewrite length_fmap.
  - intros t (sid & -> & _)%list_elem_of_fmap. done.
Qed.

(* ================================================================== *)
(** * The sweep *)

(** C8.  After a sweep in which nothing was refused, a second sweep of
    the same root -- whatever the system refuses this time -- returns
    without raising and leaves the file system exactly as it found it: no
    file and no directory is removed. *)
Theorem sweep_idempotent E1 E2 root_dir fs :
  no_refusal E1 →
  ∃ fs1 l1,
    run E1 (remove_invalid_files_and_empty_dirs root_dir) fs = (inr tt, fs1, l1)
    ∧ ∃ l2,
        run E2 (remove_invalid_files_and_empty_dirs root_dir) fs1 = (inr tt, fs1, l2).
Proof.
  intros HE.
  destruct (run_sweep E1 root_dir fs) as [l1 H1].
  destruct (run_sweep E2 root_dir (swept E1 root_dir fs)) as [l2 H2].
  rewrite swept_twice in H2 by done. eauto.
Qed.

(** C10.  The walk of the second loop ends with the root itself: when
    the first loop leaves the root directory without any entry, and the
    root is not [/] and the system refuses neither to walk it, to list
    it nor to remove it, the sweep removes the root directory. *)
Theorem sweep_removes_empty_root E root_dir fs fs1 l1 :
  root_dir ≠ [] →
  denied E (Walk false root_dir) = false →
  denied E (Listdir root_dir) = false →
  denied E (Rmdir root_dir) = false →
  run E (remove_invalid_files root_dir) fs = (inr tt, fs1, l1) →
  node_at root_dir fs1 = Some (Dir ∅) →
  ∃ fs2 l,
    run E (remove_invalid_files_and_empty_dirs root_dir) fs = (inr tt, fs2, l)
    ∧ node_at root_dir fs2 = None.
Proof.
  intros Hne Hw Hls Hrm Hrun1 Hroot.
  destruct (run_remove_empty_dirs E root_dir fs1) as [l2 H2].
  rewrite Hw, Hroot in H2.
  assert (prune_dirs E root_dir (Dir ∅) = None) as Hpr.
  { simpl. rewrite map_imap_empty, bool_decide_eq_true_2 by done.
    unfold can_rmdir. by rewrite Hls, Hrm, bool_decide_eq_true_2. }
  rewrite Hpr in H2. cbn [graft] in H2.
  exists (put root_dir None fs1), (l1 ++ l2). split.
  - unfold remove_invalid_files_and_empty_dirs. prog_unfold.
    rewrite run_bind. rewrite_run Hrun1. run_simpl. by rewrite_run H2.
  - by eapply unlink_dir_gone.
Qed.

(** Every file named [<something>.nii.gz] below the root is deleted by
    the sweep, unless the system refuses. *)
Lemma sweep_deletes_nii_gz E root_dir q sid fs :
  file_at ((root_dir ++ q) ++ [sid +:+ ".nii.gz"]) fs →
  denied E (Walk false root_dir) = false →
  denied E (Remove ((root_dir ++ q) ++ [sid +:+ ".nii.gz"])) = false →
  node_at ((root_dir ++ q) ++ [sid +:+ ".nii.gz"]) (swept E root_dir fs) = None.
Proof.
  intros [d Hf] Hw Hrm. set (x := sid +:+ ".nii.gz") in *.
  rewrite <-(assoc_L (++)) in Hf. rewrite <-(assoc_L (++)).
  destruct (node_at root_dir fs) as [n|] eqn:Hn.
  2:{ by rewrite node_at_app, Hn in Hf. }
  rewrite node_at_app, Hn in Hf. simpl in Hf.
  unfold swept. rewrite Hw, Hn.
  pose proof (sweep_files_removes E n root_dir q x d Hf (invalid_file_nii_gz sid) Hrm) as H1.
  set (n1 := sweep_files E root_dir n) in *.
  assert (node_at root_dir (subst root_dir n1 fs) = Some n1) as Hn1
    by (apply node_at_subst_eq; by rewrite Hn).
  rewrite Hn1. set (fs1 := subst root_dir n1 fs) in *. clearbody fs1.
  destruct (prune_dirs E root_dir n1) as [n2|] eqn:Hpr; simpl.
  - rewrite node_at_subst_under by (by rewrite Hn1). by eapply prune_dirs_absent.
  - destruct n1 as [d1|es1]; [done|]. simpl in Hpr.
    destruct (bool_decide _ && can_rmdir E root_dir) eqn:Hc; [|done].
    apply andb_true_iff in Hc as [_ Hc]. unfold can_rmdir in Hc.
    apply andb_true_iff in Hc as [Hc _]. apply andb_true_iff in Hc as [Hc _].
    apply bool_decide_eq_true in Hc.
    rewrite node_at_app, (unlink_dir_gone _ _ _ Hc Hn1). done.
Qed.

(** C1, where the code falls short.  The extension the sweep computes for
    [<series_id>.nii.gz] is [.gz], which is not in [VALID_EXTENSIONS]: the
    volume a completed unit has just written is there before the sweep
    and gone after it, unless the system refuses the walk or the
    deletion. *)
Theorem completed_volume_is_swept E t fs id fs1 l1 :
  run E (process_series t) fs = (inr (Some id), fs1, l1) →
  denied E (Walk false (t.2)) = false →
  denied E (Remove (volume_path t)) = false →
  file_at (volume_path t) fs1
  ∧ ∃ fs2 l2,
      run E (remove_invalid_files_and_empty_dirs (t.2)) fs1 = (inr tt, fs2, l2)
      ∧ node_at (volume_path t) fs2 = None.
Proof.
  intros Hrun Hw Hrm.
  pose proof (process_series_runs E t fs) as Hpost. rewrite Hrun in Hpost.
  destruct Hpost as (_ & _ & Hvol & _). split; [done|].
  destruct (run_sweep E (t.2) fs1) as [l2 H2].
  exists (swept E (t.2) fs1), l2. split; [done|].
  destruct t as [[[[pf df] sid] ind] outd].
  unfold volume_path, staging_dir, unit_id in *. cbn [fst snd] in *.
  assert (((outd ++ [pf; df]) ++ [sid]) ++ [sid +:+ ".nii.gz"]
          = (outd ++ ([pf; df] ++ [sid])) ++ [sid +:+ ".nii.gz"]) as Heq
    by (by rewrite <-(assoc_L (++) outd)).
  rewrite Heq in *.
  by apply (sweep_deletes_nii_gz E outd ([pf; df] ++ [sid]) sid).
Qed.

(* ================================================================== *)
(** * The locator and the sweep on the sample tree *)

Section sweep_examples.

Lemma sample_archive_stems :
  archive_stems nominal sample_fs sample_date_path sample_listing
  = {[ "s1"; "s2"; "s3"; "s4" ]}.
Proof.
  apply set_eq. intros x. unfold archive_stems, stems.
  rewrite elem_of_list_to_set. vm_compute filter. set_solver.
Qed.

Lemma sample_sidecar_stems :
  sidecar_stems nominal sample_fs sample_date_path sample_listing
  = {[ "s1"; "s2"; "s3" ]}.
Proof.
  apply set_eq. intros x. unfold sidecar_stems, stems.
  rewrite elem_of_list_to_set. vm_compute filter. set_solver.
Qed.

Lemma tasks_are_stem_intersection_witness :
  ∃ tasks,
    run nominal (date_tasks "ISPY2-100" "01-02-2003" ["in"] ["out"]) sample_fs
      = (inr tasks, sample_fs, [])
    ∧ NoDup tasks
    ∧ ∀ sid, sid ∈ (list_to_set (unit_id <$> tasks) : gset string)
             ↔ sid = "s1" ∨ sid = "s2" ∨ sid = "s3".
Proof.
  destruct (tasks_are_stem_intersection nominal sample_fs "ISPY2-100" "01-02-2003"
              ["in"] ["out"] sample_listing) as (tasks & Hrun & Hnd & Hset & _).
  { by vm_compute. }
  exists tasks. split; [done|]. split; [done|]. intros sid. rewrite Hset.
  change ((["in"] ++ ["ISPY2-100"]) ++ ["01-02-2003"]) with sample_date_path.
  rewrite sample_archive_stems, sample_sidecar_stems.
  clear. rewrite elem_of_intersection, !elem_of_union, !elem_of_singleton.
  split.
  - intros [_ [[H|H]|H]]; auto.
  - intros [H|[H|H]]; subst sid; auto.
Defined.

(** The output tree the three sample units leave behind. *)
Let organized : node :=
  (run nominal (organize_serial [sample_task "s1"; sample_task "s2"; sample_task "s3"])
       sample_fs).1.2.

Lemma sweep_idempotent_witness :
  ∃ fs1 l1,
    run nominal (remove_invalid_files_and_empty_dirs ["out"]) organized
      = (inr tt, fs1, l1)
    ∧ ∃ l2,
        run (sample_env sample_refusals) (remove_invalid_files_and_empty_dirs ["out"]) fs1
          = (inr tt, fs1, l2).
Proof.
  apply (sweep_idempotent nominal (sample_env sample_refusals) ["out"] organized).
  intros o. reflexivity.
Defined.

(** What the first sweep of that tree removes: the volume, the text file
    and the emptied sub-directory; the sidecar stays. *)
Example sweep_of_organized :
  let out := run nominal (remove_invalid_files_and_empty_dirs ["out"]) organized in
  out.2 =
    [ InfoRemovedFile ["out"; "ISPY2-100"; "01-02-2003"; "s1"; "s1.nii.gz"];
      InfoRemovedFile ["out"; "ISPY2-100"; "01-02-2003"; "s1"; "readme.txt"];
      InfoRemovedDir ["out"; "ISPY2-100"; "01-02-2003"; "s1"; "sub"] ]
  ∧ filter (λ e, ["out"] `prefix_of` e.1) (ls_R [] out.1.2) =
      [ (["out"], None);
        (["out"; "ISPY2-100"], None);
        (["out"; "ISPY2-100"; "01-02-2003"], None);
        (["out"; "ISPY2-100"; "01-02-2003"; "s1"], None);
        (["out"; "ISPY2-100"; "01-02-2003"; "s1"; "s1.json"], Some "{1}") ].
Proof. by vm_compute. Qed.

Lemma sweep_removes_empty_root_witness :
  ∃ fs2 l,
    run nominal (remove_invalid_files_and_empty_dirs ["out"]) stray_fs = (inr tt, fs2, l)
    ∧ node_at ["out"] fs2 = None.
Proof.
  apply (sweep_removes_empty_root nominal ["out"] stray_fs
           (run nominal (remove_invalid_files ["out"]) stray_fs).1.2
           (run nominal (remove_invalid_files ["out"]) stray_fs).2).
  - done.
  - reflexivity.
  - reflexivity.
  - reflexivity.
  - by vm_compute.
  - by vm_compute.
Defined.

Lemma completed_volume_is_swept_witness :
  let fs1 := (run nominal (process_series (sample_task "s1")) sample_fs).1.2 in
  file_at (volume_path (sample_task "s1")) fs1
  ∧ ∃ fs2 l2,
      run nominal (remove_invalid_files_and_empty_dirs ["out"]) fs1 = (inr tt, fs2, l2)
      ∧ node_at (volume_path (sample_task "s1")) fs2 = None.
Proof.
  apply (completed_volume_is_swept nominal (sample_task "s1") sample_fs
           ("ISPY2-100", "01-02-2003", "s1") _
           (run nominal (process_series (sample_task "s1")) sample_fs).2).
  - by vm_compute.
  - reflexivity.
  - reflexivity.
Defined.

(** The whole of [main] from the dispatch on, for the sound unit alone:
    the unit completes, and the sweep that follows deletes its volume. *)
Example organized_volume_lost :
  let out := run nominal (organize_and_clean [sample_task "s1"] ["out"]) sample_fs in
  out.1.1 = inr tt
  ∧ Finished "s1" "ISPY2-100" "01-02-2003" ∈ out.2
  ∧ node_at (volume_path (sample_task "s1")) out.1.2 = None
  ∧ file_at (sidecar_copy_path (sample_task "s1")) out.1.2.
Proof.
  split; [by vm_compute|]. split; [vm_compute; set_solver|].
  split; [by vm_compute|]. exists "{1}". by vm_compute.
Qed.

End sweep_examples.

(* ================================================================== *)
(** * The pool against the serial loop *)

(** Where no call of [process_series] raises, the order the workers move
    in does not matter.  For the tasks [main] builds (pairwise different,
    under the same two roots) with input and output root apart, and a
    serial loop that runs through: whatever the schedule, no worker of the
    pool raises; once every task is handed out and every worker is idle
    again, the values the pool yielded are those of the serial loop up to
    their order; and with at least one worker there are schedules that
    get there. *)
Theorem pool_yields_what_serial_yields E nprocs input_dir output_dir tasks fs vals fs1 l1 :
  apart input_dir output_dir →
  Forall (rooted input_dir output_dir) tasks → NoDup tasks →
  serial_map E tasks fs = Dispatch vals None fs1 l1 →
  (∀ schedule,
     let st := pool_run E schedule (pool_start nprocs tasks fs) in
     raised (seen st) = None
     ∧ (pool_done st = true → yielded (seen st) ≡ₚ vals))
  ∧ (0 < nprocs →
     ∃ schedule, pool_done (pool_run E schedule (pool_start nprocs tasks fs)) = true).
Proof.
  intros Hroots Hall Hnd Hser.
  destruct (serial_map_alone E _ _ fs tasks Hroots Hall Hnd fs) as [HR HL].
  { intros t _. apply same_view_refl. }
  { by rewrite Hser. }
  rewrite Hser in HR, HL. cbn [yielded lines] in HR, HL.
  assert (Forall (λ r, is_Some (returned r)) ((λ t, (alone E fs t).1) <$> tasks)) as Hret.
  { rewrite <-HR. apply Forall_fmap, Forall_forall. intros v _. by eexists. }
  pose proof (pool_inv_start E _ _ nprocs tasks fs Hall Hnd) as Hstart.
  assert (∀ schedule,
    let st := pool_run E schedule (pool_start nprocs tasks fs) in
    raised (seen st) = None
    ∧ (pool_done st = true → yielded (seen st) ≡ₚ vals)) as Hall_schedules.
  { intros schedule st.
    destruct (pool_inv_run E _ _ Hroots _ _ Hret schedule _ Hstart) as [Hex Hinv].
    split; [done|]. intros Hdone. fold st in Hinv.
    rewrite (pool_done_live st Hdone) in Hinv. destruct Hinv as [_ _ _ H4 H5].
    cbn [pending fmap list_fmap mjoin list_join] in H4, H5.
    rewrite app_nil_r in H4.
    rewrite <-(omap_returned_inr (yielded (seen st))), <-(omap_returned_inr vals).
    by rewrite H4, HR. }
  split; [done|]. intros Hn.
  destruct nprocs as [|n]; [lia|].
  destruct (queue_finishes E (replicate n None) tasks (Dispatch [] None fs []))
    as (schedule & d' & [Hrun|[Hr [q' Hrun]]]); exists schedule.
  - change (pool_start (S n) tasks fs)
      with (Pool tasks (None :: replicate n None) (Dispatch [] None fs [])).
    rewrite Hrun. apply (pool_done_idle (S n)).
  - exfalso. destruct (Hall_schedules schedule) as [Hnone _].
    change (pool_start (S n) tasks fs)
      with (Pool tasks (None :: replicate n None) (Dispatch [] None fs [])) in Hnone.
    rewrite Hrun in Hnone. cbn [seen] in Hnone. rewrite Hnone in Hr. by destruct Hr.
Qed.

Section pool_examples.

Let units : list task := [sample_task "s1"; sample_task "s2"; sample_task "s3"].

Lemma pool_yields_what_serial_yields_witness :
  (∀ schedule,
     let st := pool_run nominal schedule (pool_start 2 units sample_fs) in
     raised (seen st) = None
     ∧ (pool_done st = true →
        yielded (seen st) ≡ₚ [Some ("ISPY2-100", "01-02-2003", "s1"); None; None]))
  ∧ (0 < 2 →
     ∃ schedule, pool_done (pool_run nominal schedule (pool_start 2 units sample_fs)) = true).
Proof.
  apply (pool_yields_what_serial_yields nominal 2 ["in"] ["out"] units sample_fs _
           (disk (serial_map nominal units sample_fs))
           (lines (serial_map nominal units sample_fs))).
  - split; intros [k Hk]; discriminate Hk.
  - repeat constructor.
  - apply NoDup_ListNoDup. repeat constructor; simpl; intros H; intuition discriminate.
  - by vm_compute.
Defined.

(** Two workers taking turns call by call: the corrupt unit is through
    first, the sound one second, the unit without frames, handed out
    last, is through last. *)
Example pool_taking_turns :
  let st := pool_run nominal (mjoin (replicate 20 [0; 1]))
              (pool_start 2 units sample_fs) in
  pool_done st = true
  ∧ yielded (seen st) = [None; Some ("ISPY2-100", "01-02-2003", "s1"); None].
Proof. by vm_compute. Qed.

(** C9, where the code falls short.  On a tree where [os.makedirs] of the
    staging directory of [s2] raises, the serial loop yields the value of
    [s1] before the exception ends it, while the pool with two workers,
    when the second worker is the faster one, yields nothing: the
    exception of [s2] ends the iteration and the pool with the call of
    [s1] under way, whatever the schedule is from there on. *)
Example pool_differs_when_a_call_raises :
  let tasks := [sample_task "s1"; sample_task "s2"] in
  let serial := serial_map nominal tasks blocked_fs in
  let st := pool_run nominal [0; 1; 1; 1; 1] (pool_start 2 tasks blocked_fs) in
  yielded serial = [Some ("ISPY2-100", "01-02-2003", "s1")]
  ∧ raised serial = Some (Exc FileExistsError)
  ∧ file_at (volume_path (sample_task "s1")) (disk serial)
  ∧ (∀ more, pool_run nominal more st = st)
  ∧ yielded (seen st) = []
  ∧ raised (seen st) = Some (Exc FileExistsError)
  ∧ node_at (volume_path (sample_task "s1")) (disk (seen st)) = None
  ∧ ¬ yielded (seen st) ≡ₚ yielded serial.
Proof.
  intros tasks serial st.
  assert (yielded serial = [Some ("ISPY2-100", "01-02-2003", "s1")]) as Hs.
  { vm_compute. reflexivity. }
  assert (yielded (seen st) = []) as Hy.
  { vm_compute. reflexivity. }
  assert (raised (seen st) = Some (Exc FileExistsError)) as Hr.
  { vm_compute. reflexivity. }
  split; [exact Hs|]. split; [vm_compute; reflexivity|].
  split; [exists "frame-a+frame-b"; vm_compute; reflexivity|].
  split; [intros more; apply pool_run_over; rewrite Hr; by eexists|].
  split; [exact Hy|]. split; [exact Hr|].
  split; [vm_compute; reflexivity|].
  rewrite Hs, Hy. intros H. apply Permutation_length in H. discriminate H.
Qed.

End pool_examples.

(* ================================================================== *)
(** * More on [process_series] *)

(** [process_series] works in its staging directory and nowhere else:
    whatever the call does and however it ends, a path that does not lead
    through the staging directory and that the staging directory does not
    lead through finds what it found before, and a regular file outside
    the staging directory is still there with the same bytes.  (The
    directories on the way to the staging directory may have been
    created.) *)
Theorem process_series_elsewhere E t fs q :
  ¬ staging_dir t `prefix_of` q →
  (¬ q `prefix_of` staging_dir t →
   node_at q (run E (process_series t) fs).1.2 = node_at q fs)
  ∧ (∀ d, node_at q fs = Some (File d) →
          node_at q (run E (process_series t) fs).1.2 = Some (File d)).
Proof. intros Hq. apply run_elsewhere; [apply confined_process_series|done]. Qed.

(** What [process_series] returns or raises and what it prints depend on
    three things only: its staging directory, its two input files, and
    where regular files sit on the way to the staging directory.  On two
    file systems that agree on these, the call ends the same way, prints
    the same lines and leaves file systems that agree on them again. *)
Theorem process_series_depends_on_view E t fs1 fs2 :
  inputs_clear t t → same_view t fs1 fs2 →
  (run E (process_series t) fs1).1.1 = (run E (process_series t) fs2).1.1
  ∧ (run E (process_series t) fs1).2 = (run E (process_series t) fs2).2
  ∧ same_view t (run E (process_series t) fs1).1.2 (run E (process_series t) fs2).1.2.
Proof.
  intros Hclear Hv.
  destruct (run_same_view E t (process_series t) Hclear (confined_process_series t)
              fs1 fs2 Hv) as [Hf Hv'].
  unfold future in Hf. by simplify_eq.
Qed.

(* ================================================================== *)
(** * More on [filter_series] *)

(** [filter_series] only reads: it leaves the file system as it is and
    prints nothing; it raises exactly when [os.listdir] of the date folder
    does, with the same exception, and otherwise returns the stems common
    to the regular [.zip] and [.json] files of the listing. *)
Theorem filter_series_reads_only E date_path fs :
  ∃ r, run E (filter_series date_path) fs = (r, fs, [])
       ∧ match (exec E (Listdir date_path) fs).1 with
         | inl e => r = inl (Exc e)
         | inr listing =>
             r = inr (archive_stems E fs date_path listing
                      ∩ sidecar_stems E fs date_path listing)
         end.
Proof.
  eexists. split; [apply run_filter_series_any|].
  by destruct ((exec E (Listdir date_path) fs).1).
Qed.

(* ================================================================== *)
(** * More on the sweep *)


(** The sweep only removes.  Whatever the system refuses, a path that led
    nowhere before the sweep leads nowhere after it, and a regular file
    found after the sweep was there before, with the same bytes. *)
Theorem sweep_only_removes E root_dir fs q :
  let fs' := (run E (remove_invalid_files_and_empty_dirs root_dir) fs).1.2 in
  (node_at q fs = None → node_at q fs' = None)
  ∧ (∀ d, node_at q fs' = Some (File d) → node_at q fs = Some (File d)).
Proof.
  cbv zeta. rewrite run_sweep_disk.
  destruct (swept_cases E root_dir fs)
    as [[-> _]|(n & Hn & [(n2 & Hp & ->)|(Hp & Hroot & [es ->] & ->)])]; [done| |].
  - destruct (path_cases root_dir q) as [[r ->]|[[r Hr]|Hdiv]].
    + rewrite node_at_subst_under by (by rewrite Hn).
      rewrite node_at_app, Hn. simpl. split.
      * intros Hq. eapply prune_dirs_absent; [done|]. by apply sweep_files_absent.
      * intros d Hd. eapply sweep_files_file, prune_dirs_file; done.
    + destruct (decide (r = [])) as [->|Hr'].
      { rewrite (right_id_L [] (++)) in Hr. subst q.
        rewrite node_at_subst_eq by (by rewrite Hn). rewrite Hn. split; [done|].
        intros d [= ->].
        pose proof (sweep_files_file E n root_dir [] d
                      (prune_dirs_file E _ root_dir (File d) [] d Hp eq_refl)) as H.
        simpl in H. by simplify_eq. }
      subst root_dir.
      destruct (node_at_above_dir q r fs Hr' ltac:(by rewrite Hn)) as [es Hes].
      destruct (node_at_subst_above q r n2 fs Hr' ltac:(by rewrite Hn)) as [es' Hes'].
      rewrite Hes, Hes'. by split.
    + destruct Hdiv as (c & x & y & p' & q' & Hxy & -> & ->).
      by rewrite node_at_subst_diverge.
  - destruct (decide (root_dir `prefix_of` q)) as [[r ->]|Hq].
    + assert (node_at (root_dir ++ r) (put root_dir None fs) = None) as ->; [|done].
      rewrite node_at_app, (unlink_dir_gone _ es); done.
    + pose proof (unlink_frame _ _ _ q Hroot Hn Hq) as [Hf Heq].
      destruct (decide (q `prefix_of` root_dir)) as [[r Hr]|Hq'].
      * assert (r ≠ []) as Hr'.
        { intros ->. rewrite (right_id_L [] (++)) in Hr. apply Hq. by rewrite Hr. }
        subst root_dir.
        destruct (node_at_above_dir q r fs Hr' ltac:(by rewrite Hn)) as [es1 Hes1].
        rewrite Hes1. split; [done|]. intros d Hd.
        destruct (proj1 Hf) as [d' Hd']; [by exists d|]. congruence.
      * rewrite (Heq Hq'). by split.
Qed.

(** The sweep keeps what passes its test.  Whatever the system refuses, a
    regular file below the root whose name has an extension of
    [VALID_EXTENSIONS] (in any case) or is one of [VALID_FILENAMES] is
    still there after the sweep, with the same bytes. *)
Theorem sweep_keeps_valid_files E root_dir fs q x d :
  node_at ((root_dir ++ q) ++ [x]) fs = Some (File d) →
  invalid_file x = false →
  node_at ((root_dir ++ q) ++ [x])
    (run E (remove_invalid_files_and_empty_dirs root_dir) fs).1.2 = Some (File d).
Proof.
  intros Hq Hinv. rewrite run_sweep_disk.
  destruct (swept_cases E root_dir fs)
    as [[-> _]|(n & Hn & Hcases)]; [done|].
  rewrite <-(assoc_L (++)) in Hq |- *.
  pose proof Hq as Hq'. rewrite node_at_app, Hn in Hq'. simpl in Hq'.
  apply (sweep_files_keeps E n root_dir) in Hq'; [|done].
  destruct (prune_dirs_keeps E _ root_dir _ _ Hq') as (n' & Hn' & Hfile).
  destruct Hcases as [(n2 & Hp & ->)|(Hp & _)]; [|congruence].
  rewrite node_at_subst_under by (by rewrite Hn). congruence.
Qed.


(** The sweep stays below its root: a path that does not lead through the
    root and that the root does not lead through finds after the sweep
    what it found before. *)
Theorem sweep_elsewhere E root_dir fs q :
  apart root_dir q →
  node_at q (run E (remove_invalid_files_and_empty_dirs root_dir) fs).1.2 = node_at q fs.
Proof. intros Hq. rewrite run_sweep_disk. by apply swept_apart. Qed.

(** The entry [".nii.gz"] of [VALID_EXTENSIONS] never matches: the
    extension [os.path.splitext] returns holds one dot at most, so the
    sweep's test on a file name is the test against [".dcm"] and
    [".json"] (in any case) and the name [LICENSE]. *)
Theorem nii_gz_entry_never_matches fname :
  lower (splitext fname).2 ≠ ".nii.gz"
  ∧ invalid_file fname =
      negb (bool_decide (lower (splitext fname).2 ∈ ({[ ".dcm"; ".json" ]} : gset string)))
      && negb (bool_decide (fname = "LICENSE")).
Proof.
  assert (lower (splitext fname).2 ≠ ".nii.gz") as Hne.
  { intros Heq. apply (f_equal (rfind ".")) in Heq.
    rewrite rfind_dot_lower in Heq.
    destruct (splitext_ext_dot fname) as [H|H]; rewrite H in Heq; done. }
  split; [done|]. unfold invalid_file, VALID_EXTENSIONS, VALID_FILENAMES. cbv zeta.
  f_equal; f_equal; apply bool_decide_ext; set_solver.
Qed.

Section more_examples.

Let s1 : task := sample_task "s1".
Let s1_zip : path := ["in"; "ISPY2-100"; "01-02-2003"; "s1.zip"].

(** After the sound unit is processed, its archive in the input tree is
    what it was. *)
Lemma process_series_elsewhere_witness :
  node_at s1_zip (run nominal (process_series s1) sample_fs).1.2
  = Some (File "PK-frames").
Proof.
  destruct (process_series_elsewhere nominal s1 sample_fs s1_zip) as [H _].
  - intros [k Hk]. discriminate Hk.
  - rewrite H; [reflexivity|]. intros [k Hk]. discriminate Hk.
Defined.

(** The sound unit ends the same way whether or not the corrupt unit was
    processed before it. *)
Lemma process_series_depends_on_view_witness :
  let fs2 := (run nominal (process_series (sample_task "s2")) sample_fs).1.2 in
  (run nominal (process_series s1) sample_fs).1.1 = (run nominal (process_series s1) fs2).1.1
  ∧ (run nominal (process_series s1) sample_fs).2 = (run nominal (process_series s1) fs2).2.
Proof.
  intros fs2.
  assert (apart ["in"] ["out"]) as Hroots.
  { split; intros [k Hk]; discriminate Hk. }
  destruct (process_series_depends_on_view nominal s1 sample_fs fs2) as (H1 & H2 & _).
  - apply (rooted_clear ["in"] ["out"] Hroots); by split.
  - apply (run_other_view nominal (sample_task "s2")); [|apply confined_process_series].
    apply (rooted_separate ["in"] ["out"] Hroots); [by split|by split|discriminate].
  - by split.
Defined.

(** The tree the three sample units leave behind. *)
Let organized : node :=
  (run nominal (organize_serial [sample_task "s1"; sample_task "s2"; sample_task "s3"])
       sample_fs).1.2.

Lemma sweep_keeps_valid_files_witness :
  node_at ["out"; "ISPY2-100"; "01-02-2003"; "s1"; "s1.json"]
    (run (sample_env sample_refusals) (remove_invalid_files_and_empty_dirs ["out"])
       organized).1.2
  = Some (File "{1}").
Proof.
  apply (sweep_keeps_valid_files (sample_env sample_refusals) ["out"] organized
           ["ISPY2-100"; "01-02-2003"; "s1"] "s1.json" "{1}").
  - vm_compute. reflexivity.
  - vm_compute. reflexivity.
Defined.


Lemma sweep_elsewhere_witness :
  node_at s1_zip (run nominal (remove_invalid_files_and_empty_dirs ["out"]) organized).1.2
  = node_at s1_zip organized.
Proof.
  apply (sweep_elsewhere nominal ["out"] organized s1_zip).
  split; intros [k Hk]; discriminate Hk.
Defined.


(** With a standard output that is full the sweep removes the first
    invalid file and is ended by the [print] of its handler. *)
Example full_stdout_ends_sweep :
  let out := run_strict nominal stdout_full
               (remove_invalid_files_and_empty_dirs ["out"]) stray_fs in
  out.1.1 = inl (Exc OSError)
  ∧ node_at ["out"; "notes.txt"] out.1.2 = None
  ∧ dir_at ["out"] out.1.2.
Proof.
  split; [vm_compute; reflexivity|]. split; [vm_compute; reflexivity|].
  exists ∅. vm_compute. reflexivity.
Qed.

End more_examples.

(* ================================================================== *)
(** * The scan of [main] *)

(** The scan only reads: however it ends, it leaves the file system as
    it found it. *)
Theorem scan_reads_only W input_dir output_dir fs :
  (scan_input W input_dir output_dir fs).1.2 = fs.
Proof. apply (scan_input_yields W input_dir output_dir fs). Qed.

(** The tasks [main] builds when the scan runs through: one task for
    every unit id [filter_series] finds in a date folder whose name
    [strptime] accepts, inside a patient folder whose name starts with
    [ACRIN-6698] or [ISPY2], both being directories; each task carries the
    two roots given to [main]; and there are no others. *)
Theorem scan_builds_the_tasks W input_dir output_dir fs tasks fs' l :
  scan_input W input_dir output_dir fs = (inr tasks, fs', l) →
  ∀ pf df sid i o,
    (pf, df, sid, i, o) ∈ tasks ↔
    i = input_dir ∧ o = output_dir
    ∧ pf ∈ subdirs_of W fs input_dir ∧ recognized pf = true
    ∧ df ∈ subdirs_of W fs (input_dir ++ [pf]) ∧ strptime_ok W df = true
    ∧ sid ∈ series_of W fs ((input_dir ++ [pf]) ++ [df]).
Proof.
  intros Hscan pf df sid i o.
  destruct (scan_input_yields W input_dir output_dir fs) as [_ Hy].
  rewrite Hscan in Hy. cbn [fst snd] in Hy. destruct Hy as [-> _].
  rewrite elem_of_tasks_of_input. split.
  - intros (pf' & df' & sid' & [= -> -> -> -> ->] & ?). done.
  - intros (-> & -> & ?). by exists pf, df, sid.
Qed.

(** The tasks [main] builds are pairwise different and all carry the two
    roots given to [main]: they are a task list as the pool needs it. *)
Theorem scan_tasks_differ W input_dir output_dir fs tasks fs' l :
  scan_input W input_dir output_dir fs = (inr tasks, fs', l) →
  NoDup tasks ∧ Forall (rooted input_dir output_dir) tasks.
Proof.
  intros Hscan.
  destruct (scan_input_yields W input_dir output_dir fs) as [_ Hy].
  rewrite Hscan in Hy. cbn [fst snd] in Hy. destruct Hy as [-> _].
  split; [apply NoDup_tasks_of_input|].
  apply Forall_forall. intros t Ht.
  apply elem_of_tasks_of_input in Ht as (pf & df & sid & -> & _). by split.
Qed.

(** When the scan raises.  None of the calls of [os.listdir] and none
    of the [print]s of the scan is inside a [try].  With a standard
    output that takes every line, the scan runs through exactly when
    [os.listdir] succeeds on every folder it has to list, which are the
    input root, the patient folders with a recognized name and their date
    folders with a valid name. *)
Theorem scan_runs_through_iff W input_dir output_dir fs :
  stdout_sound W →
  is_Some (returned_tasks (scan_input W input_dir output_dir fs))
  ↔ ∀ p, scanned W fs input_dir p → listable W fs p.
Proof.
  intros Hout. rewrite <-scanned_listable.
  destruct (scan_input_yields W input_dir output_dir fs) as [_ Hy].
  unfold returned_tasks.
  destruct ((scan_input W input_dir output_dir fs).1.1) as [s|tasks].
  - split; [by intros [? ?]|]. intros Hall. by destruct Hy as [Hn|Hn]; destruct Hn.
  - split; [by intros _; apply Hy|by eexists].
Qed.

(** Whatever the standard output does, one folder the scan has to list
    and cannot ends [main] with an exception before any unit is
    processed: the file system is as it was. *)
Theorem unlistable_folder_ends_main W input_dir output_dir fs p :
  scanned W fs input_dir p → ¬ listable W fs p →
  ∃ s l, main_serial W input_dir output_dir fs = (inl s, fs, l).
Proof.
  intros Hp Hno. unfold main_serial. rewrite scan_bind_eq.
  destruct (scan_input_yields W input_dir output_dir fs) as [Hfs Hy].
  destruct (scan_input W input_dir output_dir fs) as [[[s|tasks] fs1] l1];
    cbn [fst snd] in *; subst fs1.
  - by exists s, l1.
  - destruct Hy as [_ Hall]. destruct Hno.
    rewrite scanned_listable in Hall. by apply Hall.
Qed.

Section scan_examples.

Let found : list task :=
  Eval vm_compute in
    default [] (returned_tasks (scan_input (sample_world nominal) ["in"] ["out"] scan_fs)).

(** The scan of the sample input tree: what it prints and what it
    returns. *)
Example scan_of_sample :
  let out := scan_input (sample_world nominal) ["in"] ["out"] scan_fs in
  out.2 = [Scanning ["in"]; SkippingPatient "OTHER-7"; FoundPatient "ISPY2-100";
           SkippingDate "2003-01-02"; FoundPairs 3]
  ∧ out.1.1 = inr found
  ∧ found ≡ₚ [sample_task "s1"; sample_task "s2"; sample_task "s3"].
Proof.
  split; [vm_compute; reflexivity|]. split; [vm_compute; reflexivity|].
  apply NoDup_Permutation.
  - apply NoDup_ListNoDup. repeat constructor; simpl; intros H; intuition discriminate.
  - apply NoDup_ListNoDup. repeat constructor; simpl; intros H; intuition discriminate.
  - intros t. unfold found. rewrite !elem_of_cons, !elem_of_nil. tauto.
Qed.

Lemma scan_builds_the_tasks_witness :
  ("ISPY2-100", "01-02-2003", "s1", ["in"], ["out"]) ∈ found ↔
  ["in"] = ["in"] ∧ ["out"] = ["out"]
  ∧ "ISPY2-100" ∈ subdirs_of (sample_world nominal) scan_fs ["in"]
  ∧ recognized "ISPY2-100" = true
  ∧ "01-02-2003" ∈ subdirs_of (sample_world nominal) scan_fs (["in"] ++ ["ISPY2-100"])
  ∧ strptime_ok (sample_world nominal) "01-02-2003" = true
  ∧ "s1" ∈ series_of (sample_world nominal) scan_fs
             ((["in"] ++ ["ISPY2-100"]) ++ ["01-02-2003"]).
Proof.
  apply (scan_builds_the_tasks (sample_world nominal) ["in"] ["out"] scan_fs found
           (scan_input (sample_world nominal) ["in"] ["out"] scan_fs).1.2
           (scan_input (sample_world nominal) ["in"] ["out"] scan_fs).2).
  vm_compute. reflexivity.
Defined.

Lemma scan_tasks_differ_witness :
  NoDup found ∧ Forall (rooted ["in"] ["out"]) found.
Proof.
  apply (scan_tasks_differ (sample_world nominal) ["in"] ["out"] scan_fs found
           (scan_input (sample_world nominal) ["in"] ["out"] scan_fs).1.2
           (scan_input (sample_world nominal) ["in"] ["out"] scan_fs).2).
  vm_compute. reflexivity.
Defined.

(** A patient folder that cannot be listed ends [main] with the
    exception of [os.listdir], before any unit is processed. *)
Example unreadable_patient_folder_ends_main :
  let out := main_serial (sample_world (sample_env patient_unreadable))
               ["in"] ["out"] scan_fs in
  out.1.1 = inl (Exc PermissionError)
  ∧ out.2 = [Scanning ["in"]; SkippingPatient "OTHER-7"; FoundPatient "ISPY2-100"]
  ∧ out.1.2 = scan_fs.
Proof. split; [vm_compute; reflexivity|]. split; vm_compute; reflexivity. Qed.

Lemma scan_runs_through_iff_witness :
  is_Some (returned_tasks (scan_input (sample_world nominal) ["in"] ["out"] scan_fs))
  ↔ ∀ p, scanned (sample_world nominal) scan_fs ["in"] p
         → listable (sample_world nominal) scan_fs p.
Proof.
  apply (scan_runs_through_iff (sample_world nominal) ["in"] ["out"] scan_fs).
  intros ln. reflexivity.
Defined.

Lemma unlistable_folder_ends_main_witness :
  ∃ s l, main_serial (sample_world (sample_env patient_unreadable)) ["in"] ["out"] scan_fs
         = (inl s, scan_fs, l).
Proof.
  apply (unlistable_folder_ends_main (sample_world (sample_env patient_unreadable))
           ["in"] ["out"] scan_fs ["in"; "ISPY2-100"]).
  - right. left. exists "ISPY2-100". split; [reflexivity|]. split; [|reflexivity].
    apply (bool_decide_unpack _). vm_compute. exact I.
  - intros [names Hnames]. vm_compute in Hnames. discriminate Hnames.
Defined.

(** A line that cannot be printed ends the scan although every folder
    can be listed. *)
Example unprintable_line_ends_scan :
  let out := scan_input (narrow_world nominal) ["in"] ["out"] scan_fs in
  out.1.1 = inl (Exc OSError)
  ∧ out.2 = [Scanning ["in"]]
  ∧ ∀ p, scanned (narrow_world nominal) scan_fs ["in"] p
         → listable (narrow_world nominal) scan_fs p.
Proof.
  split; [vm_compute; reflexivity|]. split; [vm_compute; reflexivity|].
  rewrite <-scanned_listable.
  destruct (scan_input_yields (sample_world nominal) ["in"] ["out"] scan_fs) as [_ Hy].
  assert ((scan_input (sample_world nominal) ["in"] ["out"] scan_fs).1.1 = inr found) as Hr.
  { vm_compute. reflexivity. }
  rewrite Hr in Hy. apply Hy.
Qed.

End scan_examples.

(* ================================================================== *)
(** * The whole of [main] *)

(** [main] never changes the input tree: with the input root and the
    output root apart, every path at or below the input root finds the
    same node after [main] as before, however [main] ends. *)
Theorem main_keeps_input_tree W input_dir output_dir fs q :
  apart input_dir output_dir →
  input_dir `prefix_of` q →
  node_at q (main_serial W input_dir output_dir fs).1.2 = node_at q fs.
Proof.
  intros Hroots [r ->].
  destruct (main_serial_disk W input_dir output_dir fs) as [-> _].
  destruct (scan_input_yields W input_dir output_dir fs) as [_ Hy].
  destruct ((scan_input W input_dir output_dir fs).1.1) as [s|tasks]; [done|].
  destruct Hy as [-> _].
  destruct (organize_and_clean_disk (calls W)
              (tasks_of_input W fs input_dir output_dir) output_dir fs) as [-> _].
  assert (node_at (input_dir ++ r)
            (disk (serial_map (calls W) (tasks_of_input W fs input_dir output_dir) fs))
          = node_at (input_dir ++ r) fs) as Hserial.
  { apply serial_map_elsewhere, Forall_forall. intros t Ht.
    apply elem_of_tasks_of_input in Ht as (pf & df & sid & -> & _).
    apply apart_sym. cbn [staging_dir]. rewrite <-(assoc_L (++)).
    by apply apart_roots_below. }
  destruct (raised _); [done|].
  rewrite swept_apart; [done|].
  apply apart_sym. rewrite <-(right_id_L [] (++) output_dir).
  by apply apart_roots_below.
Qed.

(** What [main] leaves under the output root when it runs through and
    the system refuses nothing: only regular files that pass the sweep's
    test, and no empty directory. *)
Theorem main_leaves_output_tidy W input_dir output_dir fs fs' l q :
  main_serial W input_dir output_dir fs = (inr tt, fs', l) →
  no_refusal (calls W) → output_dir ≠ [] →
  (∀ x d, node_at ((output_dir ++ q) ++ [x]) fs' = Some (File d) → invalid_file x = false)
  ∧ node_at (output_dir ++ q) fs' ≠ Some (Dir ∅).
Proof.
  intros Hmain HE Hout.
  destruct (main_serial_disk W input_dir output_dir fs) as [Hdisk Hret].
  rewrite Hmain in Hdisk, Hret. cbn [fst snd] in Hdisk, Hret.
  destruct (Hret eq_refl) as (tasks & Hscan & Hrun). rewrite Hscan in Hdisk.
  destruct (organize_and_clean_disk (calls W) tasks output_dir fs) as [Hd Hr].
  rewrite (Hr Hrun) in Hd. rewrite Hdisk, Hd. by apply swept_leaves_tidy.
Qed.

Section main_examples.

Lemma main_keeps_input_tree_witness :
  node_at ["in"; "ISPY2-100"; "01-02-2003"; "s1.zip"]
    (main_serial (sample_world nominal) ["in"] ["out"] scan_fs).1.2
  = node_at ["in"; "ISPY2-100"; "01-02-2003"; "s1.zip"] scan_fs.
Proof.
  apply (main_keeps_input_tree (sample_world nominal) ["in"] ["out"] scan_fs).
  - split; intros [k Hk]; discriminate Hk.
  - by exists ["ISPY2-100"; "01-02-2003"; "s1.zip"].
Defined.

Lemma main_leaves_output_tidy_witness :
  let fs' := (main_serial (sample_world nominal) ["in"] ["out"] scan_fs).1.2 in
  (∀ x d, node_at ((["out"] ++ ["ISPY2-100"; "01-02-2003"; "s1"]) ++ [x]) fs'
          = Some (File d) → invalid_file x = false)
  ∧ node_at (["out"] ++ ["ISPY2-100"; "01-02-2003"; "s1"]) fs' ≠ Some (Dir ∅).
Proof.
  apply (main_leaves_output_tidy (sample_world nominal) ["in"] ["out"] scan_fs
           (main_serial (sample_world nominal) ["in"] ["out"] scan_fs).1.2
           (main_serial (sample_world nominal) ["in"] ["out"] scan_fs).2).
  - vm_compute. reflexivity.
  - intros o. reflexivity.
  - discriminate.
Defined.

(** The whole of [main] on the sample input tree: the three units are
    processed, and what is left under the output root is the sidecar of
    the sound unit. *)
Example main_on_sample :
  let out := main_serial (sample_world nominal) ["in"] ["out"] scan_fs in
  out.1.1 = inr tt
  ∧ filter (λ e, ["out"] `prefix_of` e.1) (ls_R [] out.1.2) =
      [ (["out"], None);
        (["out"; "ISPY2-100"], None);
        (["out"; "ISPY2-100"; "01-02-2003"], None);
        (["out"; "ISPY2-100"; "01-02-2003"; "s1"], None);
        (["out"; "ISPY2-100"; "01-02-2003"; "s1"; "s1.json"], Some "{1}") ].
Proof. split; vm_compute; reflexivity. Qed.

End main_examples.

(* ================================================================== *)
(** * When [process_series] returns *)

(** [process_series] returns, with a value or with [None], and raises
    nothing, whenever the calls it makes outside a [try] do not fail:
    [print], [os.walk] and [shutil.rmtree] do not raise, the system
    refuses neither [os.makedirs] of the two output directories nor
    [os.remove] of the archive copy, no regular file stands at the staging
    directory or above it, and no directory stands where the archive copy
    goes.  The failures of the other calls (the two copies, the
    extraction, the decoding, the encoding, the removal of a frame file)
    are caught. *)
Theorem process_series_returns E F t fs :
  quiet F →
  denied E (Makedirs (parent (staging_dir t))) = false →
  denied E (Makedirs (staging_dir t)) = false →
  denied E (Remove (archive_copy_path t)) = false →
  (∀ q, q `prefix_of` staging_dir t → ¬ file_at q fs) →
  ¬ dir_at (archive_copy_path t) fs →
  returns (run_strict E F (process_series t) fs).
Proof.
  intros HF Hd1 Hd2 Hd5 Hfree Hzip. rewrite run_strict_quiet by done.
  by apply process_series_runs_through.
Qed.

Section returns_examples.

Lemma process_series_returns_witness :
  returns (run_strict (sample_env sample_refusals) no_faults
             (process_series (sample_task "s2")) sample_fs).
Proof.
  apply process_series_returns.
  - by split.
  - reflexivity.
  - reflexivity.
  - reflexivity.
  - intros q Hq [d Hd]. revert Hd.
    destruct Hq as [r Hr]. vm_compute in Hr.
    destruct q as [|a [|b [|c [|e [|]]]]]; simplify_eq; vm_compute; discriminate.
  - intros [es Hes]. vm_compute in Hes. discriminate Hes.
Defined.

(** With a standard output that is full, the sound unit is processed to
    the end, and the [print] of the last line raises: the call does not
    return although every file operation succeeded. *)
Example full_stdout_ends_process_series :
  let out := run_strict nominal stdout_full (process_series (sample_task "s1")) sample_fs in
  out.1.1 = inl (Exc OSError)
  ∧ out.2 = []
  ∧ file_at (volume_path (sample_task "s1")) out.1.2.
Proof.
  split; [vm_compute; reflexivity|]. split; [vm_compute; reflexivity|].
  exists "frame-a+frame-b". vm_compute. reflexivity.
Qed.

(** A staging directory too deep for [os.walk]: the exception of the
    traversal leaves [process_series], with the extracted files left in
    the staging directory. *)
Example deep_tree_ends_process_series :
  let out := run_strict nominal trees_too_deep (process_series (sample_task "s1")) sample_fs in
  out.1.1 = inl (Exc RuntimeError)
  ∧ file_at (staging_dir (sample_task "s1") ++ ["a.dcm"]) out.1.2.
Proof.
  split; [vm_compute; reflexivity|]. exists "frame-a". vm_compute. reflexivity.
Qed.

End returns_examples.
